(** * Document-Chunking-App: chunking engine and quality filter

    A shallow embedding of [src/chunking.py] and of the quality filter of
    [src/batchProcessor.py], with the properties of the specification proved
    or refuted over it.

    Text is a Python [str]: a sequence of Unicode code points, here a list
    of [N].  The tokenizer (tiktoken), the two langchain splitters and the
    Markdown converter are libraries the repository calls; they enter the
    development as the fields of the class [Collaborators]. *)

From Stdlib Require Import ZArith NArith Lia.
From Stdlib Require Ascii String.
From stdpp Require Import base option list gmap strings pretty.

Open Scope N_scope.

Abbreviation char := N (only parsing).
Abbreviation str := (list N) (only parsing).

(** A [str] from a literal of ASCII characters. *)
Definition u (s : string) : str :=
  map Ascii.N_of_ascii (String.list_ascii_of_string s).

Fixpoint take_while {A} (p : A -> bool) (l : list A) : list A :=
  match l with
  | [] => []
  | x :: l' => if p x then x :: take_while p l' else []
  end.

Fixpoint drop_while {A} (p : A -> bool) (l : list A) : list A :=
  match l with
  | [] => []
  | x :: l' => if p x then drop_while p l' else l
  end.

(** ** Python built-ins on [str] *)
Module Py.

(** [str.isspace] on one code point; it is also what [str.strip] removes
    and what [\s] matches in a [str] pattern. *)
Definition isspace (c : char) : bool :=
  ((9 <=? c) && (c <=? 13)) || ((28 <=? c) && (c <=? 32))
  || (c =? 133) || (c =? 160) || (c =? 5760)
  || ((8192 <=? c) && (c <=? 8202))
  || (c =? 8232) || (c =? 8233) || (c =? 8239) || (c =? 8287)
  || (c =? 12288).

(** The line boundaries of [str.splitlines]. *)
Definition is_linebreak (c : char) : bool :=
  ((10 <=? c) && (c <=? 13)) || ((28 <=? c) && (c <=? 30))
  || (c =? 133) || (c =? 8232) || (c =? 8233).

Definition lstrip (s : str) : str := drop_while isspace s.
Definition rstrip (s : str) : str := reverse (drop_while isspace (reverse s)).
Definition strip (s : str) : str := lstrip (rstrip s).

(** [s.lstrip(chars)] for a one-character [chars]. *)
Definition lstrip_char (c : char) (s : str) : str := drop_while (N.eqb c) s.

(** [text.splitlines()]: a line ends at a boundary, CR LF counts as one,
    and a final boundary opens no further line. *)
Fixpoint splitlines (s : str) : list str :=
  match s with
  | [] => []
  | c :: s' =>
    if is_linebreak c then
      [] :: match s' with
            | d :: s'' =>
              if (c =? 13) && (d =? 10) then splitlines s'' else splitlines s'
            | [] => []
            end
    else
      match splitlines s' with
      | [] => [[c]]
      | l :: ls => (c :: l) :: ls
      end
  end.

(** [sep.join(parts)]. *)
Fixpoint join (sep : str) (parts : list str) : str :=
  match parts with
  | [] => []
  | p :: ps =>
    match ps with
    | [] => p
    | _ :: _ => p ++ sep ++ join sep ps
    end
  end.

Fixpoint startswith (p s : str) : bool :=
  match p, s with
  | [], _ => true
  | a :: p', b :: s' => (a =? b) && startswith p' s'
  | _ :: _, [] => false
  end.

(** [p in s]. *)
Fixpoint contains (p s : str) : bool :=
  startswith p s ||
  match s with
  | [] => false
  | _ :: s' => contains p s'
  end.

(** [s.split(sep)[-1]] for a non-empty [sep]: the text after the last of
    the occurrences of [sep] found from the left without overlap, and all
    of [s] when there is none.  [skip] counts the characters of the
    current occurrence still to be passed over, [acc] is the piece
    collected since the last occurrence. *)
Fixpoint split_last_from (sep : str) (skip : nat) (acc s : str) : str :=
  match s with
  | [] => acc
  | c :: s' =>
    match skip with
    | S k => split_last_from sep k acc s'
    | O =>
      if startswith sep s
      then split_last_from sep (length sep - 1) [] s'
      else split_last_from sep 0 (acc ++ [c]) s'
    end
  end.

Definition split_last (sep s : str) : str := split_last_from sep 0 [] s.

End Py.

(** ** The fragment of [re] the filter uses

    A pattern is given by its matcher: the length of the match the pattern
    finds anchored at the head of the input, if there is one.  None of the
    patterns below looks behind the match position and none matches the
    empty string. *)
Module Re.

Definition matcher := str -> option nat.

(** A character class: one character satisfying [p]. *)
Definition class (p : char -> bool) : matcher := fun s =>
  match s with
  | c :: _ => if p c then Some 1%nat else None
  | [] => None
  end.

(** [[p]{k,}], greedy: the whole run of [p] at the head when it has at
    least [k] characters. *)
Definition run (p : char -> bool) (k : nat) : matcher := fun s =>
  let n := length (take_while p s) in
  if (k <=? n)%nat then Some n else None.

(** [([p])\1{k,}], greedy: a character satisfying [p] followed by at
    least [k] copies of itself; the match is the whole run. *)
Definition repeated (p : char -> bool) (k : nat) : matcher := fun s =>
  match s with
  | c :: s' =>
    let n := length (take_while (N.eqb c) s') in
    if p c && (k <=? n)%nat then Some (S n) else None
  | [] => None
  end.

Definition lit (l : str) : matcher := fun s =>
  if Py.startswith l s then Some (length l) else None.

(** [a|b]: the first alternative that matches. *)
Definition alt (a b : matcher) : matcher := fun s =>
  match a s with
  | Some n => Some n
  | None => b s
  end.

(** [re.sub(pattern, repl, s)]: scan from the left; where the pattern
    matches, emit the replacement and resume after the match, elsewhere
    copy the character.  [skip] counts the characters of the current match
    still to be passed over. *)
Fixpoint sub_from (m : matcher) (repl : str -> str) (skip : nat) (s : str) : str :=
  match s with
  | [] => []
  | c :: s' =>
    match skip with
    | S k => sub_from m repl k s'
    | O =>
      match m s with
      | Some (S n) => repl (take (S n) s) ++ sub_from m repl n s'
      | _ => c :: sub_from m repl 0 s'
      end
    end
  end.

Definition sub (m : matcher) (repl : str -> str) (s : str) : str :=
  sub_from m repl 0 s.

(** [re.search(pattern, s)] as a truth value. *)
Fixpoint search (m : matcher) (s : str) : bool :=
  match m s with
  | Some _ => true
  | None =>
    match s with
    | [] => false
    | _ :: s' => search m s'
    end
  end.

(** [re.findall(pattern, s)]: the non-overlapping matches, left to right. *)
Fixpoint findall_from (m : matcher) (skip : nat) (s : str) : list str :=
  match s with
  | [] => []
  | _ :: s' =>
    match skip with
    | S k => findall_from m k s'
    | O =>
      match m s with
      | Some (S n) => take (S n) s :: findall_from m n s'
      | _ => findall_from m 0 s'
      end
    end
  end.

Definition findall (m : matcher) (s : str) : list str := findall_from m 0 s.

End Re.

(** ** Decoding the document: [base64] and the codecs *)
Module Codec.

Inductive exn :=
| UnicodeDecodeError
| BinasciiError
| ValueError.

(** The outcome of code that may raise. *)
Inductive result (A : Type) :=
| Ok (a : A)
| Raise (e : exn).
Arguments Ok {A} a.
Arguments Raise {A} e.

Definition bind {A B} (r : result A) (f : A -> result B) : result B :=
  match r with
  | Ok a => f a
  | Raise e => Raise e
  end.

Definition rmap {A B} (f : A -> B) (r : result A) : result B :=
  bind r (fun a => Ok (f a)).

Definition byte_of (n : N) : Byte.byte :=
  default Byte.x00 (Byte.of_N (n mod 256)).

(** The base64 alphabet. *)
Definition b64_char (v : N) : char :=
  if v <? 26 then 65 + v
  else if v <? 52 then 97 + (v - 26)
  else if v <? 62 then 48 + (v - 52)
  else if v =? 62 then 43 else 47.

Definition b64_value (c : char) : option N :=
  if (65 <=? c) && (c <=? 90) then Some (c - 65)
  else if (97 <=? c) && (c <=? 122) then Some (c - 97 + 26)
  else if (48 <=? c) && (c <=? 57) then Some (c - 48 + 52)
  else if c =? 43 then Some 62
  else if c =? 47 then Some 63
  else None.

(** [base64.b64encode(data).decode("utf-8")]. *)
Fixpoint b64encode (data : list Byte.byte) : str :=
  match data with
  | [] => []
  | [a] =>
    let a := Byte.to_N a in
    [b64_char (a / 4); b64_char ((a mod 4) * 16); 61; 61]
  | [a; b] =>
    let a := Byte.to_N a in
    let b := Byte.to_N b in
    [b64_char (a / 4); b64_char ((a mod 4) * 16 + b / 16);
     b64_char ((b mod 16) * 4); 61]
  | a :: b :: c :: rest =>
    let a := Byte.to_N a in
    let b := Byte.to_N b in
    let c := Byte.to_N c in
    b64_char (a / 4) :: b64_char ((a mod 4) * 16 + b / 16)
    :: b64_char ((b mod 16) * 4 + c / 64) :: b64_char (c mod 64)
    :: b64encode rest
  end.

(** [binascii.a2b_base64] without strict mode: characters outside the
    alphabet are passed over, a complete pad sequence ends the input, and
    an incomplete final group raises.  [quad_pos] is the position in the
    current group of four, [pads] the pad characters seen since the last
    data character, [leftchar] the bits not yet written. *)
Fixpoint a2b_base64 (quad_pos pads : nat) (leftchar : N) (s : str) : result (list Byte.byte) :=
  match s with
  | [] => if bool_decide (quad_pos = 0%nat) then Ok [] else Raise BinasciiError
  | ch :: s' =>
    if ch =? 61 then
      if (2 <=? quad_pos)%nat && (4 <=? quad_pos + S pads)%nat then Ok []
      else a2b_base64 quad_pos (if (2 <=? quad_pos)%nat then S pads else pads) leftchar s'
    else
      match b64_value ch with
      | None => a2b_base64 quad_pos pads leftchar s'
      | Some v =>
        match quad_pos with
        | 0%nat => a2b_base64 1 0 v s'
        | 1%nat => rmap (cons (byte_of (leftchar * 4 + v / 16)))
                        (a2b_base64 2 0 (v mod 16) s')
        | 2%nat => rmap (cons (byte_of (leftchar * 16 + v / 4)))
                        (a2b_base64 3 0 (v mod 4) s')
        | _ => rmap (cons (byte_of (leftchar * 64 + v)))
                    (a2b_base64 0 0 0 s')
        end
      end
  end.

(** [base64.b64decode(s)] for a [str] argument, which must be ASCII. *)
Definition b64decode (s : str) : result (list Byte.byte) :=
  if forallb (fun c => c <? 128) s then a2b_base64 0 0 0 s
  else Raise ValueError.

Definition is_continuation (b : N) : bool := (128 <=? b) && (b <=? 191).

(** [data.decode("utf-8")] with strict error handling: [None] stands for
    [UnicodeDecodeError].  Well-formed sequences are those of the Unicode
    standard: no overlong forms, no surrogates, nothing above U+10FFFF. *)
Fixpoint utf8_decode (data : list Byte.byte) : option str :=
  match data with
  | [] => Some []
  | b0 :: r0 =>
    let a := Byte.to_N b0 in
    if a <? 128 then cons a <$> utf8_decode r0
    else
      match r0 with
      | [] => None
      | b1 :: r1 =>
        let b := Byte.to_N b1 in
        if (194 <=? a) && (a <=? 223) then
          if is_continuation b
          then cons ((a - 192) * 64 + (b - 128)) <$> utf8_decode r1
          else None
        else
          match r1 with
          | [] => None
          | b2 :: r2 =>
            let c := Byte.to_N b2 in
            if (224 <=? a) && (a <=? 239) then
              if ((if a =? 224 then 160 else 128) <=? b)
                 && (b <=? (if a =? 237 then 159 else 191))
                 && is_continuation c
              then cons ((a - 224) * 4096 + (b - 128) * 64 + (c - 128))
                     <$> utf8_decode r2
              else None
            else
              match r2 with
              | [] => None
              | b3 :: r3 =>
                let d := Byte.to_N b3 in
                if (240 <=? a) && (a <=? 244)
                   && ((if a =? 240 then 144 else 128) <=? b)
                   && (b <=? (if a =? 244 then 143 else 191))
                   && is_continuation c && is_continuation d
                then cons ((a - 240) * 262144 + (b - 128) * 4096
                           + (c - 128) * 64 + (d - 128))
                       <$> utf8_decode r3
                else None
              end
          end
      end
  end.

(** The decoding table of Python's [cp1252] codec for the bytes 0x80 to
    0x9F; 0x81, 0x8D, 0x8F, 0x90 and 0x9D are undefined. *)
Definition cp1252_high : list (option char) :=
  [
    Some 8364; None; Some 8218; Some 402; Some 8222; Some 8230; Some 8224; Some 8225;
    Some 710; Some 8240; Some 352; Some 8249; Some 338; None; Some 381; None;
    None; Some 8216; Some 8217; Some 8220; Some 8221; Some 8226; Some 8211; Some 8212;
    Some 732; Some 8482; Some 353; Some 8250; Some 339; None; Some 382; Some 376
  ].

Definition cp1252_char (b : Byte.byte) : option char :=
  let a := Byte.to_N b in
  if (128 <=? a) && (a <=? 159)
  then mjoin (cp1252_high !! N.to_nat (a - 128))
  else Some a.

(** [data.decode("windows-1252")]: an undefined byte raises. *)
Definition cp1252_decode (data : list Byte.byte) : option str :=
  mapM cp1252_char data.

(** [data.decode("windows-1252", errors="replace")]: an undefined byte
    becomes U+FFFD. *)
Definition cp1252_decode_replace (data : list Byte.byte) : str :=
  map (fun b => default 65533 (cp1252_char b)) data.

End Codec.

(** ** The chunking strategies of [src/chunking.py] *)
Module Chunking.

(** The dictionaries the strategies return: ["text"] and ["heading"];
    [h2_heading_based_chunking] stores [None] where the others store
    the empty string. *)
Record text_chunk := TextChunk {
  text : str;
  heading : option str
}.

(** The dictionaries [get_html_chunks] builds and the quality filter receives:
    keys ["url"], ["chunk"] and ["position"]. *)
Record positioned_chunk := PositionedChunk {
  url : str;
  chunk : str;
  position : nat
}.

(** A langchain [Document]: the section body and the headings that
    govern it, keyed by the names given to the header splitter. *)
Record document := Document {
  page_content : str;
  metadata : gmap string str
}.

(** The document dictionary: [html_doc["file_data"]["data"]], base64
    text, and [html_doc["metadata_storage_path"]]. *)
Record html_doc := HtmlDoc {
  file_data : str;
  metadata_storage_path : str
}.

(** The libraries behind the strategies.  [encode] is
    [tiktoken.encoding_for_model("gpt-4").encode]; [split_text cs ov] is
    [RecursiveCharacterTextSplitter.from_tiktoken_encoder(chunk_size=cs,
    chunk_overlap=ov).split_text]; [split_headers hs] is
    [MarkdownHeaderTextSplitter(headers_to_split_on=hs).split_text];
    [md] is [markdownify] with ATX headings; [trafilatura_extract] is
    [trafilatura.extract] with the options of the source.

    A field stands for the value the library returns.  Where a library
    raises instead (the text splitter is built only when
    [0 < chunk_size] and [0 <= chunk_overlap <= chunk_size]; the tokenizer
    refuses text that spells one of its special tokens) there is no such
    value: a property that depends on the call states the values returned
    as hypotheses, or assumes a configuration the constructor accepts. *)
Class Collaborators := {
  encode : str -> list N;
  split_text : Z -> Z -> str -> list str;
  split_headers : list (str * string) -> str -> list document;
  md : str -> str;
  trafilatura_extract : str -> option str
}.

Definition CHUNKING_STRATEGY_FIXED : string := "fixed_size".
Definition CHUNKING_STRATEGY_H1_BASED : string := "h1_heading_based".
Definition CHUNKING_STRATEGY_H2_BASED : string := "h2_heading_based".

Definition NLNL : str := [10; 10].
Definition CONTINUED : str := u "(continued)".

(** [metadata.get(key)] where the source tests or uses it: present and
    not the empty string. *)
Definition get_truthy (key : string) (metadata : gmap string str) : option str :=
  match metadata !! key with
  | Some (c :: s) => Some (c :: s)
  | _ => None
  end.

(** [len(documents) > 1 or (len(documents) == 1 and
    documents[0].metadata.get(key))]. *)
Definition has_meaningful_splits (key : string) (documents : list document) : bool :=
  (1 <? length documents)%nat ||
  match documents with
  | [d] => bool_decide (is_Some (get_truthy key (metadata d)))
  | _ => false
  end.

(** [f"{heading_line}\n\n{body}" if heading_line else body]. *)
Definition with_heading_line (heading_line body : str) : str :=
  match heading_line with
  | [] => body
  | _ :: _ => heading_line ++ NLNL ++ body
  end.

(** [f"{heading_line} (continued)\n\n{body}" if heading_line else
    f"(continued)\n\n{body}"]. *)
Definition with_continuation (heading_line body : str) : str :=
  match heading_line with
  | [] => CONTINUED ++ NLNL ++ body
  | _ :: _ => heading_line ++ [32] ++ CONTINUED ++ NLNL ++ body
  end.

Section Strategies.
Context `{libs : Collaborators}.

Definition count_tokens (t : str) : Z := Z.of_nat (length (encode t)).

Definition extract_html_main_content (html_content : str) (extract_main_content : bool) : str :=
  if extract_main_content then
    match trafilatura_extract html_content with
    | Some (c :: s) => c :: s
    | _ => html_content
    end
  else html_content.

Definition html_to_markdown (html_str : str) : str := md html_str.

Definition fixed_size_chunking (markdown_content : str) (chunk_size chunk_overlap : Z) : list text_chunk :=
  let split_texts := split_text chunk_size chunk_overlap markdown_content in
  omap (fun t =>
          if bool_decide (t = []) || bool_decide (Py.strip t = []) then None
          else Some {| text := Py.strip t; heading := Some [] |})
       split_texts.

(** The loop over [enumerate(sub_chunks)] in the overflow branch of
    [h1_heading_based_chunking].  The list is updated in place while it
    is traversed: a merge writes the merged text at index [i + 1] and
    skips the rest of the body.  [n] is the number of indices still to
    visit; the length of the list never changes, so the loop runs
    [len(sub_chunks)] times. *)
Fixpoint h1_sub_chunk_loop (heading_line : str) (heading : str)
    (chunk_size continuation_overhead threshold : Z)
    (n i : nat) (sub_chunks : list str) : list text_chunk :=
  match n with
  | O => []
  | S n' =>
    match sub_chunks !! i with
    | None => []
    | Some sub_chunk =>
      let sub_chunk := Py.strip sub_chunk in
      let combined_text :=
        if bool_decide (i = 0%nat)
        then with_heading_line heading_line sub_chunk
        else with_continuation heading_line sub_chunk in
      let emitted := {| text := combined_text; heading := Some heading |} in
      let rest := h1_sub_chunk_loop heading_line heading chunk_size
                    continuation_overhead threshold n' (S i) in
      match (if bool_decide (i < length sub_chunks - 1)%nat
             then sub_chunks !! S i else None) with
      | Some next =>
        let current_chunk_tokens := count_tokens sub_chunk in
        let next_chunk_tokens := count_tokens next in
        if ((current_chunk_tokens + next_chunk_tokens + continuation_overhead <=? chunk_size)
            && (next_chunk_tokens <? threshold))%Z
        then rest (<[S i := sub_chunk ++ NLNL ++ Py.strip next]> sub_chunks)
        else emitted :: rest sub_chunks
      | None => emitted :: rest sub_chunks
      end
    end
  end.

(** The body of the loop over [documents] in
    [h1_heading_based_chunking]. *)
Definition h1_section (chunk_size chunk_overlap threshold : Z) (doc : document) : list text_chunk :=
  let section_text := Py.strip (page_content doc) in
  let '(heading, heading_line) :=
    match get_truthy "H1" (metadata doc) with
    | Some h => (h, u "# " ++ h)
    | None =>
      match get_truthy "H2" (metadata doc) with
      | Some h => (h, u "## " ++ h)
      | None => ([], [])
      end
    end in
  let full_content := with_heading_line heading_line section_text in
  if (count_tokens full_content <=? chunk_size)%Z then
    [ {| text := full_content; heading := Some heading |} ]
  else
    let continuation_overhead := count_tokens (with_continuation heading_line []) in
    let available_size := (chunk_size - continuation_overhead)%Z in
    let sub_chunks := split_text available_size chunk_overlap section_text in
    h1_sub_chunk_loop heading_line heading chunk_size continuation_overhead
      threshold (length sub_chunks) 0 sub_chunks.

Definition h1_heading_based_chunking (markdown_content : str)
    (chunk_size chunk_overlap threshold : Z) : list text_chunk :=
  let documents := split_headers [(u "#", "H1"%string)] markdown_content in
  if has_meaningful_splits "H1" documents then
    flat_map (h1_section chunk_size chunk_overlap threshold) documents
  else
    let h2_documents := split_headers [(u "##", "H2"%string)] markdown_content in
    if has_meaningful_splits "H2" h2_documents then
      flat_map (h1_section chunk_size chunk_overlap threshold) h2_documents
    else
      fixed_size_chunking markdown_content chunk_size chunk_overlap.

(** The body of the loop over [documents] in
    [h2_heading_based_chunking]. *)
Definition h2_section (chunk_size chunk_overlap : Z) (doc : document) : list text_chunk :=
  let section_text := Py.strip (page_content doc) in
  let heading :=
    match get_truthy "H2" (metadata doc) with
    | Some h => Some h
    | None => get_truthy "H1" (metadata doc)
    end in
  let heading_line :=
    match heading with
    | Some h => u "## " ++ h
    | None => []
    end in
  let full_content := with_heading_line heading_line section_text in
  if (count_tokens full_content <=? chunk_size)%Z then
    [ {| text := full_content; heading := heading |} ]
  else
    let sub_chunks :=
      split_text (chunk_size - count_tokens heading_line - 50)%Z chunk_overlap section_text in
    imap (fun i sub_chunk =>
            let sub_chunk := Py.strip sub_chunk in
            {| text := if bool_decide (i = 0%nat)
                       then with_heading_line heading_line sub_chunk
                       else with_continuation heading_line sub_chunk;
               heading := heading |})
         sub_chunks.

Definition h2_heading_based_chunking (markdown_content : str)
    (chunk_size chunk_overlap : Z) : list text_chunk :=
  let documents :=
    split_headers [(u "#", "H1"%string); (u "##", "H2"%string)] markdown_content in
  flat_map (h2_section chunk_size chunk_overlap) documents.

(** [get_html_content]: decode the base64 payload, then the bytes as
    UTF-8 and, when that fails, as windows-1252 with the default
    (strict) error handling. *)
Definition get_html_content (doc : html_doc) : Codec.result str :=
  Codec.bind (Codec.b64decode (file_data doc)) (fun decoded_file_data =>
    match Codec.utf8_decode decoded_file_data with
    | Some html_content => Codec.Ok html_content
    | None =>
      match Codec.cp1252_decode decoded_file_data with
      | Some html_content => Codec.Ok html_content
      | None => Codec.Raise Codec.UnicodeDecodeError
      end
    end).

(** The URL rule of [get_html_chunks]. *)
Definition chunk_url (metadata_storage_path : str) : str :=
  let p := metadata_storage_path in
  let is_user_doc :=
    Py.contains (u "User Documentation") p || Py.contains (u "User%20Documentation") p in
  let is_tech_doc :=
    Py.contains (u "Technical Documentation") p
    || Py.contains (u "Technical%20Documentation") p in
  let is_ale_doc :=
    Py.contains (u "aledoc25r1") p || Py.contains (u "ale%20doc25r1") p in
  if is_tech_doc then
    u "https://docs.ifs.com/techdocs/25r1"
    ++ (if Py.contains (u "/techdocs25r1") p
        then Py.split_last (u "/techdocs25r1") p
        else Py.lstrip_char 47 p)
  else if is_user_doc then
    u "https://docs.ifs.com/ifsclouddocs/25r1/"
    ++ (if Py.contains (u "/en/") p
        then Py.split_last (u "/en/") p
        else Py.lstrip_char 47 p)
  else if is_ale_doc then
    u "https://docs.ifs.com/techdocs/ale/" ++ Py.split_last (u "/aledoc25r1") p
  else p.

(** The loop of [get_html_chunks] that builds [chunks_list]. *)
Definition build_chunks_list (metadata_storage_path : str) (chunks : list text_chunk)
    : list positioned_chunk :=
  imap (fun i chunk_data =>
          {| url := chunk_url metadata_storage_path;
             chunk := text chunk_data;
             position := i |})
       chunks.

Definition get_html_chunks (doc : html_doc) (chunk_size chunk_overlap : Z)
    (chunking_strategy : string) (extract_main_content : bool)
    : Codec.result (list positioned_chunk) :=
  Codec.bind (get_html_content doc) (fun html_content =>
    let clean_html := extract_html_main_content html_content extract_main_content in
    let markdown_content := html_to_markdown clean_html in
    let chunks :=
      if bool_decide (chunking_strategy = CHUNKING_STRATEGY_H1_BASED) then
        h1_heading_based_chunking markdown_content chunk_size chunk_overlap 50
      else if bool_decide (chunking_strategy = CHUNKING_STRATEGY_H2_BASED) then
        h2_heading_based_chunking markdown_content chunk_size chunk_overlap
      else
        fixed_size_chunking markdown_content chunk_size chunk_overlap in
    Codec.Ok (build_chunks_list (metadata_storage_path doc) chunks)).

End Strategies.

End Chunking.

(** ** The quality filter of [src/batchProcessor.py] *)
Module BatchProcessor.

Import Chunking.

Definition LF : char := 10.
Definition SPACE : char := 32.
Definition HASH : char := 35.
Definition PIPE : char := 124.

(** [re.match(r"^\s*(```|~~~)", line)].  The character after [\s*] is
    not white space, so [\s*] takes exactly the leading white space. *)
Definition is_fence_line (line : str) : bool :=
  let r := Py.lstrip line in
  Py.startswith (u "```") r || Py.startswith (u "~~~") r.

(** [.*\|$] on what follows the first pipe: no newline, and the last
    character is a pipe. *)
Definition ends_row (rest : str) : bool :=
  forallb (fun c => negb (c =? LF)) rest &&
  match last rest with
  | Some c => c =? PIPE
  | None => false
  end.

(** [re.match(r"^\s*\|.*\|$", line)]; [$] also matches before a final
    newline. *)
Definition is_table_row (line : str) : bool :=
  match Py.lstrip line with
  | c :: rest =>
    (c =? PIPE) &&
    (ends_row rest ||
     match reverse rest with
     | d :: r => (d =? LF) && ends_row (reverse r)
     | [] => false
     end)
  | [] => false
  end.

(** [re.match(r"^\s*#{1,6}\s", line)]: one to six hashes, then a white
    space character; with seven or more hashes the character after any
    six of them is a hash, so there is no match. *)
Definition is_heading_line (line : str) : bool :=
  let r := Py.lstrip line in
  let n := length (take_while (N.eqb HASH) r) in
  (1 <=? n)%nat && (n <=? 6)%nat &&
  match drop n r with
  | c :: _ => Py.isspace c
  | [] => false
  end.

Definition is_dash_or_equals (c : char) : bool := (c =? 45) || (c =? 61).

(** [re.match(r"^\s*[-=]{3,}\s*$", line)]. *)
Definition is_rule_line (line : str) : bool :=
  let r := Py.lstrip line in
  (3 <=? length (take_while is_dash_or_equals r))%nat &&
  forallb Py.isspace (drop_while is_dash_or_equals r).

Definition is_tab_or_cr (c : char) : bool := (c =? 9) || (c =? 13).

(** [[\x00-\x1F\x7F-\x9F]]. *)
Definition is_control (c : char) : bool :=
  (c <=? 31) || ((127 <=? c) && (c <=? 159)).

(** [[^#\-=]]. *)
Definition not_markup (c : char) : bool :=
  negb ((c =? HASH) || (c =? 45) || (c =? 61)).

(** The lines [clean_chunk_text] passes through untouched. *)
Definition is_exempt_line (line : str) : bool :=
  is_fence_line line || is_table_row line || is_heading_line line.

(** The body of the loop of [clean_chunk_text] for a line that is not
    exempt. *)
Definition normalize_line (line : str) : str :=
  let line := Re.sub (Re.run is_tab_or_cr 1) (fun _ => [SPACE]) line in
  let leading_spaces := (length line - length (Py.lstrip_char SPACE line))%nat in
  let line :=
    replicate leading_spaces SPACE
    ++ Re.sub (Re.run (N.eqb SPACE) 2) (fun _ => [SPACE]) (Py.lstrip line) in
  let line := Re.sub (Re.class is_control) (fun _ => []) line in
  if negb (is_rule_line line)
  then Re.sub (Re.repeated not_markup 5) (take 1) line
  else line.

Definition clean_line (line : str) : str :=
  if is_exempt_line line then line else normalize_line line.

Definition clean_chunk_text (text : str) : str :=
  Py.strip (Py.join [LF] (map clean_line (Py.splitlines text))).

(** [\|.*\|]: a pipe, then greedily up to the last pipe before the next
    newline. *)
Definition pipes : Re.matcher := fun s =>
  match s with
  | c :: rest =>
    let line := take_while (fun d => negb (d =? LF)) rest in
    let tail := take_while (fun d => negb (d =? PIPE)) (reverse line) in
    if (c =? PIPE) && (length tail <? length line)%nat
    then Some (S (length line - length tail))
    else None
  | [] => None
  end.

(** [[#|\-`]]. *)
Definition is_decoration (c : char) : bool :=
  (c =? HASH) || (c =? PIPE) || (c =? 45) || (c =? 96).

(** [[a-zA-Z0-9]]. *)
Definition is_alnum (c : char) : bool :=
  ((97 <=? c) && (c <=? 122)) || ((65 <=? c) && (c <=? 90))
  || ((48 <=? c) && (c <=? 57)).

(** The allowlist of the negated class in [re.findall]: letters, digits,
    white space, the double quote (34) and the punctuation listed. *)
Definition is_basic (c : char) : bool :=
  is_alnum c || Py.isspace c || (c =? 34)
  || existsb (N.eqb c) (u ".,;:!?()'{}[]<>=+-/%$#@&*").

(** [is_gibberish].  The test [len(non_basic) / len(stripped_text) > 0.1]
    is a comparison of floats; for lengths below [2^50] it holds exactly
    when [10 * len(non_basic) > len(stripped_text)]. *)
Definition is_gibberish (text : str) : bool :=
  if Re.search (Re.alt (Re.lit (u "```")) (Re.alt (Re.lit (u "~~~")) pipes)) text
  then false
  else
    let stripped_text := Re.sub (Re.class is_decoration) (fun _ => []) text in
    if Re.search (Re.repeated is_alnum 5) stripped_text then true
    else
      let non_basic := Re.findall (Re.class (fun c => negb (is_basic c))) stripped_text in
      (0 <? length stripped_text)%nat
      && (length stripped_text <? 10 * length non_basic)%nat.

Fixpoint apply_quality_filters (chunks : list positioned_chunk) : list positioned_chunk :=
  match chunks with
  | [] => []
  | c :: rest =>
    let text := clean_chunk_text (chunk c) in
    if negb (bool_decide (text = [])) && negb (is_gibberish text)
    then {| url := url c; chunk := text; position := position c |}
         :: apply_quality_filters rest
    else apply_quality_filters rest
  end.

(** The options of a batch the chunking reads; an absent key takes the
    default of the source. *)
Record options := Options {
  opt_chunk_size : option Z;
  opt_chunk_overlap : option Z;
  opt_chunking_strategy : option string;
  opt_extract_main_content : option bool
}.

(** What [process_single_file] returns: the filtered chunks handed to
    the artifact builder, or the failure record with the exception and
    the stage it was raised in. *)
Inductive outcome :=
| Success (filtered_chunks : list positioned_chunk)
| Failed (error_type : Codec.exn) (processing_stage : string).

(** Stage 2 of [process_single_file]: the text used for metadata
    extraction, decoded with replacement of undefined bytes. *)
Definition decode_html_bytes (html_bytes : list Byte.byte) : str :=
  match Codec.utf8_decode html_bytes with
  | Some decoded_html => decoded_html
  | None => Codec.cp1252_decode_replace html_bytes
  end.

(** Stages 2 to 4 of [process_single_file] (process_html, chunking,
    quality_filter) on the bytes read from storage, for a read that
    returned bytes and library calls that return.  The stages after the
    filter (metadata extraction, artifact generation, upload) are not part
    of this definition: [Success] is the state after stage 4, not the
    result of the whole function.  The summary over whole files is stated
    in [Batch] over an arbitrary per-file function. *)
Definition process_single_file `{libs : Collaborators} (opts : options) (file_path : str)
    (html_bytes : list Byte.byte) : outcome :=
  let base64_encoded_data := Codec.b64encode html_bytes in
  let doc := {| file_data := base64_encoded_data; metadata_storage_path := file_path |} in
  let chunk_size := default 750%Z (opt_chunk_size opts) in
  let chunk_overlap := default 100%Z (opt_chunk_overlap opts) in
  let chunking_strategy := default CHUNKING_STRATEGY_FIXED (opt_chunking_strategy opts) in
  let extract_main_content := default false (opt_extract_main_content opts) in
  let chunking_strategy :=
    if bool_decide (chunking_strategy ∈
         [CHUNKING_STRATEGY_FIXED; CHUNKING_STRATEGY_H1_BASED; CHUNKING_STRATEGY_H2_BASED])
    then chunking_strategy else CHUNKING_STRATEGY_FIXED in
  match get_html_chunks doc chunk_size chunk_overlap chunking_strategy extract_main_content with
  | Codec.Raise e => Failed e "chunking"
  | Codec.Ok chunks => Success (apply_quality_filters chunks)
  end.

End BatchProcessor.

(** ** Reference collaborators

    Small executable stand-ins for the libraries: every character is a
    token, the text splitter packs blank-line separated paragraphs greedily
    within the budget (a paragraph is never cut), and the header splitter
    reads ATX heading lines.  They are not the libraries.  Every property
    below is proved for all collaborators; the stand-ins only instantiate
    a property at a concrete input, to show that its hypotheses can hold
    together. *)
Module Sample.

Import Chunking.

(** [s.split("\n")]. *)
Fixpoint split_lines (s : str) : list str :=
  match s with
  | [] => [[]]
  | c :: s' =>
    if c =? 10 then [] :: split_lines s'
    else
      match split_lines s' with
      | [] => [[c]]
      | l :: ls => (c :: l) :: ls
      end
  end.

(** [s.split("\n\n")]. *)
Fixpoint split_paragraphs (s : str) : list str :=
  match s with
  | [] => [[]]
  | c :: s' =>
    match s' with
    | d :: s'' =>
      if (c =? 10) && (d =? 10) then [] :: split_paragraphs s''
      else
        match split_paragraphs s' with
        | [] => [[c]]
        | l :: ls => (c :: l) :: ls
        end
    | [] => [[c]]
    end
  end.

(** Greedy packing: a paragraph joins the current piece when the piece,
    the blank line and the paragraph fit the budget together. *)
Fixpoint pack (budget : Z) (current : str) (paragraphs : list str) : list str :=
  match paragraphs with
  | [] => [current]
  | p :: ps =>
    if (Z.of_nat (length current + 2 + length p) <=? budget)%Z
    then pack budget (current ++ NLNL ++ p) ps
    else current :: pack budget p ps
  end.

Definition split_text (chunk_size chunk_overlap : Z) (t : str) : list str :=
  match split_paragraphs t with
  | [] => []
  | p :: ps =>
    filter (fun piece => piece ≠ []) (map Py.strip (pack chunk_size p ps))
  end.

(** The heading a line opens, if any: the first configured marker that
    the line starts with, followed by a space. *)
Fixpoint find_header (headers : list (str * string)) (line : str)
    : option (str * string * str) :=
  match headers with
  | [] => None
  | (sep, name) :: rest =>
    if Py.startswith (sep ++ [32]) line
    then Some (sep, name, Py.strip (drop (length sep) line))
    else find_header rest line
  end.

(** A heading closes the headings of its own and of deeper levels. *)
Definition open_heading (headers : list (str * string)) (sep : str) (name : string)
    (title : str) (meta : gmap string str) : gmap string str :=
  <[name := title]>
    (foldr (fun h m => if (length sep <=? length h.1)%nat then delete h.2 m else m)
           meta headers).

Definition flush (meta : gmap string str) (current : list str) : list document :=
  if bool_decide (Py.strip (Py.join [10] current) = []) then []
  else [ {| page_content := Py.join [10] current; metadata := meta |} ].

Fixpoint headers_loop (headers : list (str * string)) (meta : gmap string str)
    (current lines : list str) : list document :=
  match lines with
  | [] => flush meta current
  | l :: ls =>
    match find_header headers (Py.strip l) with
    | Some (sep, name, title) =>
      flush meta current
      ++ headers_loop headers (open_heading headers sep name title meta) [] ls
    | None => headers_loop headers meta (current ++ [l]) ls
    end
  end.

Definition split_headers (headers : list (str * string)) (t : str) : list document :=
  headers_loop headers ∅ [] (split_lines t).

#[export] Instance collaborators : Collaborators := {|
  encode := fun t => t;
  Chunking.split_text := split_text;
  Chunking.split_headers := split_headers;
  md := fun t => t;
  trafilatura_extract := fun _ => None
|}.

End Sample.

(** ** Concrete documents

    Inputs on which the strategies and the filter are run below.  Under the
    reference collaborators a token is a character. *)
Module Inputs.

Import Chunking BatchProcessor.

Definition plain_text : str := u "plain text without any heading".

(** A preamble, a level-1 section and a level-2 section inside it. *)
Definition nested_sections : str :=
  u "intro" ++ [10] ++ u "# A" ++ [10] ++ replicate 30 120 ++ NLNL
  ++ replicate 30 121 ++ [10] ++ u "## B" ++ [10] ++ u "short".

(** A document of two paragraphs, the first of carets only. *)
Definition carets_then_text : list Byte.byte :=
  map Codec.byte_of (u "^^^^^^" ++ NLNL ++ u "Normal text chunk.").

Definition no_options : options :=
  {| opt_chunk_size := None; opt_chunk_overlap := None;
     opt_chunking_strategy := None; opt_extract_main_content := None |}.

Definition carets_doc : html_doc :=
  {| file_data := Codec.b64encode carets_then_text;
     metadata_storage_path := u "docs/a.html" |}.

(** Two chunks of one document, numbered as [get_html_chunks] numbers
    them, the first made of carets only. *)
Definition carets_chunks : list positioned_chunk :=
  [ {| url := u "docs/a.html"; chunk := u "^^^^^^"; position := 0 |};
    {| url := u "docs/a.html"; chunk := u "Normal text chunk."; position := 1 |} ].

(** The section of [nested_sections] under the heading A, as the
    reference header splitter returns it for the levels 1 and 2. *)
Definition section_A : document :=
  {| page_content := replicate 30 120 ++ NLNL ++ replicate 30 121;
     metadata := {[ "H1"%string := u "A" ]} |}.

(** The preamble of [nested_sections]. *)
Definition preamble : document :=
  {| page_content := u "intro"; metadata := ∅ |}.

(** The text of [test_clean_chunk_text_basic]. *)
Definition test_text : str :=
  u "This   is   a   test" ++ NLNL ++ u "### Heading" ++ NLNL
  ++ u "```code block```" ++ [10] ++ u "-----" ++ [10] ++ u "!!!!!!!!!aaaaaa".

(** Two words with a control character between two spaces. *)
Definition control_between_spaces : str := [97; 32; 1; 32; 98].

(** A line of text, then an indented heading marker without a title. *)
Definition empty_heading_last : str :=
  u "a" ++ [10] ++ replicate 7 32 ++ u "# ".

(** A text without headings, two paragraphs of 30 characters, and the
    section the reference header splitter makes of it. *)
Definition unheaded_text : str := replicate 30 120 ++ NLNL ++ replicate 30 121.

Definition unheaded_section : document :=
  {| page_content := unheaded_text; metadata := ∅ |}.

Definition positioned (t : str) : positioned_chunk :=
  {| url := []; chunk := t; position := 0 |}.

End Inputs.

(** ** The classifier in the words of the specification

    What section 4.4 of the specification says of a text, stated on the
    text itself; compared with [is_gibberish] below. *)
Module Spec.

Import BatchProcessor.

(** A code fence marker, or two pipes on one line. *)
Definition has_marker (t : str) : Prop :=
  (∃ a b, t = a ++ u "```" ++ b)
  ∨ (∃ a b, t = a ++ u "~~~" ++ b)
  ∨ (∃ a m b, t = a ++ [PIPE] ++ m ++ [PIPE] ++ b ∧ LF ∉ m).

(** The text once the decoration characters are removed. *)
Definition without_decoration (t : str) : str :=
  filter (λ c, is_decoration c = false) t.

(** (a) an alphanumeric character six or more times in a row. *)
Definition has_repeated_alnum (t : str) : Prop :=
  ∃ a c b, is_alnum c = true ∧ t = a ++ replicate 6 c ++ b.

(** (b) more than 10% of the characters outside the allowlist. *)
Definition mostly_non_basic (t : str) : Prop :=
  (length t < 10 * length (filter (λ c, is_basic c = false) t))%nat.

End Spec.

(** ** Normalized lines

    The vocabulary in which the idempotence of [clean_chunk_text] is stated
    and proved. *)
Module Normalized.

Import BatchProcessor.

(** A control character of the class [[\x00-\x1F\x7F-\x9F]] that is neither
    a tab nor a line boundary. *)
Definition is_stray_control (c : char) : bool :=
  is_control c && negb (c =? 9) && negb (Py.is_linebreak c).

(** [re.match(r"^\s*#{1,6}$", line)] on a line without newline: a heading
    marker and nothing after it. *)
Definition is_bare_hashes (line : str) : bool :=
  let r := Py.lstrip line in
  let n := length (take_while (N.eqb HASH) r) in
  (1 <=? n)%nat && (n <=? 6)%nat && bool_decide (drop n r = []).

(** A line as [str.splitlines] returns it: no line boundary inside. *)
Definition break_free (l : str) : Prop := Forall (λ c, Py.is_linebreak c = false) l.

(** The last line of a text, if it has one. *)
Definition last_line (t : str) : option str := last (Py.splitlines t).

(** What [str.strip] does to a text given by its lines: the blank lines at
    either end go, the first line left loses its leading white space and the
    last its trailing white space. *)
Fixpoint lstrip_lines (lines : list str) : list str :=
  match lines with
  | [] => []
  | l :: ls => if forallb Py.isspace l then lstrip_lines ls else Py.lstrip l :: ls
  end.

Fixpoint rstrip_lines (lines : list str) : list str :=
  match lines with
  | [] => []
  | l :: ls =>
    match rstrip_lines ls with
    | [] => if forallb Py.isspace l then [] else [Py.rstrip l]
    | r :: rs => l :: r :: rs
    end
  end.

(** The substitutions of [normalize_line]. *)
(** [re.sub(r"[\t\r]+", " ", line)]. *)
Definition sub_tabs (s : str) : str :=
  Re.sub (Re.run is_tab_or_cr 1) (λ _, [SPACE]) s.

(** [re.sub(r" {2,}", " ", s)]. *)
Definition sub_spaces (s : str) : str :=
  Re.sub (Re.run (N.eqb SPACE) 2) (λ _, [SPACE]) s.

(** [re.sub(r"([^#\-=])\1{5,}", r"\1", s)]. *)
Definition sub_repeats (s : str) : str :=
  Re.sub (Re.repeated not_markup 5) (take 1) s.

(** No two spaces in a row. *)
Fixpoint no_double_space (s : str) : bool :=
  match s with
  | [] => true
  | c :: s' =>
    match s' with
    | [] => true
    | d :: _ => negb ((c =? SPACE) && (d =? SPACE)) && no_double_space s'
    end
  end.

(** Leading spaces, then text that does not begin with white space and has
    no two spaces in a row. *)
Definition well_indented (line : str) : Prop :=
  ∃ k body,
    line = replicate k SPACE ++ body
    ∧ match body with
      | [] => True
      | c :: _ => Py.isspace c = false
      end
    ∧ no_double_space body = true.

(** The lines [normalize_line] leaves as they are. *)
Definition normal (line : str) : Prop :=
  Forall (λ c, is_control c = false) line
  ∧ well_indented line
  ∧ (is_rule_line line = true
     ∨ Re.search (Re.repeated not_markup 5) line = false).

(** The characters of the lines of a text, and one more for each line. *)
Definition lines_weight (lines : list str) : nat :=
  foldr (λ l acc, S (length l + acc)) 0%nat lines.

End Normalized.

(** ** Further code of the repository *)

(** [src/utils.py], with what it needs of Python. *)
Module Utils.

Import Chunking.

(** [str(n)] for a non-negative integer. *)
Definition str_of_nat (n : nat) : str := u (pretty n).

(** The decimal digits, of which [str(n)] is made. *)
Definition is_digit (c : char) : Prop := 48 ≤ c ∧ c ≤ 57.

(** The UTF-8 form of one code point; surrogates cannot be encoded, and a
    Python [str] holds nothing above U+10FFFF. *)
Definition utf8_encode_char (c : char) : option (list Byte.byte) :=
  if c <? 128 then Some [Codec.byte_of c]
  else if c <? 2048 then
    Some [Codec.byte_of (192 + c / 64); Codec.byte_of (128 + c mod 64)]
  else if c <? 65536 then
    if (55296 <=? c) && (c <=? 57343) then None
    else Some [Codec.byte_of (224 + c / 4096);
               Codec.byte_of (128 + (c / 64) mod 64);
               Codec.byte_of (128 + c mod 64)]
  else if c <? 1114112 then
    Some [Codec.byte_of (240 + c / 262144);
          Codec.byte_of (128 + (c / 4096) mod 64);
          Codec.byte_of (128 + (c / 64) mod 64);
          Codec.byte_of (128 + c mod 64)]
  else None.

(** [s.encode("utf-8")]; [None] stands for [UnicodeEncodeError]. *)
Definition utf8_encode (s : str) : option (list Byte.byte) :=
  (λ parts, concat parts) <$> mapM utf8_encode_char s.

(** The dictionaries [generate_artifact] returns. *)
Record artifact := Artifact {
  title : str;
  parent_id : str;
  location : str;
  chunk : str;
  category : list str;
  name : str;
  chunk_id : str
}.

Section GenerateArtifact.

(** [hashlib.sha256(data).hexdigest()]. *)
Variable sha256_hexdigest : list Byte.byte → str.

(** The body of the loop of [generate_artifact]. *)
Definition artifact_of (metadata_paths : list str) (html_title metadata_storage_path : str)
    (c : positioned_chunk) : option artifact :=
  let url := Chunking.url c in
  let text := Chunking.chunk c in
  let pos := position c in
  let name := if bool_decide (url = []) then u "unknown" else Py.split_last [47] url in
  path_bytes ← utf8_encode metadata_storage_path;
  let parent_id := Codec.b64encode path_bytes in
  id_bytes ← utf8_encode (parent_id ++ str_of_nat pos);
  let chunk_id := sha256_hexdigest id_bytes in
  Some {| title := html_title; parent_id := parent_id; location := url;
          chunk := text; category := metadata_paths; name := name;
          chunk_id := chunk_id |}.

Definition generate_artifact (chunks : list positioned_chunk) (metadata_paths : list str)
    (html_title metadata_storage_path : str) : option (list artifact) :=
  mapM (artifact_of metadata_paths html_title metadata_storage_path) chunks.

End GenerateArtifact.

End Utils.

(** [get_metadata_paths] of [src/chunking.py].  The lookup of the
    [meta] element named [category] is BeautifulSoup's: [None] when the
    document has no such element, otherwise its [content] attribute, if it
    has one. *)
Module Metadata.

Definition is_quote (c : char) : bool := (c =? 39) || (c =? 34).

(** The pattern of [get_metadata_paths] at the head of [s]: a quote
    character, single or double; as a group, greedily, the characters that
    are no quote characters; and a quote character again.  The result is
    the length of the match and the text of the group.  The group stops
    before the next quote, which closes the match, whichever of the two
    kinds it is; without one there is no match. *)
Definition quoted (s : str) : option (nat * str) :=
  match s with
  | c :: s' =>
    if is_quote c then
      let body := take_while (fun d => negb (is_quote d)) s' in
      match drop (length body) s' with
      | _ :: _ => Some (S (S (length body)), body)
      | [] => None
      end
    else None
  | [] => None
  end.

(** [re.findall] with the pattern above: the groups of the
    non-overlapping matches, left to right. *)
Fixpoint findall_quoted_from (skip : nat) (s : str) : list str :=
  match s with
  | [] => []
  | _ :: s' =>
    match skip with
    | S k => findall_quoted_from k s'
    | O =>
      match quoted s with
      | Some (S n, group) => group :: findall_quoted_from n s'
      | _ => findall_quoted_from 0 s'
      end
    end
  end.

Definition get_metadata_paths (meta_data_element : option (option str)) : list str :=
  match meta_data_element with
  | Some content => findall_quoted_from 0 (default [] content)
  | None => []
  end.

(** One item of a category list as it is written: the quote character
    that opens it, its text, the quote character that closes it, and the
    text up to the next item. *)
Record written_item := WrittenItem {
  opening : char;
  item_text : str;
  closing : char;
  trailer : str
}.

Definition write_item (it : written_item) : str :=
  [opening it] ++ item_text it ++ [closing it] ++ trailer it.

End Metadata.

(** The merge loop of [h1_heading_based_chunking] without the list: a
    forward scan that carries the sub-piece still to be emitted. *)
Module ForwardScan.

Import Chunking.

Fixpoint h1_forward_scan `{libs : Collaborators} (heading_line heading : str)
    (chunk_size continuation_overhead threshold : Z)
    (i : nat) (pending : str) (rest : list str) : list text_chunk :=
  let sub_chunk := Py.strip pending in
  let emitted :=
    {| text := if bool_decide (i = 0%nat)
               then with_heading_line heading_line sub_chunk
               else with_continuation heading_line sub_chunk;
       Chunking.heading := Some heading |} in
  match rest with
  | [] => [emitted]
  | next :: rest' =>
    if ((count_tokens sub_chunk + count_tokens next + continuation_overhead <=? chunk_size)
        && (count_tokens next <? threshold))%Z
    then h1_forward_scan heading_line heading chunk_size continuation_overhead
           threshold (S i) (sub_chunk ++ NLNL ++ Py.strip next) rest'
    else emitted
         :: h1_forward_scan heading_line heading chunk_size continuation_overhead
              threshold (S i) next rest'
  end.

End ForwardScan.

(** [StorageClient.folder_exists] of [src/storageClient.py] on a
    container given by the names of its blobs.  [list_blobs] with
    [name_starts_with] returns the blobs whose name begins with the given
    path, or raises; [fails] tells for which paths it raises.  The folder
    exists when the listing yields a blob, and a listing that raises is
    answered with [False]. *)
Module StorageClient.

Definition list_blobs (blobs : list str) (fails : str -> bool) (name_starts_with : str)
    : option (list str) :=
  if fails name_starts_with then None
  else Some (List.filter (Py.startswith name_starts_with) blobs).

Definition folder_exists (blobs : list str) (fails : str -> bool) (folder_path : str)
    : bool :=
  match list_blobs blobs fails folder_path with
  | Some (_ :: _) => true
  | Some [] => false
  | None => false
  end.

End StorageClient.

(** [BatchProcessor.generate_new_folder_name] and the choice of the
    destination in [process_batch]. *)
Module Destination.

Section Folders.

(** [self.storage_client.folder_exists(container, path)] for the container
    of the destination. *)
Variable folder_exists : str → bool.

Definition numbered (base_path : str) (counter : nat) : str :=
  base_path ++ u "_" ++ Utils.str_of_nat counter.

(** The [while] loop of [generate_new_folder_name], entered with [counter];
    [fuel] bounds the number of tests. *)
Fixpoint generate_new_folder_name_from (fuel counter : nat) (base_path : str) : option str :=
  match fuel with
  | O => None
  | S fuel' =>
    let new_path := numbered base_path counter in
    if folder_exists new_path
    then generate_new_folder_name_from fuel' (S counter) base_path
    else Some new_path
  end.

Definition generate_new_folder_name (fuel : nat) (base_path : str) : option str :=
  generate_new_folder_name_from fuel 1 base_path.

(** The destination [process_batch] writes to. *)
Definition destination_path (fuel : nat) (path : str) : option str :=
  if folder_exists path then generate_new_folder_name fuel path else Some path.

End Folders.

End Destination.

(** The summary [process_batch] of [src/app.py] builds from the results of
    a batch. *)
Module App.

(** A result dictionary of [process_single_file]: the status, and the
    fields the summary reads. *)
Inductive file_result :=
| Succeeded (chunks : nat)
| Failure (error_type : option string).

Definition is_success (r : file_result) : bool :=
  match r with Succeeded _ => true | Failure _ => false end.

Definition is_failure (r : file_result) : bool :=
  match r with Succeeded _ => false | Failure _ => true end.

(** [type(e).__name__]. *)
Definition exn_name (e : Codec.exn) : string :=
  match e with
  | Codec.UnicodeDecodeError => "UnicodeDecodeError"
  | Codec.BinasciiError => "Error"
  | Codec.ValueError => "ValueError"
  end.

(** The dictionary [process_single_file] returns for an outcome; the
    number of artifacts is the number of filtered chunks. *)
Definition result_of (o : BatchProcessor.outcome) : file_result :=
  match o with
  | BatchProcessor.Success filtered_chunks => Succeeded (length filtered_chunks)
  | BatchProcessor.Failed e _ => Failure (Some (exn_name e))
  end.

(** [failure.get("error_type", "unknown")]. *)
Definition error_type_of (r : file_result) : string :=
  match r with
  | Failure (Some t) => t
  | _ => "unknown"
  end.

(** The loop over [failures] that fills [error_counts]. *)
Fixpoint count_errors (failures : list file_result) (error_counts : gmap string nat)
    : gmap string nat :=
  match failures with
  | [] => error_counts
  | failure :: rest =>
    let error_type := error_type_of failure in
    count_errors rest
      (<[error_type := (default 0 (error_counts !! error_type) + 1)%nat]> error_counts)
  end.

Record summary := Summary {
  status : string;
  files_processed : nat;
  files_failed : nat;
  chunks_generated : nat;
  common_errors : option (gmap string nat)
}.

Definition summarize (results : list file_result) : summary :=
  let successes := List.filter is_success results in
  let failures := List.filter is_failure results in
  {| status :=
       match failures, successes with
       | [], _ => "completed"
       | _ :: _, _ :: _ => "partial_success"
       | _ :: _, [] => "failed"
       end;
     files_processed := length successes;
     files_failed := length failures;
     chunks_generated :=
       foldr (λ r acc, match r with Succeeded n => n | Failure _ => 0 end + acc)%nat
             0%nat successes;
     common_errors :=
       match failures with
       | [] => None
       | _ :: _ => Some (count_errors failures ∅)
       end |}.

End App.

(** [BatchProcessor.process_batch] as far as the results go.
    [file_paths] is what [list_files] returns, and [process_single_file]
    stands for the whole of that method, storage and libraries included:
    it catches every exception and so returns a result dictionary for
    every path.  An empty source gives one failed result without error
    type, preview mode keeps the first five paths, and the results come
    in the order of the paths. *)
Module Batch.

Definition process_batch (process_single_file : str -> App.file_result)
    (preview_mode : bool) (file_paths : list str) : list App.file_result :=
  match file_paths with
  | [] => [App.Failure None]
  | _ :: _ =>
    let file_paths := if preview_mode then take 5 file_paths else file_paths in
    map process_single_file file_paths
  end.

End Batch.

(** Inputs for the runs of the further code. *)
Module FurtherInputs.

Import Chunking.

(** Two sub-pieces of a section, with white space around them. *)
Definition padded_pieces : list str := [u "aaaa "; u " bb"].

(** Two chunks of one document as the quality filter may leave them:
    positions 0 and 2. *)
Definition two_kept_chunks : list positioned_chunk :=
  [ {| url := u "docs/a.html"; chunk := u "first"; position := 0 |};
    {| url := u "docs/a.html"; chunk := u "third"; position := 2 |} ].

(** A stand-in for SHA-256 that shows the bytes it is given. *)
Definition show_bytes (data : list Byte.byte) : str := map Byte.to_N data.

(** Two paragraphs, of 20 and of 18 characters. *)
Definition twenty_a : str := replicate 20 97.
Definition eighteen_b : str := replicate 18 98.

(** A level-1 section of three paragraphs: 20, 18 and 4 characters. *)
Definition section_of_three : document :=
  {| page_content := twenty_a ++ NLNL ++ eighteen_b ++ NLNL ++ u "cccc";
     metadata := {[ "H1"%string := u "T" ]} |}.

(** A level-1 section of two paragraphs, 10 and 5 characters, far apart. *)
Definition section_of_two : document :=
  {| page_content := u "aaaaaaaaaa" ++ NLNL ++ replicate 20 32 ++ NLNL ++ u "bbbbb";
     metadata := {[ "H1"%string := u "T" ]} |}.

(** A text with characters of one, two, three and four bytes in UTF-8:
    h, e with acute accent, the euro sign and an emoji. *)
Definition accented : str := [104; 233; 8364; 128512].

(** A container in which [out], [out_1] and [out_2] are taken. *)
Definition taken_blobs : list str := [u "out/a.json"; u "out_1/a.json"; u "out_2/b.json"].

(** A container whose only blob lies in the folder [out_10]. *)
Definition sibling_blobs : list str := [u "out_10/a.json"].

(** A [content] attribute with three categories, two in double quotes and
    one in single quotes. *)
Definition category_items : list Metadata.written_item :=
  [ Metadata.WrittenItem 34 (u "cat1") 34 (u ", ");
    Metadata.WrittenItem 34 (u "User/Guide") 34 (u ", ");
    Metadata.WrittenItem 39 (u "cat3") 39 (u "]") ].

End FurtherInputs.

(** * Properties *)

Import Chunking BatchProcessor.

(** ** The chunking strategies, for arbitrary collaborators *)
Section StrategyProperties.
Context `{libs : Collaborators}.

Lemma h1_sub_chunk_loop_heading heading_line h cs co th n :
  ∀ i sub_chunks c,
    c ∈ h1_sub_chunk_loop heading_line h cs co th n i sub_chunks →
    heading c = Some h.
Proof.
  induction n as [|n IH]; intros i sub_chunks c; simpl.
  - by intros ?%elem_of_nil.
  - destruct (sub_chunks !! i) as [sub_chunk|]; [|by intros ?%elem_of_nil].
    destruct (if bool_decide (i < length sub_chunks - 1)%nat
              then sub_chunks !! S i else None) as [next|].
    + destruct (_ && _).
      * apply IH.
      * intros [->|Hin]%elem_of_cons; [done|by eapply IH].
    + intros [->|Hin]%elem_of_cons; [done|by eapply IH].
Qed.

(** The merge step, for any tokenizer and splitter: when the test passes
    for the last two sub-pieces, nothing is emitted for the first of them,
    and the chunk emitted at the next index is the two joined by a blank
    line under the continuation prefix, whatever the index of the first. *)
Lemma h1_sub_chunk_loop_merge heading_line h cs co th pre p1 p2 :
  ((count_tokens (Py.strip p1) + count_tokens p2 + co <=? cs)
   && (count_tokens p2 <? th))%Z = true →
  h1_sub_chunk_loop heading_line h cs co th 2 (length pre) (pre ++ [p1; p2])
  = [ {| text := with_continuation heading_line
                   (Py.strip (Py.strip p1 ++ NLNL ++ Py.strip p2));
         heading := Some h |} ].
Proof.
  intros Hmerge. simpl.
  rewrite (list_lookup_middle pre [p2] p1 (length pre) eq_refl).
  rewrite length_app. simpl length.
  rewrite bool_decide_true by lia.
  assert ((pre ++ [p1; p2]) !! S (length pre) = Some p2) as ->.
  { rewrite (lookup_app_r pre) by lia.
    by replace (S (length pre) - length pre)%nat with 1%nat by lia. }
  rewrite Hmerge.
  change (Py.strip p1 ++ 10 :: 10 :: Py.strip p2)
    with (Py.strip p1 ++ NLNL ++ Py.strip p2).
  set (merged := Py.strip p1 ++ NLNL ++ Py.strip p2).
  assert (<[S (length pre) := merged]> (pre ++ [p1; p2]) = pre ++ [p1; merged]) as ->.
  { rewrite insert_app_r_alt by lia.
    by replace (S (length pre) - length pre)%nat with 1%nat by lia. }
  assert ((pre ++ [p1; merged]) !! S (length pre) = Some merged) as ->.
  { rewrite (lookup_app_r pre) by lia.
    by replace (S (length pre) - length pre)%nat with 1%nat by lia. }
  rewrite length_app. simpl length.
  by rewrite (bool_decide_false (S (length pre) < _)%nat) by lia.
Qed.

Lemma h1_section_heading cs ov th doc c :
  c ∈ h1_section cs ov th doc →
  heading c = Some (default [] (match get_truthy "H1" (metadata doc) with
                                | Some h => Some h
                                | None => get_truthy "H2" (metadata doc)
                                end)).
Proof.
  unfold h1_section.
  destruct (get_truthy "H1" (metadata doc)) as [h1|];
    [|destruct (get_truthy "H2" (metadata doc)) as [h2|]]; simpl;
    (destruct (_ <=? _)%Z;
     [ by intros ->%list_elem_of_singleton
     | by intros ?%h1_sub_chunk_loop_heading ]).
Qed.

Lemma fixed_size_chunking_heading markdown_content cs ov c :
  c ∈ fixed_size_chunking markdown_content cs ov → heading c = Some [].
Proof.
  unfold fixed_size_chunking. intros (t & _ & Ht)%list_elem_of_omap.
  destruct (_ || _); [done|]. by inversion Ht.
Qed.

Lemma h2_section_heading cs ov doc c :
  c ∈ h2_section cs ov doc →
  heading c = match get_truthy "H2" (metadata doc) with
              | Some h => Some h
              | None => get_truthy "H1" (metadata doc)
              end.
Proof.
  unfold h2_section. destruct (_ <=? _)%Z.
  - by intros ->%list_elem_of_singleton.
  - intros (i & Hi)%list_elem_of_lookup_1.
    rewrite list_lookup_imap in Hi.
    destruct (_ !! i); simpl in Hi; [|done]. by inversion Hi.
Qed.

(** C3.  When the header splitter finds no meaningful split at level 1
    and none at level 2, [h1_heading_based_chunking] returns exactly the
    chunk list of [fixed_size_chunking] on the same text, size and
    overlap. *)
Theorem h1_without_headings_is_fixed markdown_content chunk_size chunk_overlap threshold :
  has_meaningful_splits "H1" (split_headers [(u "#", "H1"%string)] markdown_content) = false →
  has_meaningful_splits "H2" (split_headers [(u "##", "H2"%string)] markdown_content) = false →
  h1_heading_based_chunking markdown_content chunk_size chunk_overlap threshold
  = fixed_size_chunking markdown_content chunk_size chunk_overlap.
Proof.
  intros H1 H2. unfold h1_heading_based_chunking. by rewrite H1, H2.
Qed.

(** C5.  In [h2_heading_based_chunking] the output is the concatenation,
    in section order, of the chunks of each section.  A section is
    governed by its level-2 heading or, failing that, by its level-1
    heading, and its heading line is then ["## h"] in both cases; a
    section under neither has no heading line.  A section that fits gives
    one chunk: the heading line, a blank line and the body, or the body
    alone.  A section that overflows is split with the budget
    [chunk_size - count_tokens(heading_line) - 50], where the splitter
    accepts that budget and the overlap, and gives exactly one chunk per
    sub-piece, in order, none merged: sub-piece 0 after the bare heading
    line, every later one after the heading line followed by
    [" (continued)"], or, without a heading, sub-piece 0 as it is and
    every later one after ["(continued)"]; all carry the heading of the
    section. *)
Theorem h2_heading_lines_and_overflow markdown_content chunk_size chunk_overlap :
  let documents :=
    split_headers [(u "#", "H1"%string); (u "##", "H2"%string)] markdown_content in
  h2_heading_based_chunking markdown_content chunk_size chunk_overlap
  = flat_map (h2_section chunk_size chunk_overlap) documents
  ∧ ∀ doc,
      doc ∈ documents →
      let section_text := Py.strip (page_content doc) in
      let heading :=
        match get_truthy "H2" (metadata doc) with
        | Some h => Some h
        | None => get_truthy "H1" (metadata doc)
        end in
      let heading_line :=
        match heading with
        | Some h => u "## " ++ h
        | None => []
        end in
      let full_content :=
        match heading with
        | Some h => (u "## " ++ h) ++ NLNL ++ section_text
        | None => section_text
        end in
      ((count_tokens full_content <= chunk_size)%Z →
       h2_section chunk_size chunk_overlap doc
       = [ {| text := full_content; heading := heading |} ])
      ∧ ((chunk_size < count_tokens full_content)%Z →
         let budget := (chunk_size - count_tokens heading_line - 50)%Z in
         (0 < budget)%Z →
         (0 <= chunk_overlap <= budget)%Z →
         let sub_chunks := split_text budget chunk_overlap section_text in
         length (h2_section chunk_size chunk_overlap doc) = length sub_chunks
         ∧ ∀ i sub_chunk,
             sub_chunks !! i = Some sub_chunk →
             h2_section chunk_size chunk_overlap doc !! i
             = Some {| text :=
                         match heading with
                         | Some h =>
                           (u "## " ++ h)
                           ++ (if bool_decide (i = 0%nat) then [] else u " (continued)")
                           ++ NLNL ++ Py.strip sub_chunk
                         | None =>
                           (if bool_decide (i = 0%nat) then []
                            else u "(continued)" ++ NLNL)
                           ++ Py.strip sub_chunk
                         end;
                       heading := heading |}).
Proof.
  intros documents. split; [done|].
  intros doc _ section_text heading heading_line full_content.
  assert (h2_section chunk_size chunk_overlap doc
          = if (count_tokens full_content <=? chunk_size)%Z
            then [ {| text := full_content; heading := heading |} ]
            else imap (λ i sub_chunk,
                         {| text := if bool_decide (i = 0%nat)
                                    then with_heading_line heading_line
                                           (Py.strip sub_chunk)
                                    else with_continuation heading_line
                                           (Py.strip sub_chunk);
                            Chunking.heading := heading |})
                      (split_text (chunk_size - count_tokens heading_line - 50)%Z
                         chunk_overlap section_text)) as ->.
  { unfold h2_section. fold heading. cbv zeta. fold heading_line. fold section_text.
    assert (with_heading_line heading_line section_text = full_content) as ->; [|done].
    unfold heading_line, full_content. by destruct heading. }
  split.
  - intros Hfit. by rewrite (proj2 (Z.leb_le _ _) Hfit).
  - intros Hover budget _ _ sub_chunks. rewrite (proj2 (Z.leb_gt _ _) Hover).
    split; [by rewrite length_imap|].
    intros i sub_chunk Hi. rewrite list_lookup_imap.
    fold budget. fold sub_chunks. rewrite Hi. simpl. do 2 f_equal.
    unfold heading_line. destruct heading as [h|]; simpl.
    + by destruct (bool_decide (i = 0%nat)).
    + by destruct (bool_decide (i = 0%nat)).
Qed.

(** C10.  Chunks without a heading carry different values in the
    ["heading"] field: [fixed_size_chunking] always stores the empty
    string, [h1_heading_based_chunking] always stores a string, the empty
    one for a section with neither an H1 nor an H2 heading, and
    [h2_heading_based_chunking] stores [None] for such a section. *)
Theorem heading_field_of_unheaded_chunks markdown_content chunk_size chunk_overlap threshold :
  (∀ c, c ∈ fixed_size_chunking markdown_content chunk_size chunk_overlap →
        heading c = Some [])
  ∧ (∀ c, c ∈ h1_heading_based_chunking markdown_content chunk_size chunk_overlap threshold →
          is_Some (heading c))
  ∧ (∀ doc c,
       get_truthy "H1" (metadata doc) = None →
       get_truthy "H2" (metadata doc) = None →
       (c ∈ h1_section chunk_size chunk_overlap threshold doc → heading c = Some [])
       ∧ (c ∈ h2_section chunk_size chunk_overlap doc → heading c = None))
  ∧ (∀ c, c ∈ h2_heading_based_chunking markdown_content chunk_size chunk_overlap →
          ∃ doc,
            doc ∈ split_headers [(u "#", "H1"%string); (u "##", "H2"%string)]
                    markdown_content
            ∧ c ∈ h2_section chunk_size chunk_overlap doc).
Proof.
  split; [|split; [|split]].
  - intros c. apply fixed_size_chunking_heading.
  - intros c. unfold h1_heading_based_chunking.
    destruct (has_meaningful_splits "H1" _);
      [|destruct (has_meaningful_splits "H2" _)].
    + intros (doc & _ & Hc)%list_elem_of_In%in_flat_map.
      apply list_elem_of_In, h1_section_heading in Hc. by rewrite Hc.
    + intros (doc & _ & Hc)%list_elem_of_In%in_flat_map.
      apply list_elem_of_In, h1_section_heading in Hc. by rewrite Hc.
    + intros Hc%fixed_size_chunking_heading. by rewrite Hc.
  - intros doc c Hno1 Hno2. split.
    + intros Hc%h1_section_heading. by rewrite Hc, Hno1, Hno2.
    + intros Hc%h2_section_heading. by rewrite Hc, Hno2, Hno1.
  - intros c (doc & Hdoc & Hc)%list_elem_of_In%in_flat_map.
    exists doc. by rewrite !list_elem_of_In.
Qed.

End StrategyProperties.

(** ** Positions through the quality filter *)
Section FilterPositions.

Lemma apply_quality_filters_elem chunks c' :
  c' ∈ apply_quality_filters chunks ↔
  ∃ c, c ∈ chunks
       ∧ c' = {| url := url c; chunk := clean_chunk_text (chunk c);
                 position := position c |}
       ∧ clean_chunk_text (chunk c) ≠ []
       ∧ is_gibberish (clean_chunk_text (chunk c)) = false.
Proof.
  induction chunks as [|c0 chunks IH]; simpl.
  - split; [by intros ?%elem_of_nil|]. by intros (c & ?%elem_of_nil & _).
  - destruct (bool_decide_reflect (clean_chunk_text (chunk c0) = [])) as [He|Hne];
      simpl; [|destruct (is_gibberish (clean_chunk_text (chunk c0))) eqn:Hg; simpl].
    + rewrite IH. split.
      * intros (c & Hc & Hrest). exists c. split; [by right|done].
      * intros (c & [->|Hc]%elem_of_cons & Hrest); [by destruct Hrest as (_ & ? & _)|].
        by exists c.
    + rewrite IH. split.
      * intros (c & Hc & Hrest). exists c. split; [by right|done].
      * intros (c & [->|Hc]%elem_of_cons & Hrest).
        { destruct Hrest as (_ & _ & Hg'). congruence. }
        by exists c.
    + rewrite elem_of_cons, IH. split.
      * intros [->|(c & Hc & Hrest)].
        { exists c0. split; [by left|done]. }
        exists c. split; [by right|done].
      * intros (c & [->|Hc]%elem_of_cons & Hrest).
        { left. by destruct Hrest as (-> & _). }
        right. by exists c.
Qed.

Lemma apply_quality_filters_positions chunks :
  ∀ k : nat,
    (∀ i c, chunks !! i = Some c → position c = (k + i)%nat) →
    (∀ i c, apply_quality_filters chunks !! i = Some c → (k + i <= position c)%nat)
    ∧ (∀ i j c d, (i < j)%nat →
         apply_quality_filters chunks !! i = Some c →
         apply_quality_filters chunks !! j = Some d →
         (position c < position d)%nat).
Proof.
  induction chunks as [|c0 chunks IH]; intros k Hpos; simpl.
  - split; intros; simplify_eq.
  - assert (position c0 = k) as Hk.
    { rewrite (Hpos 0%nat c0 eq_refl). lia. }
    destruct (IH (S k)) as [IHge IHlt].
    { intros i c Hi. rewrite (Hpos (S i) c Hi). lia. }
    destruct (_ && _).
    + split.
      * intros [|i] c Hi; simpl in Hi.
        { inversion Hi; simpl. lia. }
        specialize (IHge i c Hi). lia.
      * intros [|i] [|j] c d Hij Hi Hj; simpl in Hi, Hj; try lia.
        { inversion Hi; simpl. specialize (IHge j d Hj). lia. }
        apply (IHlt i j); [lia|done..].
    + split.
      * intros i c Hi. specialize (IHge i c Hi). lia.
      * apply IHlt.
Qed.

End FilterPositions.

(** ** The pipeline, for arbitrary collaborators *)
Section PipelineProperties.
Context `{libs : Collaborators}.

Lemma build_chunks_list_lookup path chunks i c :
  build_chunks_list path chunks !! i = Some c →
  position c = i ∧ ∃ chunk_data, chunks !! i = Some chunk_data ∧ chunk c = text chunk_data.
Proof.
  unfold build_chunks_list. rewrite list_lookup_imap.
  destruct (chunks !! i) as [chunk_data|]; simpl; [|done].
  intros [= <-]. eauto.
Qed.

(** C9, as amended.  In the list [get_html_chunks] returns, the chunk at
    index [i] has position [i].  The quality filter keeps these position
    values: a chunk of the filtered list is the normalized form of the
    chunk found at its position in the unfiltered list, its position is
    at least its index, and positions increase strictly along the
    filtered list. *)
Theorem positions_through_quality_filter doc chunk_size chunk_overlap
    chunking_strategy extract_main_content chunks :
  get_html_chunks doc chunk_size chunk_overlap chunking_strategy extract_main_content
  = Codec.Ok chunks →
  (∀ i c, chunks !! i = Some c → position c = i)
  ∧ (∀ i c, apply_quality_filters chunks !! i = Some c →
       (i <= position c)%nat
       ∧ ∃ c0, chunks !! position c = Some c0
               ∧ chunk c = clean_chunk_text (chunk c0))
  ∧ (∀ i j c d, (i < j)%nat →
       apply_quality_filters chunks !! i = Some c →
       apply_quality_filters chunks !! j = Some d →
       (position c < position d)%nat).
Proof.
  unfold get_html_chunks. destruct (get_html_content doc) as [html|e]; simpl; [|done].
  intros [= <-].
  set (chunks := build_chunks_list _ _).
  assert (∀ i c, chunks !! i = Some c → position c = i) as Hpos.
  { intros i c Hi. by apply build_chunks_list_lookup in Hi as [? _]. }
  destruct (apply_quality_filters_positions chunks 0) as [Hge Hlt].
  { intros i c Hi. by rewrite (Hpos i c Hi). }
  split; [done|]. split; [|done].
  intros i c Hi. split; [apply (Hge i c Hi)|].
  assert (c ∈ apply_quality_filters chunks) as Hc.
  { apply list_elem_of_lookup. eauto. }
  apply apply_quality_filters_elem in Hc as (c0 & Hc0 & -> & _).
  apply list_elem_of_lookup in Hc0 as [k Hk]. simpl.
  exists c0. by rewrite (Hpos k c0 Hk).
Qed.

(** C8, at the failing input.  A document consisting of the byte 0x81 is
    neither UTF-8 nor defined in windows-1252: [get_html_content] raises
    [UnicodeDecodeError] and [process_single_file] reports the file as
    failed in the chunking stage, while the decoding in stage 2 of
    [process_single_file], which passes [errors="replace"], yields
    U+FFFD. *)
Theorem undefined_windows_1252_byte_raises opts file_path :
  get_html_content {| file_data := Codec.b64encode [Byte.x81];
                      metadata_storage_path := file_path |}
  = Codec.Raise Codec.UnicodeDecodeError
  ∧ process_single_file opts file_path [Byte.x81]
    = Failed Codec.UnicodeDecodeError "chunking"
  ∧ decode_html_bytes [Byte.x81] = [65533].
Proof.
  assert (get_html_content {| file_data := Codec.b64encode [Byte.x81];
                              metadata_storage_path := file_path |}
          = Codec.Raise Codec.UnicodeDecodeError) as Hraise by reflexivity.
  split; [done|]. split; [|reflexivity].
  unfold process_single_file, get_html_chunks. by rewrite Hraise.
Qed.

End PipelineProperties.

(** ** Runs on the reference collaborators *)
Section Runs.

Import Inputs.
Local Existing Instance Sample.collaborators.

Lemma h1_without_headings_is_fixed_witness :
  h1_heading_based_chunking plain_text 750 100 50
  = fixed_size_chunking plain_text 750 100.
Proof.
  apply (h1_without_headings_is_fixed (libs := Sample.collaborators));
    vm_compute; reflexivity.
Defined.

Lemma h2_heading_lines_and_overflow_witness :
  h2_section 60 0 section_A !! 1%nat
  = Some {| text := (u "## " ++ u "A") ++ u " (continued)" ++ NLNL
                    ++ Py.strip (replicate 30 121);
            heading := Some (u "A") |}
  ∧ h2_section 60 0 unheaded_section !! 1%nat
    = Some {| text := (u "(continued)" ++ NLNL) ++ Py.strip (replicate 30 121);
              heading := None |}.
Proof.
  split.
  - refine (proj2 (proj2 (proj2 (h2_heading_lines_and_overflow
              (libs := Sample.collaborators) nested_sections 60 0)
              section_A _) _ _ _) 1%nat (replicate 30 121) _).
    + apply list_elem_of_lookup. exists 1%nat. vm_compute. reflexivity.
    + vm_compute. reflexivity.
    + vm_compute. reflexivity.
    + split; by vm_compute.
    + vm_compute. reflexivity.
  - refine (proj2 (proj2 (proj2 (h2_heading_lines_and_overflow
              (libs := Sample.collaborators) unheaded_text 60 0)
              unheaded_section _) _ _ _) 1%nat (replicate 30 121) _).
    + apply list_elem_of_lookup. exists 0%nat. vm_compute. reflexivity.
    + vm_compute. reflexivity.
    + vm_compute. reflexivity.
    + split; by vm_compute.
    + vm_compute. reflexivity.
Defined.

Lemma heading_field_of_unheaded_chunks_witness :
  heading {| text := u "intro"; heading := None |} = None.
Proof.
  refine (proj2 (proj1 (proj2 (proj2 (heading_field_of_unheaded_chunks
            (libs := Sample.collaborators) nested_sections 40 0 50)))
            preamble _ _ _) _).
  - vm_compute. reflexivity.
  - vm_compute. reflexivity.
  - apply list_elem_of_lookup. exists 0%nat. vm_compute. reflexivity.
Defined.

Lemma positions_through_quality_filter_witness :
  (∀ i c, carets_chunks !! i = Some c → position c = i)
  ∧ (∀ i c, apply_quality_filters carets_chunks !! i = Some c →
       (i <= position c)%nat
       ∧ ∃ c0, carets_chunks !! position c = Some c0
               ∧ chunk c = clean_chunk_text (chunk c0))
  ∧ (∀ i j c d, (i < j)%nat →
       apply_quality_filters carets_chunks !! i = Some c →
       apply_quality_filters carets_chunks !! j = Some d →
       (position c < position d)%nat).
Proof.
  apply (positions_through_quality_filter (libs := Sample.collaborators)
           carets_doc 20 0 CHUNKING_STRATEGY_FIXED false).
  vm_compute. reflexivity.
Defined.

(** C9 as stated fails, whatever the tokenizer and the splitter.  The
    quality filter, given the two chunks of a document at the positions 0
    and 1, of which the first is made of carets, drops the first and
    returns the second with its position 1 at index 0; so the filter does
    not keep positions equal to indices.  And for any libraries, when the
    first chunk [get_html_chunks] returns for a document is one the filter
    drops (a chunk of text outside the basic character set, for one),
    every chunk of the final list has a position greater than its index. *)
Lemma positions_not_sequential :
  apply_quality_filters carets_chunks
  = [ {| url := u "docs/a.html"; chunk := u "Normal text chunk."; position := 1 |} ]
  ∧ ¬ (∀ chunks,
         (∀ i c, chunks !! i = Some c → position c = i) →
         ∀ i c, apply_quality_filters chunks !! i = Some c → position c = i)
  ∧ (∀ (libs : Collaborators) doc chunk_size chunk_overlap chunking_strategy
       extract_main_content first later,
       get_html_chunks doc chunk_size chunk_overlap chunking_strategy extract_main_content
       = Codec.Ok (first :: later) →
       apply_quality_filters [first] = [] →
       ∀ i c, apply_quality_filters (first :: later) !! i = Some c →
              (i < position c)%nat).
Proof.
  assert (apply_quality_filters carets_chunks
          = [ {| url := u "docs/a.html"; chunk := u "Normal text chunk.";
                 position := 1 |} ]) as Hrun.
  { vm_compute. reflexivity. }
  split; [done|]. split.
  - intros Hclaim.
    assert (∀ i c, carets_chunks !! i = Some c → position c = i) as Hseq.
    { intros [|[|i]] c Hi; simpl in Hi; try discriminate; by injection Hi as <-. }
    specialize (Hclaim carets_chunks Hseq 0%nat). rewrite Hrun in Hclaim.
    by specialize (Hclaim _ eq_refl).
  - intros libs doc chunk_size chunk_overlap chunking_strategy extract_main_content
      first later Hchunks Hdrop i c Hi.
    assert (∀ j d, (first :: later) !! j = Some d → position d = j) as Hpos.
    { unfold get_html_chunks in Hchunks.
      destruct (get_html_content doc) as [html|e]; simpl in Hchunks; [|done].
      injection Hchunks as Hchunks. intros j d Hj. rewrite <- Hchunks in Hj.
      by apply build_chunks_list_lookup in Hj as [? _]. }
    assert (apply_quality_filters (first :: later) = apply_quality_filters later) as Heq.
    { simpl in Hdrop |- *. by destruct (_ && _). }
    rewrite Heq in Hi.
    destruct (apply_quality_filters_positions later 1) as [Hge _].
    { intros j d Hj. by rewrite (Hpos (S j) d Hj). }
    specialize (Hge i c Hi). lia.
Qed.

End Runs.

(** ** Lists and the [re] drivers *)
Section Drivers.

Lemma take_drop_while {A} (p : A → bool) (l : list A) :
  take_while p l ++ drop_while p l = l.
Proof. induction l as [|x l IH]; simpl; [done|]. destruct (p x); simpl; congruence. Qed.

Lemma take_while_Forall {A} (p : A → bool) (l : list A) :
  Forall (λ x, p x = true) (take_while p l).
Proof.
  induction l as [|x l IH]; simpl; [constructor|].
  destruct (p x) eqn:Hx; by constructor.
Qed.

Lemma take_while_app {A} (p : A → bool) (l1 l2 : list A) :
  Forall (λ x, p x = true) l1 →
  take_while p (l1 ++ l2) = l1 ++ take_while p l2.
Proof. induction 1 as [|x l1 Hx _ IH]; simpl; [done|]. by rewrite Hx, IH. Qed.

Lemma take_while_length_lt {A} (p : A → bool) (l : list A) :
  (length (take_while p l) < length l)%nat ↔ Exists (λ x, p x = false) l.
Proof.
  induction l as [|x l IH]; simpl.
  - split; [lia|by intros ?%Exists_nil].
  - rewrite Exists_cons. destruct (p x) eqn:Hx; simpl.
    + rewrite <- IH. split; [intros; right; lia|intros [?|?]; [done|lia]].
    + split; [by left|lia].
Qed.

Lemma drop_while_head {A} (p : A → bool) (l : list A) x l' :
  drop_while p l = x :: l' → p x = false.
Proof.
  induction l as [|y l IH]; simpl; [done|].
  destruct (p y) eqn:Hy; [done|]. by intros [= <- _].
Qed.

Lemma startswith_spec p s : Py.startswith p s = true ↔ ∃ b, s = p ++ b.
Proof.
  revert s. induction p as [|a p IH]; intros s; simpl.
  - split; [by exists s|done].
  - destruct s as [|c s].
    + split; [done|]. by intros [b [=]].
    + rewrite andb_true_iff, N.eqb_eq, IH. split.
      * intros [-> [b ->]]. by exists b.
      * intros [b [= -> ->]]. eauto.
Qed.

Lemma search_spec (m : Re.matcher) s :
  Re.search m s = true ↔ ∃ a b, s = a ++ b ∧ is_Some (m b).
Proof.
  induction s as [|c s IH]; simpl.
  - destruct (m []) eqn:Hm.
    + split; [|done]. intros _. exists [], []. by rewrite Hm.
    + split; [done|]. intros (a & b & Hab & Hb).
      symmetry in Hab. apply app_eq_nil in Hab as [_ ->].
      rewrite Hm in Hb. by destruct Hb.
  - destruct (m (c :: s)) eqn:Hm.
    + split; [|done]. intros _. exists [], (c :: s). by rewrite Hm.
    + rewrite IH. split.
      * intros (a & b & -> & Hb). by exists (c :: a), b.
      * intros ([|c' a] & b & Hab & Hb); simpl in Hab.
        { subst b. rewrite Hm in Hb. by destruct Hb. }
        injection Hab as -> ->. eauto.
Qed.

Lemma search_alt (m1 m2 : Re.matcher) s :
  Re.search (Re.alt m1 m2) s = Re.search m1 s || Re.search m2 s.
Proof.
  induction s as [|c s IH]; simpl; unfold Re.alt in *.
  - destruct (m1 []), (m2 []); done.
  - destruct (m1 (c :: s)); [done|]. destruct (m2 (c :: s)); simpl.
    + by rewrite orb_true_r.
    + apply IH.
Qed.

Lemma search_lit l s :
  Re.search (Re.lit l) s = true ↔ ∃ a b, s = a ++ l ++ b.
Proof.
  rewrite search_spec. unfold Re.lit. split.
  - intros (a & b & -> & Hb). exists a.
    destruct (Py.startswith l b) eqn:Hl; [|by destruct Hb].
    apply startswith_spec in Hl as [b' ->]. eauto.
  - intros (a & b & ->). exists a, (l ++ b). split; [done|].
    by rewrite (proj2 (startswith_spec l (l ++ b)) (ex_intro _ b eq_refl)).
Qed.

Lemma sub_class_remove p s :
  Re.sub (Re.class p) (λ _, []) s = filter (λ c, p c = false) s.
Proof.
  unfold Re.sub. induction s as [|c s IH]; [done|].
  simpl. destruct (p c) eqn:Hc.
  - rewrite filter_cons_False by congruence. by rewrite <- IH.
  - rewrite filter_cons_True by done. by rewrite <- IH.
Qed.

Lemma findall_class_length p s :
  length (Re.findall (Re.class p) s) = length (filter (λ c, p c = true) s).
Proof.
  unfold Re.findall. induction s as [|c s IH]; [done|].
  simpl. destruct (p c) eqn:Hc.
  - rewrite filter_cons_True by done. simpl. by rewrite <- IH.
  - rewrite filter_cons_False by congruence. by rewrite <- IH.
Qed.

Lemma take_while_eqb_ge c k s :
  (k <= length (take_while (N.eqb c) s))%nat ↔ ∃ b, s = replicate k c ++ b.
Proof.
  revert s. induction k as [|k IH]; intros s; simpl.
  - split; [by exists s|lia].
  - destruct s as [|d s]; simpl.
    + split; [lia|]. by intros [b [=]].
    + destruct (N.eqb_spec c d) as [->|Hne]; simpl.
      * rewrite <- Nat.succ_le_mono, IH. split.
        -- intros [b ->]. by exists b.
        -- intros [b [= ->]]. by exists b.
      * split; [lia|]. intros [b [= ? _]]. done.
Qed.

Lemma repeated_spec p k b :
  is_Some (Re.repeated p k b) ↔
  ∃ c b', p c = true ∧ b = replicate (S k) c ++ b'.
Proof.
  unfold Re.repeated. destruct b as [|c s].
  - split; [by intros []|]. by intros (c & b' & _ & [=]).
  - destruct (p c) eqn:Hc; simpl.
    + destruct (Nat.leb_spec k (length (take_while (N.eqb c) s))) as [Hk|Hk].
      * split; [|done]. intros _.
        apply take_while_eqb_ge in Hk as [b' ->]. by exists c, b'.
      * split; [by intros []|]. intros (c' & b' & _ & [= <- Hs]).
        assert (k <= length (take_while (N.eqb c) s))%nat; [|lia].
        apply take_while_eqb_ge. eauto.
    + split; [by intros []|]. intros (c' & b' & Hc' & [= <- _]). congruence.
Qed.

End Drivers.

(** ** The quality filter *)
Section QualityFilter.

Import Inputs.

Lemma pipes_spec b :
  is_Some (pipes b) ↔ ∃ m b', b = [PIPE] ++ m ++ [PIPE] ++ b' ∧ LF ∉ m.
Proof.
  unfold pipes. destruct b as [|c rest].
  - split; [by intros []|]. by intros (m & b' & [=] & _).
  - set (f := λ d : N, negb (d =? LF)). set (g := λ d : N, negb (d =? PIPE)).
    set (line := take_while f rest).
    destruct (N.eqb_spec c PIPE) as [->|Hc]; simpl.
    + destruct (Nat.ltb_spec (length (take_while g (reverse line))) (length line))
        as [Hlt|Hge].
      * split; [|done]. intros _.
        rewrite <- (length_reverse line) in Hlt.
        apply take_while_length_lt, Exists_exists in Hlt as (x & Hx & Hgx).
        unfold g in Hgx. apply negb_false_iff, N.eqb_eq in Hgx as ->.
        rewrite elem_of_reverse in Hx.
        apply list_elem_of_split in Hx as (m & l2 & Hline).
        exists m, (l2 ++ drop_while f rest). split.
        -- simpl. f_equal. rewrite <- (take_drop_while f rest) at 1.
           fold line. rewrite Hline. by rewrite <- app_assoc.
        -- intros Hin. pose proof (take_while_Forall f rest) as Hall.
           fold line in Hall. rewrite Hline in Hall.
           apply Forall_app in Hall as [Hall _].
           rewrite Forall_forall in Hall. specialize (Hall _ Hin).
           unfold f in Hall. by rewrite N.eqb_refl in Hall.
      * split; [by intros []|]. intros (m & b' & [= ->] & Hm).
        assert (length (take_while g (reverse line)) < length (reverse line))%nat
          as Hlt; [|rewrite length_reverse in Hlt; lia].
        apply take_while_length_lt, Exists_exists. exists PIPE. split; [|done].
        apply elem_of_reverse. unfold line.
        rewrite take_while_app.
        -- apply elem_of_app. right. simpl. left.
        -- apply Forall_forall. intros x Hx. unfold f.
           apply negb_true_iff, N.eqb_neq. by intros ->.
    + split; [by intros []|]. by intros (m & b' & [= -> _] & _).
Qed.

Lemma has_marker_search t :
  Re.search (Re.alt (Re.lit (u "```")) (Re.alt (Re.lit (u "~~~")) pipes)) t = true
  ↔ Spec.has_marker t.
Proof.
  rewrite !search_alt, !orb_true_iff, !search_lit, search_spec.
  unfold Spec.has_marker. do 2 apply or_iff_compat_l. split.
  - intros (a & b & -> & (m & b' & -> & Hm)%pipes_spec). by exists a, m, b'.
  - intros (a & m & b' & -> & Hm). exists a, ([PIPE] ++ m ++ [PIPE] ++ b').
    split; [done|]. apply pipes_spec. eauto.
Qed.

Lemma has_repeated_alnum_search t :
  Re.search (Re.repeated is_alnum 5) t = true ↔ Spec.has_repeated_alnum t.
Proof.
  rewrite search_spec. unfold Spec.has_repeated_alnum. split.
  - intros (a & b & -> & (c & b' & Hc & ->)%repeated_spec). by exists a, c, b'.
  - intros (a & c & b & Hc & ->). exists a, (replicate 6 c ++ b).
    split; [done|]. apply repeated_spec. by exists c, b.
Qed.

(** [is_gibberish] against the words of the specification. *)
Lemma is_gibberish_spec t :
  is_gibberish t = true ↔
  ¬ Spec.has_marker t
  ∧ (Spec.has_repeated_alnum (Spec.without_decoration t)
     ∨ Spec.mostly_non_basic (Spec.without_decoration t)).
Proof.
  unfold is_gibberish. rewrite sub_class_remove.
  fold (Spec.without_decoration t).
  destruct (Re.search (Re.alt _ _) t) eqn:Hm.
  - apply has_marker_search in Hm. split; [done|]. by intros [? _].
  - assert (¬ Spec.has_marker t) as Hno.
    { intros Hmark%has_marker_search. congruence. }
    destruct (Re.search (Re.repeated is_alnum 5) _) eqn:Hr.
    + apply has_repeated_alnum_search in Hr. split; [|done]. intros _. eauto.
    + assert (¬ Spec.has_repeated_alnum (Spec.without_decoration t)) as Hnr.
      { intros Hrep%has_repeated_alnum_search. congruence. }
      rewrite findall_class_length.
      rewrite (list_filter_iff (λ c, negb (is_basic c) = true) (λ c, is_basic c = false))
        by (intros c; apply negb_true_iff).
      unfold Spec.mostly_non_basic.
      rewrite andb_true_iff, Nat.ltb_lt, Nat.ltb_lt. split.
      * intros [_ Hlt]. split; [done|]. by right.
      * intros [_ [Hrep|Hlt]]; [done|]. split; [|done].
        pose proof (length_filter (λ c, is_basic c = false)
                      (Spec.without_decoration t)). lia.
Qed.

(** C4 as stated fails: the filter does not drop
    ["aaaaaa111111!!!@@@$$$"]. *)
Lemma repeated_characters_scenario_is_kept :
  apply_quality_filters [positioned (u "aaaaaa111111!!!@@@$$$")] ≠ [].
Proof. vm_compute. discriminate. Qed.

(** C4, as amended.  The filter keeps ["aaaaaa111111!!!@@@$$$"], with the
    text normalized to ["a1!!!@@@$$$"]: the classifier would reject the raw
    text for its runs of six, but it runs on the normalized text, in which
    the runs are collapsed and every character is in the allowlist.  The
    filter keeps the fenced chunk unchanged.  In general a chunk is kept,
    with its normalized text, exactly when that text is not empty and not
    classified as gibberish, and a text is classified as gibberish exactly
    when it has no code fence marker and no two pipes on one line and,
    once the decoration characters are removed, (a) an alphanumeric
    character occurs six or more times in a row or (b) more than 10% of
    the characters are outside the allowlist. *)
Theorem quality_filter_scenarios_and_classifier :
  (is_gibberish (u "aaaaaa111111!!!@@@$$$") = true
   ∧ clean_chunk_text (u "aaaaaa111111!!!@@@$$$") = u "a1!!!@@@$$$"
   ∧ is_gibberish (u "a1!!!@@@$$$") = false
   ∧ apply_quality_filters [positioned (u "aaaaaa111111!!!@@@$$$")]
     = [positioned (u "a1!!!@@@$$$")])
  ∧ apply_quality_filters [positioned (u "```aaaaaa111111```")]
    = [positioned (u "```aaaaaa111111```")]
  ∧ (∀ chunks c',
       c' ∈ apply_quality_filters chunks ↔
       ∃ c, c ∈ chunks
            ∧ c' = {| url := url c; chunk := clean_chunk_text (chunk c);
                      position := position c |}
            ∧ clean_chunk_text (chunk c) ≠ []
            ∧ is_gibberish (clean_chunk_text (chunk c)) = false)
  ∧ (∀ t,
       is_gibberish t = true ↔
       ¬ Spec.has_marker t
       ∧ (Spec.has_repeated_alnum (Spec.without_decoration t)
          ∨ Spec.mostly_non_basic (Spec.without_decoration t))).
Proof.
  split; [repeat split; vm_compute; reflexivity|].
  split; [vm_compute; reflexivity|].
  split; [apply apply_quality_filters_elem|apply is_gibberish_spec].
Qed.

End QualityFilter.

(** ** [str.strip] on lists and on lines *)
Section Strip.

Lemma drop_while_app {A} (p : A → bool) (l1 l2 : list A) :
  drop_while p (l1 ++ l2)
  = if forallb p l1 then drop_while p l2 else drop_while p l1 ++ l2.
Proof.
  induction l1 as [|x l1 IH]; simpl; [done|].
  destruct (p x); simpl; [apply IH|done].
Qed.

Lemma drop_while_all {A} (p : A → bool) (l : list A) :
  forallb p l = true ↔ drop_while p l = [].
Proof.
  induction l as [|x l IH]; simpl; [done|].
  destruct (p x); simpl; [apply IH|done].
Qed.

Lemma drop_while_idemp {A} (p : A → bool) (l : list A) :
  drop_while p (drop_while p l) = drop_while p l.
Proof.
  induction l as [|x l IH]; simpl; [done|].
  destruct (p x) eqn:Hx; [done|]. simpl. by rewrite Hx.
Qed.

Lemma drop_while_suffix {A} (p : A → bool) (l : list A) :
  ∃ k, l = k ++ drop_while p l.
Proof.
  exists (take_while p l). by rewrite take_drop_while.
Qed.

Lemma forallb_reverse {A} (p : A → bool) (l : list A) :
  forallb p (reverse l) = forallb p l.
Proof.
  induction l as [|x l IH]; [done|].
  rewrite reverse_cons, forallb_app, IH. simpl. by rewrite andb_true_r, andb_comm.
Qed.

Lemma rstrip_cons c s :
  Py.rstrip (c :: s)
  = match Py.rstrip s with
    | [] => if Py.isspace c then [] else [c]
    | r :: rs => c :: r :: rs
    end.
Proof.
  unfold Py.rstrip. rewrite reverse_cons, drop_while_app.
  destruct (forallb Py.isspace (reverse s)) eqn:Hall.
  - rewrite (proj1 (drop_while_all _ _) Hall). simpl.
    by destruct (Py.isspace c).
  - destruct (drop_while Py.isspace (reverse s)) as [|x l] eqn:Hd.
    { apply drop_while_all in Hd. congruence. }
    rewrite reverse_app, reverse_singleton. simpl.
    destruct (reverse (x :: l)) eqn:Hr; [|done].
    apply (f_equal reverse) in Hr. rewrite reverse_involutive in Hr. done.
Qed.

Lemma rstrip_nil_iff s : Py.rstrip s = [] ↔ forallb Py.isspace s = true.
Proof.
  unfold Py.rstrip. rewrite <- (forallb_reverse _ s), drop_while_all. split.
  - intros Hr. apply (f_equal reverse) in Hr. by rewrite reverse_involutive in Hr.
  - by intros ->.
Qed.

Lemma lstrip_nil_iff s : Py.lstrip s = [] ↔ forallb Py.isspace s = true.
Proof. unfold Py.lstrip. by rewrite drop_while_all. Qed.

Lemma rstrip_app a b :
  Py.rstrip (a ++ b)
  = match Py.rstrip b with
    | [] => Py.rstrip a
    | r :: rs => a ++ r :: rs
    end.
Proof.
  induction a as [|c a IH]; simpl.
  - by destruct (Py.rstrip b).
  - rewrite !rstrip_cons, IH. destruct (Py.rstrip b) as [|r rs]; [done|].
    by destruct a.
Qed.

Lemma rstrip_prefix s : ∃ k, s = Py.rstrip s ++ k ∧ forallb Py.isspace k = true.
Proof.
  induction s as [|c s (k & Hk & Hws)]; [by exists []|].
  rewrite rstrip_cons. destruct (Py.rstrip s) as [|r rs] eqn:Hr.
  - simpl in Hk. subst k. destruct (Py.isspace c) eqn:Hc.
    + exists (c :: s). simpl. by rewrite Hc, Hws.
    + by exists s.
  - exists k. split; [|done]. simpl. f_equal. exact Hk.
Qed.

Lemma rstrip_last s c : last (Py.rstrip s) = Some c → Py.isspace c = false.
Proof.
  revert c. induction s as [|d s IH]; intros c; [done|].
  rewrite rstrip_cons. destruct (Py.rstrip s) as [|r rs].
  - destruct (Py.isspace d) eqn:Hd; [done|]. by intros [= <-].
  - intros Hl. apply IH. by rewrite <- Hl.
Qed.

Lemma rstrip_id s :
  (∀ c, last s = Some c → Py.isspace c = false) → Py.rstrip s = s.
Proof.
  induction s as [|d s IH]; [done|]. intros Hlast.
  rewrite rstrip_cons. destruct s as [|e s].
  - simpl. by rewrite (Hlast d eq_refl).
  - rewrite IH; [done|]. intros c Hc. apply Hlast. by rewrite <- Hc.
Qed.

Lemma rstrip_idemp s : Py.rstrip (Py.rstrip s) = Py.rstrip s.
Proof. apply rstrip_id, rstrip_last. Qed.

Lemma lstrip_idemp s : Py.lstrip (Py.lstrip s) = Py.lstrip s.
Proof. apply drop_while_idemp. Qed.

Lemma lstrip_rstrip s : Py.lstrip (Py.rstrip s) = Py.rstrip (Py.lstrip s).
Proof.
  induction s as [|c s IH]; [done|].
  rewrite rstrip_cons. destruct (Py.isspace c) eqn:Hc.
  - unfold Py.lstrip at 2. simpl. rewrite Hc. fold (Py.lstrip s).
    rewrite <- IH. destruct (Py.rstrip s) as [|r rs]; [done|].
    unfold Py.lstrip. simpl. by rewrite Hc.
  - unfold Py.lstrip at 2. simpl. rewrite Hc. rewrite rstrip_cons.
    destruct (Py.rstrip s) as [|r rs]; unfold Py.lstrip; simpl; by rewrite Hc.
Qed.

Lemma strip_idemp s : Py.strip (Py.strip s) = Py.strip s.
Proof.
  unfold Py.strip. rewrite (lstrip_rstrip (Py.lstrip _)), lstrip_idemp.
  by rewrite <- lstrip_rstrip, rstrip_idemp.
Qed.

End Strip.

(** ** A text and its lines *)
Section Lines.

Import Normalized.

Lemma join_cons2 sep p q ps :
  Py.join sep (p :: q :: ps) = p ++ sep ++ Py.join sep (q :: ps).
Proof. done. Qed.

Lemma join_singleton sep p : Py.join sep [p] = p.
Proof. done. Qed.

Local Arguments Py.join : simpl never.

Lemma lstrip_join lines :
  Py.lstrip (Py.join [LF] lines) = Py.join [LF] (lstrip_lines lines).
Proof.
  induction lines as [|l ls IH]; [done|].
  destruct ls as [|l2 ls].
  - simpl. rewrite join_singleton. destruct (forallb Py.isspace l) eqn:Hl; [|done].
    by apply lstrip_nil_iff.
  - rewrite join_cons2. unfold Py.lstrip at 1. rewrite drop_while_app.
    simpl lstrip_lines. destruct (forallb Py.isspace l) eqn:Hl.
    + simpl app. simpl drop_while. apply IH.
    + by rewrite join_cons2.
Qed.

Lemma rstrip_lines_shape lines :
  rstrip_lines lines = []
  ∨ ∃ init l,
      rstrip_lines lines = init ++ [Py.rstrip l]
      ∧ l ∈ lines ∧ (∀ z, z ∈ init → z ∈ lines) ∧ Py.rstrip l ≠ [].
Proof.
  induction lines as [|l ls IH]; [by left|]. simpl.
  destruct (rstrip_lines ls) as [|r rs] eqn:Hr.
  - destruct (forallb Py.isspace l) eqn:Hl; [by left|]. right.
    exists [], l. split; [done|]. split; [left|].
    split; [by intros z ?%elem_of_nil|].
    intros Hnil%rstrip_nil_iff. congruence.
  - right. destruct IH as [|(init & l0 & Heq & Hl0 & Hinit & Hne)]; [done|].
    exists (l :: init), l0. rewrite Heq. split; [done|].
    split; [by right|]. split; [|done].
    intros z [->|Hz]%elem_of_cons; [left|right; auto].
Qed.

Lemma join_last_nonempty lines l :
  last lines = Some l → l ≠ [] → Py.join [LF] lines ≠ [].
Proof.
  destruct lines as [|l1 [|l2 ls]]; [done| |].
  - rewrite join_singleton. simpl. by intros [= ->].
  - intros _ _. rewrite join_cons2. by destruct l1.
Qed.

Lemma rstrip_join lines :
  Py.rstrip (Py.join [LF] lines) = Py.join [LF] (rstrip_lines lines).
Proof.
  induction lines as [|l ls IH]; [done|].
  assert (forallb Py.isspace l = true → Py.rstrip l = []) as Hws
    by apply rstrip_nil_iff.
  destruct ls as [|l2 ls].
  - simpl. rewrite join_singleton. destruct (forallb Py.isspace l); [auto|done].
  - rewrite join_cons2. simpl app. rewrite rstrip_app, rstrip_cons, IH.
    change (rstrip_lines (l :: l2 :: ls))
      with (match rstrip_lines (l2 :: ls) with
            | [] => if forallb Py.isspace l then [] else [Py.rstrip l]
            | r :: rs => l :: r :: rs
            end).
    destruct (rstrip_lines_shape (l2 :: ls))
      as [->|(init & l0 & -> & _ & _ & Hne)].
    + simpl. destruct (forallb Py.isspace l); [auto|done].
    + assert (Py.join [LF] (init ++ [Py.rstrip l0]) ≠ []) as Hj.
      { apply (join_last_nonempty _ (Py.rstrip l0)); [|done]. by rewrite last_snoc. }
      destruct (Py.join [LF] (init ++ [Py.rstrip l0])) as [|c j] eqn:Hjoin; [done|].
      destruct (init ++ [Py.rstrip l0]) as [|r rs] eqn:Hinit.
      { by destruct init. }
      rewrite join_cons2. simpl app. by rewrite Hjoin.
Qed.

(** The lines of a stripped text. *)
Lemma strip_join_shape lines :
  ∃ stripped,
    Py.strip (Py.join [LF] lines) = Py.join [LF] stripped
    ∧ (stripped = []
       ∨ (∃ l, l ∈ lines ∧ stripped = [Py.strip l] ∧ Py.strip l ≠ [])
       ∨ (∃ first mid l,
            first ∈ lines ∧ l ∈ lines ∧ (∀ z, z ∈ mid → z ∈ lines)
            ∧ stripped = Py.lstrip first :: mid ++ [Py.rstrip l]
            ∧ Py.rstrip l ≠ [])).
Proof.
  exists (lstrip_lines (rstrip_lines lines)).
  split; [unfold Py.strip; by rewrite rstrip_join, lstrip_join|].
  destruct (rstrip_lines_shape lines) as [->|(init & l & -> & Hl & Hinit & Hne)];
    [by left|].
  assert (forallb Py.isspace (Py.rstrip l) = false) as Hns.
  { apply not_true_is_false. intros Hws%rstrip_nil_iff.
    by rewrite rstrip_idemp in Hws. }
  induction init as [|y init IH]; simpl.
  - rewrite Hns. right. left. exists l. split; [done|]. split; [done|].
    unfold Py.strip. intros Hnil%lstrip_nil_iff. congruence.
  - destruct (forallb Py.isspace y).
    + apply IH. intros z Hz. apply Hinit. by right.
    + right. right. exists y, init, l. split; [apply Hinit; left|].
      split; [done|]. split; [intros z Hz; apply Hinit; by right|].
      split; [done|]. exact Hne.
Qed.

Lemma splitlines_nil_iff s : Py.splitlines s = [] ↔ s = [].
Proof.
  destruct s as [|c s]; [done|]. simpl.
  destruct (Py.is_linebreak c); [done|]. by destruct (Py.splitlines s).
Qed.

Lemma splitlines_line l rest :
  break_free l →
  Py.splitlines (l ++ LF :: rest) = l :: Py.splitlines rest.
Proof.
  induction 1 as [|c l Hc _ IH]; simpl.
  - by destruct rest.
  - by rewrite Hc, IH.
Qed.

Lemma splitlines_single l : break_free l → l ≠ [] → Py.splitlines l = [l].
Proof.
  induction 1 as [|c l Hc Hl IH]; [done|]. intros _. simpl. rewrite Hc.
  destruct l as [|d l]; [done|]. by rewrite IH.
Qed.

Lemma splitlines_join lines :
  Forall break_free lines →
  (∀ l, last lines = Some l → l ≠ []) →
  Py.splitlines (Py.join [LF] lines) = lines.
Proof.
  induction 1 as [|l ls Hl Hls IH]; [done|]. intros Hlast.
  destruct ls as [|l2 ls].
  - rewrite join_singleton. apply splitlines_single; [done|]. by apply Hlast.
  - rewrite join_cons2. simpl app. rewrite splitlines_line by done.
    f_equal. apply IH. intros l' Hl'. apply Hlast. by rewrite <- Hl'.
Qed.

Lemma splitlines_break_free s : Forall break_free (Py.splitlines s).
Proof.
  induction s as [s IH] using (induction_ltof1 _ (@length N)).
  unfold ltof in IH. destruct s as [|c s]; [constructor|]. simpl.
  destruct (Py.is_linebreak c) eqn:Hc.
  - constructor; [constructor|]. destruct s as [|d s]; [constructor|].
    destruct (_ && _); apply IH; simpl; lia.
  - pose proof (IH s ltac:(simpl; lia)) as Hs.
    destruct (Py.splitlines s) as [|l ls]; [by repeat constructor|].
    inversion Hs; subst. constructor; [by constructor|done].
Qed.

Lemma splitlines_chars (P : N → Prop) s :
  Forall P s → Forall (Forall P) (Py.splitlines s).
Proof.
  induction s as [s IH] using (induction_ltof1 _ (@length N)).
  unfold ltof in IH. destruct s as [|c s]; [constructor|]. simpl.
  intros [Hc Hs]%Forall_cons. destruct (Py.is_linebreak c).
  - constructor; [constructor|]. destruct s as [|d s]; [constructor|].
    destruct (_ && _); apply IH; simpl; try lia; [|done].
    by apply Forall_cons in Hs as [_ ?].
  - pose proof (IH s ltac:(simpl; lia) Hs) as Hl.
    destruct (Py.splitlines s) as [|l ls]; [by repeat constructor|].
    inversion Hl; subst. constructor; [by constructor|done].
Qed.

End Lines.

(** ** [re.sub] with the patterns of [normalize_line] *)
Section Substitutions.

Import Normalized.

Local Arguments N.eqb : simpl never.
Local Arguments N.leb : simpl never.

Lemma sub_from_drop m repl k s :
  Re.sub_from m repl k s = Re.sub_from m repl 0 (drop k s).
Proof.
  revert k. induction s as [|c s IH]; intros [|k]; simpl; done.
Qed.

Lemma sub_cons m repl c s :
  Re.sub m repl (c :: s)
  = match m (c :: s) with
    | Some (S n) => repl (take (S n) (c :: s)) ++ Re.sub m repl (drop n s)
    | _ => c :: Re.sub m repl s
    end.
Proof.
  unfold Re.sub. simpl. destruct (m (c :: s)) as [[|n]|]; try done.
  by rewrite sub_from_drop.
Qed.

Lemma sub_no_match m repl s :
  (∀ a b, s = a ++ b → m b = None) → Re.sub m repl s = s.
Proof.
  induction s as [|c s IH]; intros Hno; [done|].
  rewrite sub_cons, (Hno [] (c :: s) eq_refl). f_equal. apply IH.
  intros a b ->. by apply (Hno (c :: a) b).
Qed.

Lemma sub_from_Forall (P : N → Prop) m repl k s :
  (∀ x, Forall P x → Forall P (repl x)) →
  Forall P s → Forall P (Re.sub_from m repl k s).
Proof.
  intros Hrepl. revert k. induction s as [|c s IH]; intros k Hs; [constructor|].
  pose proof Hs as [Hc Hs']%Forall_cons. simpl. destruct k as [|k]; [|by apply IH].
  destruct (m (c :: s)) as [[|n]|].
  - constructor; [done|by apply IH].
  - apply Forall_app. split; [|by apply IH].
    apply Hrepl. constructor; [done|by apply Forall_take].
  - constructor; [done|by apply IH].
Qed.

Lemma drop_take_while {A} (p : A → bool) (l : list A) :
  drop (length (take_while p l)) l = drop_while p l.
Proof.
  induction l as [|x l IH]; simpl; [done|]. destruct (p x); simpl; [apply IH|done].
Qed.

Lemma drop_while_length {A} (p : A → bool) (l : list A) :
  (length (drop_while p l) <= length l)%nat.
Proof.
  induction l as [|x l IH]; simpl; [done|]. destruct (p x); simpl; lia.
Qed.

Lemma sub_tabs_cons c s :
  sub_tabs (c :: s)
  = if is_tab_or_cr c then SPACE :: sub_tabs (drop_while is_tab_or_cr s)
    else c :: sub_tabs s.
Proof.
  unfold sub_tabs. rewrite sub_cons. unfold Re.run. simpl.
  destruct (is_tab_or_cr c); simpl; [|done].
  by rewrite drop_take_while.
Qed.

Lemma sub_tabs_clean s : Forall (λ c, is_tab_or_cr c = false) (sub_tabs s).
Proof.
  induction s as [s IH] using (induction_ltof1 _ (@length N)).
  unfold ltof in IH. destruct s as [|c s]; [constructor|].
  rewrite sub_tabs_cons. destruct (is_tab_or_cr c) eqn:Hc.
  - constructor; [done|]. apply IH. simpl.
    pose proof (drop_while_length is_tab_or_cr s). lia.
  - constructor; [done|]. apply IH. simpl. lia.
Qed.

Lemma sub_spaces_cons c s :
  sub_spaces (c :: s)
  = if (SPACE =? c) && match s with d :: _ => SPACE =? d | [] => false end
    then SPACE :: sub_spaces (drop_while (N.eqb SPACE) s)
    else c :: sub_spaces s.
Proof.
  unfold sub_spaces. rewrite sub_cons. unfold Re.run. simpl take_while.
  destruct (SPACE =? c); simpl; [|done].
  destruct s as [|d s]; simpl; [done|].
  destruct (SPACE =? d) eqn:Hd; simpl; [|done].
  by rewrite drop_take_while.
Qed.

Lemma sub_spaces_head s : head (sub_spaces s) = head s.
Proof.
  destruct s as [|c s]; [done|]. rewrite sub_spaces_cons.
  destruct (SPACE =? c) eqn:Hc; simpl; [|done].
  apply N.eqb_eq in Hc as <-. by destruct (match s with [] => _ | _ => _ end).
Qed.

Lemma no_double_space_cons c s :
  no_double_space (c :: s)
  = negb ((c =? SPACE) && match head s with Some d => d =? SPACE | None => false end)
    && no_double_space s.
Proof. destruct s as [|d s]; simpl; [by rewrite andb_false_r|done]. Qed.

Lemma sub_spaces_no_double_space s : no_double_space (sub_spaces s) = true.
Proof.
  induction s as [s IH] using (induction_ltof1 _ (@length N)).
  unfold ltof in IH. destruct s as [|c s]; [done|].
  rewrite sub_spaces_cons.
  destruct ((SPACE =? c) && _) eqn:Hm.
  - rewrite no_double_space_cons, sub_spaces_head.
    rewrite IH by (simpl; pose proof (drop_while_length (N.eqb SPACE) s); lia).
    rewrite andb_true_r. destruct (drop_while (N.eqb SPACE) s) as [|d t] eqn:Hd; [done|].
    apply drop_while_head in Hd. simpl. rewrite N.eqb_sym, Hd. done.
  - rewrite no_double_space_cons, sub_spaces_head, IH by (simpl; lia).
    rewrite andb_true_r. apply negb_true_iff.
    rewrite (N.eqb_sym c). destruct (SPACE =? c); [|done]. simpl in *.
    destruct s as [|d s]; [done|]. simpl. by rewrite N.eqb_sym.
Qed.

Lemma no_double_space_no_match s :
  no_double_space s = true →
  ∀ a b, s = a ++ b → Re.run (N.eqb SPACE) 2 b = None.
Proof.
  intros Hs a b ->. induction a as [|c a IH].
  - unfold Re.run. destruct b as [|c [|d b]]; simpl in *.
    + done.
    + by destruct (SPACE =? c).
    + destruct (N.eqb_spec SPACE c) as [<-|]; [|done].
      destruct (N.eqb_spec SPACE d) as [<-|]; [|done]. done.
  - apply IH. rewrite <- app_comm_cons, no_double_space_cons in Hs.
    by apply andb_true_iff in Hs as [_ ?].
Qed.

End Substitutions.

(** ** Collapsing repeated characters *)
Section Repeats.

Import Normalized.

Local Arguments N.eqb : simpl never.
Local Arguments Nat.leb : simpl never.

Lemma take_while_head_false {A} (p : A → bool) (l : list A) :
  match head l with
  | Some x => p x = false
  | None => True
  end →
  take_while p l = [].
Proof. destruct l as [|x l]; simpl; [done|]. by intros ->. Qed.

Lemma drop_while_head_false {A} (p : A → bool) (l : list A) :
  match head (drop_while p l) with
  | Some x => p x = false
  | None => True
  end.
Proof.
  destruct (drop_while p l) as [|x l'] eqn:Hd; simpl; [done|].
  by apply drop_while_head in Hd.
Qed.

Lemma sub_repeats_cons c s :
  sub_repeats (c :: s)
  = if not_markup c && (5 <=? length (take_while (N.eqb c) s))%nat
    then c :: sub_repeats (drop_while (N.eqb c) s)
    else c :: sub_repeats s.
Proof.
  unfold sub_repeats. rewrite sub_cons. unfold Re.repeated.
  destruct (not_markup c && _); [|done].
  simpl. by rewrite drop_take_while.
Qed.

Lemma sub_repeats_head s : head (sub_repeats s) = head s.
Proof.
  destruct s as [|c s]; [done|]. rewrite sub_repeats_cons.
  by destruct (not_markup c && _).
Qed.

Lemma sub_repeats_run c s :
  (length (take_while (N.eqb c) (sub_repeats s))
   <= length (take_while (N.eqb c) s))%nat.
Proof.
  induction s as [|d s IH]; [done|]. rewrite sub_repeats_cons.
  destruct (not_markup d && _); simpl; destruct (c =? d) eqn:Hcd; simpl; try lia.
  rewrite take_while_head_false; [simpl; lia|].
  rewrite sub_repeats_head. apply N.eqb_eq in Hcd as ->.
  apply drop_while_head_false.
Qed.

Lemma search_repeated_iff p k s :
  Re.search (Re.repeated p k) s = true
  ↔ ∃ a c b, p c = true ∧ s = a ++ replicate (S k) c ++ b.
Proof.
  rewrite search_spec. split.
  - intros (a & b & -> & (c & b' & Hc & ->)%repeated_spec). by exists a, c, b'.
  - intros (a & c & b & Hc & ->). exists a, (replicate (S k) c ++ b).
    split; [done|]. apply repeated_spec. by exists c, b.
Qed.

Lemma sub_repeats_no_run s :
  Re.search (Re.repeated not_markup 5) (sub_repeats s) = false.
Proof.
  induction s as [s IH] using (induction_ltof1 _ (@length N)).
  unfold ltof in IH. destruct s as [|c s]; [done|].
  rewrite sub_repeats_cons. destruct (not_markup c && _) eqn:Hm.
  - simpl. rewrite take_while_head_false, andb_false_r.
    + apply IH. simpl. pose proof (drop_while_length (N.eqb c) s). lia.
    + rewrite sub_repeats_head. apply drop_while_head_false.
  - simpl. rewrite IH by (simpl; lia).
    destruct (not_markup c); simpl in *; [|done].
    apply Nat.leb_gt in Hm. pose proof (sub_repeats_run c s).
    by rewrite (proj2 (Nat.leb_gt _ _)) by lia.
Qed.

Lemma no_double_space_suffix a b :
  no_double_space (a ++ b) = true → no_double_space b = true.
Proof.
  induction a as [|c a IH]; [done|]. rewrite <- app_comm_cons, no_double_space_cons.
  intros [_ ?]%andb_true_iff. auto.
Qed.

Lemma sub_repeats_no_double_space s :
  no_double_space s = true → no_double_space (sub_repeats s) = true.
Proof.
  induction s as [s IH] using (induction_ltof1 _ (@length N)).
  unfold ltof in IH. destruct s as [|c s]; [done|]. intros Hs.
  rewrite sub_repeats_cons. destruct (not_markup c && _).
  - rewrite no_double_space_cons, sub_repeats_head. apply andb_true_iff. split.
    + pose proof (drop_while_head_false (N.eqb c) s) as Hd.
      destruct (head (drop_while (N.eqb c) s)) as [d|]; [|by rewrite andb_false_r].
      apply negb_true_iff, andb_false_iff.
      destruct (N.eqb_spec c SPACE) as [->|]; [right|by left].
      by rewrite N.eqb_sym.
    + apply IH; [simpl; pose proof (drop_while_length (N.eqb c) s); lia|].
      destruct (drop_while_suffix (N.eqb c) s) as [k Hk].
      apply (no_double_space_suffix (c :: k)). simpl. by rewrite <- Hk.
  - rewrite no_double_space_cons in Hs. apply andb_true_iff in Hs as [Hpair Hs].
    rewrite no_double_space_cons, sub_repeats_head, Hpair. apply IH; [simpl; lia|done].
Qed.

Lemma take_while_replicate c k body :
  match head body with
  | Some d => (c =? d) = false
  | None => True
  end →
  take_while (N.eqb c) (replicate k c ++ body) = replicate k c
  ∧ drop_while (N.eqb c) (replicate k c ++ body) = body.
Proof.
  intros Hbody. induction k as [|k [IH1 IH2]]; simpl.
  - split; [by apply take_while_head_false|].
    destruct body as [|d body]; simpl in *; [done|]. by rewrite Hbody.
  - rewrite N.eqb_refl. by rewrite IH1, IH2.
Qed.

Lemma sub_repeats_few_spaces k body :
  (k <= 5)%nat →
  match head body with
  | Some d => (SPACE =? d) = false
  | None => True
  end →
  sub_repeats (replicate k SPACE ++ body) = replicate k SPACE ++ sub_repeats body.
Proof.
  intros Hk Hbody. induction k as [|k IH]; [done|].
  simpl. rewrite sub_repeats_cons.
  rewrite (proj1 (take_while_replicate SPACE k body Hbody)), length_replicate.
  rewrite (proj2 (Nat.leb_gt 5 k)) by lia. rewrite andb_false_r.
  rewrite IH by lia. done.
Qed.

Lemma sub_repeats_spaces k body :
  match head body with
  | Some d => (SPACE =? d) = false
  | None => True
  end →
  ∃ k', sub_repeats (replicate k SPACE ++ body)
        = replicate k' SPACE ++ sub_repeats body.
Proof.
  intros Hbody. destruct (Nat.le_gt_cases k 5) as [Hk|Hk].
  - exists k. by apply sub_repeats_few_spaces.
  - destruct k as [|k]; [lia|]. exists 1%nat. simpl. rewrite sub_repeats_cons.
    destruct (take_while_replicate SPACE k body Hbody) as [-> ->].
    rewrite length_replicate, (proj2 (Nat.leb_le 5 k)) by lia. done.
Qed.

End Repeats.

(** ** Normal lines are fixed by [normalize_line] *)
Section NormalLines.

Import Normalized.

Local Arguments N.eqb : simpl never.
Local Arguments Nat.leb : simpl never.

Lemma run_none p k b :
  (0 < k)%nat → Forall (λ c, p c = false) b → Re.run p k b = None.
Proof.
  intros Hk Hb. unfold Re.run. rewrite take_while_head_false.
  - simpl. by rewrite (proj2 (Nat.leb_gt k 0)) by lia.
  - destruct Hb as [|c b Hc _]; simpl; done.
Qed.

Lemma filter_all (P : N → Prop) `{∀ c, Decision (P c)} (s : str) :
  Forall P s → filter P s = s.
Proof.
  induction 1 as [|c s Hc _ IH]; [done|].
  by rewrite filter_cons_True, IH.
Qed.

Lemma control_cases c :
  is_control c = true →
  is_tab_or_cr c = true ∨ Py.is_linebreak c = true ∨ is_stray_control c = true.
Proof.
  intros Hc. unfold is_stray_control. rewrite Hc. unfold is_tab_or_cr.
  destruct (c =? 9); [by left|]. destruct (Py.is_linebreak c); [right; by left|].
  right. by right.
Qed.

Lemma space_not_first body :
  match body with
  | [] => True
  | c :: _ => Py.isspace c = false
  end →
  match head body with
  | Some d => (SPACE =? d) = false
  | None => True
  end.
Proof.
  destruct body as [|c body]; simpl; [done|]. intros Hc.
  destruct (N.eqb_spec SPACE c) as [<-|]; done.
Qed.

Lemma lstrip_indented k body :
  match body with
  | [] => True
  | c :: _ => Py.isspace c = false
  end →
  Py.lstrip (replicate k SPACE ++ body) = body.
Proof.
  intros Hbody. unfold Py.lstrip. rewrite drop_while_app.
  assert (forallb Py.isspace (replicate k SPACE) = true) as ->.
  { induction k; simpl; [done|]. by rewrite IHk. }
  destruct body as [|c body]; simpl; [done|]. by rewrite Hbody.
Qed.

Lemma normalize_line_normal line : normal line → normalize_line line = line.
Proof.
  intros (Hctrl & (k & body & -> & Hbody & Hnds) & Hrun).
  set (line := replicate k SPACE ++ body) in *.
  unfold normalize_line.
  assert (Re.sub (Re.run is_tab_or_cr 1) (λ _, [SPACE]) line = line) as ->.
  { apply sub_no_match. intros a b Hab. apply run_none; [lia|].
    rewrite Hab in Hctrl. apply Forall_app in Hctrl as [_ Hb].
    eapply Forall_impl; [exact Hb|]. intros c Hc. simpl in Hc.
    unfold is_tab_or_cr. unfold is_control in Hc.
    destruct (N.eqb_spec c 9) as [->|]; [done|].
    destruct (N.eqb_spec c 13) as [->|]; done. }
  assert (Py.lstrip_char SPACE line = body) as ->.
  { unfold Py.lstrip_char, line.
    apply (take_while_replicate SPACE k body). by apply space_not_first. }
  assert (length line - length body = k)%nat as ->.
  { unfold line. rewrite length_app, length_replicate. lia. }
  assert (Py.lstrip line = body) as -> by (by apply lstrip_indented).
  rewrite (sub_no_match _ _ body) by (by apply no_double_space_no_match).
  fold line. rewrite sub_class_remove, filter_all by done.
  destruct (is_rule_line line) eqn:Hrule; simpl; [done|].
  destruct Hrun as [|Hrun]; [done|].
  apply sub_no_match. intros a b Hab.
  destruct (Re.repeated not_markup 5 b) eqn:Hb; [|done].
  assert (Re.search (Re.repeated not_markup 5) line = true); [|congruence].
  apply search_spec. exists a, b. by rewrite Hb.
Qed.

Lemma no_double_space_prefix a b :
  no_double_space (a ++ b) = true → no_double_space a = true.
Proof.
  induction a as [|c a IH]; [done|].
  rewrite <- app_comm_cons, !no_double_space_cons.
  intros [Hpair Hrest]%andb_true_iff. rewrite IH by done.
  rewrite andb_true_r. destruct a as [|d a]; [by rewrite andb_false_r|done].
Qed.

Lemma rstrip_nonspace c s :
  Py.isspace c = false → Py.rstrip (c :: s) = c :: Py.rstrip s.
Proof. intros Hc. rewrite rstrip_cons, Hc. by destruct (Py.rstrip s). Qed.

Lemma no_run_sublist a s b :
  Re.search (Re.repeated not_markup 5) (a ++ s ++ b) = false →
  Re.search (Re.repeated not_markup 5) s = false.
Proof.
  intros Hno. apply not_true_is_false.
  intros (a' & c & b' & Hc & ->)%search_repeated_iff.
  assert (Re.search (Re.repeated not_markup 5)
            (a ++ (a' ++ replicate 6 c ++ b') ++ b) = true); [|congruence].
  apply search_repeated_iff. exists (a ++ a'), c, (b' ++ b).
  split; [done|]. by rewrite <- !app_assoc.
Qed.

Lemma is_rule_line_lstrip line :
  is_rule_line (Py.lstrip line) = is_rule_line line.
Proof. unfold is_rule_line. by rewrite lstrip_idemp. Qed.

Lemma dash_not_space c : is_dash_or_equals c = true → Py.isspace c = false.
Proof.
  unfold is_dash_or_equals. intros [->%N.eqb_eq| ->%N.eqb_eq]%orb_true_iff; done.
Qed.

Lemma is_rule_line_rstrip line :
  is_rule_line line = true → is_rule_line (Py.rstrip line) = true.
Proof.
  unfold is_rule_line. rewrite lstrip_rstrip.
  set (r := Py.lstrip line). intros [Hlen Hws]%andb_true_iff.
  assert (Py.rstrip r = take_while is_dash_or_equals r) as ->.
  { rewrite <- (take_drop_while is_dash_or_equals r) at 1.
    rewrite rstrip_app, (proj2 (rstrip_nil_iff _) Hws).
    apply rstrip_id. intros c Hc. apply dash_not_space.
    pose proof (take_while_Forall is_dash_or_equals r) as Hall.
    rewrite Forall_forall in Hall. apply Hall.
    apply last_Some in Hc as [l' ->]. apply elem_of_app. right. left. }
  pose proof (take_while_Forall is_dash_or_equals r) as Hall.
  set (d := take_while is_dash_or_equals r) in *.
  assert (take_while is_dash_or_equals d = d) as Htw.
  { rewrite <- (app_nil_r d) at 1. rewrite take_while_app by done.
    by rewrite app_nil_r. }
  assert (drop_while is_dash_or_equals d = []) as Hdw.
  { pose proof (take_drop_while is_dash_or_equals d) as Htd.
    rewrite Htw in Htd. rewrite <- (app_nil_r d) in Htd at 3.
    by apply app_inv_head in Htd. }
  by rewrite Htw, Hdw, Hlen.
Qed.

Lemma normal_lstrip line : normal line → normal (Py.lstrip line).
Proof.
  intros (Hctrl & (k & body & -> & Hbody & Hnds) & Hrun).
  rewrite lstrip_indented by done. split; [|split].
  - by apply Forall_app in Hctrl as [_ ?].
  - by exists 0%nat, body.
  - destruct Hrun as [Hrule|Hrun].
    + left. rewrite <- is_rule_line_lstrip in Hrule.
      by rewrite lstrip_indented in Hrule.
    + right. apply (no_run_sublist (replicate k SPACE) body []).
      by rewrite app_nil_r.
Qed.

Lemma normal_rstrip line : normal line → normal (Py.rstrip line).
Proof.
  intros (Hctrl & Hwi & Hrun).
  destruct (rstrip_prefix line) as (w & Hw & _). split; [|split].
  - rewrite Hw in Hctrl. by apply Forall_app in Hctrl as [? _].
  - destruct Hwi as (k & body & Hline & Hbody & Hnds).
    destruct body as [|c body].
    + exists 0%nat, []. split; [|done]. simpl. apply rstrip_nil_iff.
      rewrite Hline, app_nil_r. clear. induction k; simpl; [done|]. by rewrite IHk.
    + exists k, (Py.rstrip (c :: body)). rewrite rstrip_nonspace by done.
      split; [|split; [done|]].
      * rewrite Hline, rstrip_app, rstrip_nonspace by done. done.
      * destruct (rstrip_prefix (c :: body)) as (w' & Hw' & _).
        rewrite rstrip_nonspace in Hw' by done.
        apply (no_double_space_prefix _ w'). by rewrite <- Hw'.
  - destruct Hrun as [Hrule|Hrun]; [left; by apply is_rule_line_rstrip|].
    right. apply (no_run_sublist [] _ w). simpl. by rewrite <- Hw.
Qed.

End NormalLines.

(** ** What [clean_line] returns *)
Section CleanLine.

Import Normalized.

Local Arguments N.eqb : simpl never.
Local Arguments Nat.leb : simpl never.

Lemma drop_while_Forall {A} (P : A → Prop) (p : A → bool) (l : list A) :
  Forall P l → Forall P (drop_while p l).
Proof.
  destruct (drop_while_suffix p l) as [k Hk]. rewrite Hk at 1.
  by intros [_ ?]%Forall_app.
Qed.

Lemma head_nonspace (x y : str) :
  head x = head y →
  match y with [] => True | c :: _ => Py.isspace c = false end →
  match x with [] => True | c :: _ => Py.isspace c = false end.
Proof. destruct x, y; simpl; try done. by intros [= ->]. Qed.

Lemma normalize_line_is_normal line :
  Forall (λ c, is_stray_control c = false) line →
  break_free line →
  normal (normalize_line line) ∧ break_free (normalize_line line).
Proof.
  intros Hstray Hbreak.
  set (Q := λ c : N, is_control c = false ∧ Py.is_linebreak c = false).
  assert (Q SPACE) as Hspace by done.
  assert (Forall Q (sub_tabs line)) as Htabs.
  { pose proof (sub_tabs_clean line) as Hclean.
    assert (Forall (λ c, is_stray_control c = false ∧ Py.is_linebreak c = false)
              (sub_tabs line)) as Hgood.
    { apply sub_from_Forall; [intros _ _; by repeat constructor|].
      apply Forall_and. by split. }
    pose proof (conj Hclean Hgood) as Hboth. apply Forall_and in Hboth.
    eapply Forall_impl; [exact Hboth|]. intros c (Ht & Hs & Hb). split; [|done].
    apply not_true_is_false. intros [?|[?|?]]%control_cases; congruence. }
  unfold normalize_line. fold (sub_tabs line). set (l1 := sub_tabs line) in *.
  set (k := (length l1 - length (Py.lstrip_char SPACE l1))%nat).
  fold (sub_spaces (Py.lstrip l1)). set (body := sub_spaces (Py.lstrip l1)).
  assert (Forall Q body) as Hbody.
  { apply sub_from_Forall; [intros _ _; by repeat constructor|].
    by apply drop_while_Forall. }
  assert (Forall Q (replicate k SPACE ++ body)) as Hline.
  { apply Forall_app. split; [by apply Forall_replicate|done]. }
  assert (match body with [] => True | c :: _ => Py.isspace c = false end) as Hhead.
  { pose proof (sub_spaces_head (Py.lstrip l1)) as Hh. fold body in Hh.
    pose proof (drop_while_head_false Py.isspace l1) as Hd.
    fold (Py.lstrip l1) in Hd. rewrite <- Hh in Hd. by destruct body. }
  pose proof (sub_spaces_no_double_space (Py.lstrip l1)) as Hnds. fold body in Hnds.
  rewrite sub_class_remove, filter_all
    by (eapply Forall_impl; [exact Hline|]; by intros c [? _]).
  fold (sub_repeats (replicate k SPACE ++ body)).
  destruct (is_rule_line (replicate k SPACE ++ body)) eqn:Hrule; simpl.
  - split; [|eapply Forall_impl; [exact Hline|]; by intros c [_ ?]].
    split; [eapply Forall_impl; [exact Hline|]; by intros c [? _]|].
    split; [by exists k, body|by left].
  - assert (Forall Q (sub_repeats (replicate k SPACE ++ body))) as Hrep.
    { apply sub_from_Forall; [|done]. intros x Hx. by apply Forall_take. }
    split; [|eapply Forall_impl; [exact Hrep|]; by intros c [_ ?]].
    split; [eapply Forall_impl; [exact Hrep|]; by intros c [? _]|].
    split; [|right; apply sub_repeats_no_run].
    destruct (sub_repeats_spaces k body (space_not_first body Hhead)) as [k' ->].
    exists k', (sub_repeats body). split; [done|].
    split; [|by apply sub_repeats_no_double_space].
    eapply head_nonspace; [apply sub_repeats_head|done].
Qed.

Lemma is_exempt_line_lstrip line :
  is_exempt_line (Py.lstrip line) = is_exempt_line line.
Proof.
  unfold is_exempt_line, is_fence_line, is_table_row, is_heading_line.
  by rewrite lstrip_idemp.
Qed.

Lemma is_bare_hashes_lstrip line :
  is_bare_hashes (Py.lstrip line) = is_bare_hashes line.
Proof. unfold is_bare_hashes. by rewrite lstrip_idemp. Qed.

Lemma rstrip_keeps_prefix p b :
  Forall (λ c, Py.isspace c = false) p → ∃ b', Py.rstrip (p ++ b) = p ++ b'.
Proof.
  induction 1 as [|c p Hc _ [b' IH]]; [by exists (Py.rstrip b)|].
  exists b'. rewrite <- app_comm_cons, rstrip_nonspace by done. by rewrite IH.
Qed.

Lemma startswith_rstrip p r :
  Forall (λ c, Py.isspace c = false) p →
  Py.startswith p r = true → Py.startswith p (Py.rstrip r) = true.
Proof.
  intros Hp [b ->]%startswith_spec. apply startswith_spec.
  by apply rstrip_keeps_prefix.
Qed.

Lemma is_fence_line_rstrip line :
  is_fence_line line = true → is_fence_line (Py.rstrip line) = true.
Proof.
  unfold is_fence_line. rewrite lstrip_rstrip.
  intros [H|H]%orb_true_iff; apply orb_true_iff; [left|right];
    (apply startswith_rstrip; [by repeat constructor|done]).
Qed.

Lemma last_app_cons {A} (k : list A) x l : last (k ++ x :: l) = last (x :: l).
Proof.
  rewrite last_app. destruct (last (x :: l)) eqn:Hl; [done|].
  by apply last_None in Hl.
Qed.

Lemma is_table_row_rstrip line :
  break_free line → is_table_row line = true → Py.rstrip line = line.
Proof.
  intros Hbreak. unfold is_table_row.
  destruct (drop_while_suffix Py.isspace line) as [k Hk]. fold (Py.lstrip line) in Hk.
  destruct (Py.lstrip line) as [|c rest] eqn:Hl; [done|].
  intros [_ [Hrow|Hnl]%orb_true_iff]%andb_true_iff.
  - apply rstrip_id. intros d Hd. rewrite Hk, last_app_cons in Hd.
    unfold ends_row in Hrow. apply andb_true_iff in Hrow as [_ Hlast].
    destruct rest as [|e rest]; [done|].
    change (last (c :: e :: rest)) with (last (e :: rest)) in Hd.
    rewrite Hd in Hlast. by apply N.eqb_eq in Hlast as ->.
  - destruct (reverse rest) as [|d r] eqn:Hrev; [done|].
    apply andb_true_iff in Hnl as [->%N.eqb_eq _].
    assert (LF ∈ line) as Hin.
    { rewrite Hk. apply elem_of_app. right. right.
      apply elem_of_reverse. rewrite Hrev. left. }
    unfold break_free in Hbreak. rewrite Forall_forall in Hbreak.
    by specialize (Hbreak _ Hin).
Qed.

Lemma take_while_hashes n rest :
  match head rest with
  | Some d => (HASH =? d) = false
  | None => True
  end →
  take_while (N.eqb HASH) (replicate n HASH ++ rest) = replicate n HASH.
Proof. intros Hrest. by apply (take_while_replicate HASH n rest). Qed.

Lemma all_equal_replicate c (l : str) :
  Forall (λ x, (c =? x) = true) l → l = replicate (length l) c.
Proof.
  induction 1 as [|x l Hx _ IH]; [done|].
  simpl. apply N.eqb_eq in Hx as <-. by rewrite <- IH.
Qed.

Lemma is_heading_line_rstrip line :
  is_heading_line line = true →
  is_heading_line (Py.rstrip line) = true ∨ is_bare_hashes (Py.rstrip line) = true.
Proof.
  unfold is_heading_line, is_bare_hashes. rewrite lstrip_rstrip.
  set (r := Py.lstrip line).
  pose proof (take_drop_while (N.eqb HASH) r) as Hr.
  rewrite <- drop_take_while in Hr.
  assert (take_while (N.eqb HASH) r
          = replicate (length (take_while (N.eqb HASH) r)) HASH) as Hrep.
  { apply all_equal_replicate, take_while_Forall. }
  set (n := length (take_while (N.eqb HASH) r)) in *.
  intros [Hn Htail]%andb_true_iff.
  destruct (drop n r) as [|c tail] eqn:Hdrop; [done|].
  rewrite Hrep in Hr. rewrite <- Hr, rstrip_app.
  assert (Py.rstrip (replicate n HASH) = replicate n HASH) as Hhashes.
  { apply rstrip_id. intros d Hd. apply last_Some in Hd as [l' Hd].
    assert (d ∈ replicate n HASH) as Hin by (rewrite Hd; set_solver).
    by apply elem_of_replicate in Hin as [-> _]. }
  assert (take_while (N.eqb HASH) (replicate n HASH) = replicate n HASH) as Htw.
  { rewrite <- (app_nil_r (replicate n HASH)) at 1. by apply take_while_hashes. }
  destruct (Py.rstrip (c :: tail)) as [|x xs] eqn:Hrs.
  - right. rewrite Hhashes, Htw, length_replicate, Hn.
    rewrite drop_ge by (by rewrite length_replicate).
    by rewrite bool_decide_true.
  - left. assert (x = c) as ->.
    { rewrite rstrip_cons in Hrs. destruct (Py.rstrip tail); [|by injection Hrs].
      by rewrite Htail in Hrs. }
    rewrite take_while_hashes, length_replicate, Hn.
    + rewrite drop_app_length'; [by rewrite Htail|by rewrite length_replicate].
    + simpl. destruct (N.eqb_spec HASH c) as [<-|]; done.
Qed.

Lemma is_exempt_line_rstrip line :
  break_free line →
  is_exempt_line line = true →
  is_exempt_line (Py.rstrip line) = true ∨ is_bare_hashes (Py.rstrip line) = true.
Proof.
  intros Hbreak. unfold is_exempt_line at 1.
  intros [[Hf|Ht]%orb_true_iff|Hh]%orb_true_iff.
  - left. unfold is_exempt_line. by rewrite is_fence_line_rstrip.
  - left. rewrite is_table_row_rstrip by done.
    unfold is_exempt_line. by rewrite Ht, orb_true_r.
  - destruct (is_heading_line_rstrip line Hh) as [Hh'|Hb]; [left|by right].
    unfold is_exempt_line. by rewrite Hh', orb_true_r.
Qed.

End CleanLine.

(** ** Idempotence of the normalization *)
Section Idempotence.

Import Normalized.

Local Arguments Py.join : simpl never.

Lemma exempt_fixed line : is_exempt_line line = true → clean_line line = line.
Proof. unfold clean_line. by intros ->. Qed.

Lemma normal_fixed line : normal line → clean_line line = line.
Proof.
  intros Hn. unfold clean_line. destruct (is_exempt_line line); [done|].
  by apply normalize_line_normal.
Qed.

Lemma break_free_lstrip line : break_free line → break_free (Py.lstrip line).
Proof. apply drop_while_Forall. Qed.

Lemma break_free_rstrip line : break_free line → break_free (Py.rstrip line).
Proof.
  destruct (rstrip_prefix line) as (w & Hw & _). unfold break_free.
  rewrite Hw at 1. by intros [? _]%Forall_app.
Qed.

(** A line [clean_line] has returned, and what [str.strip] makes of it at
    either end of the text, is left unchanged by [clean_line]; the one
    exception is a heading line without a title at the end of the text,
    which loses the white space that made it a heading. *)
Lemma clean_line_fixed line :
  Forall (λ c, is_stray_control c = false) line →
  break_free line →
  let cleaned := clean_line line in
  break_free cleaned
  ∧ clean_line cleaned = cleaned
  ∧ clean_line (Py.lstrip cleaned) = Py.lstrip cleaned
  ∧ (clean_line (Py.rstrip cleaned) = Py.rstrip cleaned
     ∨ is_bare_hashes (Py.rstrip cleaned) = true)
  ∧ (clean_line (Py.strip cleaned) = Py.strip cleaned
     ∨ is_bare_hashes (Py.strip cleaned) = true).
Proof.
  intros Hstray Hbreak. unfold clean_line at 1.
  destruct (is_exempt_line line) eqn:He; simpl.
  - split; [done|]. split; [by apply exempt_fixed|].
    split; [apply exempt_fixed; by rewrite is_exempt_line_lstrip|].
    destruct (is_exempt_line_rstrip line Hbreak He) as [Hr|Hr].
    + split; left; apply exempt_fixed; [done|].
      unfold Py.strip. by rewrite is_exempt_line_lstrip.
    + split; right; [done|]. unfold Py.strip. by rewrite is_bare_hashes_lstrip.
  - destruct (normalize_line_is_normal line Hstray Hbreak) as [Hn Hb].
    split; [done|]. split; [by apply normal_fixed|].
    split; [by apply normal_fixed, normal_lstrip|].
    split; left; apply normal_fixed.
    + by apply normal_rstrip.
    + by apply normal_lstrip, normal_rstrip.
Qed.

Lemma map_fixed (lines : list str) :
  Forall (λ l, clean_line l = l) lines → map clean_line lines = lines.
Proof. induction 1 as [|l ls Hl _ IH]; simpl; [done|]. by rewrite Hl, IH. Qed.

(** C7, as amended.  [clean_chunk_text] applied to its own result returns
    it unchanged, for every text that contains no control character other
    than tabs and line boundaries and whose normalized form does not end in
    a line made of one to six hashes and nothing else. *)
Theorem clean_chunk_text_idempotent text :
  Forall (λ c, is_stray_control c = false) text →
  (∀ l, last_line (clean_chunk_text text) = Some l → is_bare_hashes l = false) →
  clean_chunk_text (clean_chunk_text text) = clean_chunk_text text.
Proof.
  intros Hstray Hlast.
  set (cleaned := map clean_line (Py.splitlines text)).
  assert (Forall (λ x,
            break_free x
            ∧ clean_line x = x
            ∧ clean_line (Py.lstrip x) = Py.lstrip x
            ∧ (clean_line (Py.rstrip x) = Py.rstrip x
               ∨ is_bare_hashes (Py.rstrip x) = true)
            ∧ (clean_line (Py.strip x) = Py.strip x
               ∨ is_bare_hashes (Py.strip x) = true)) cleaned) as Hcleaned.
  { unfold cleaned. apply Forall_fmap.
    pose proof (splitlines_break_free text) as Hb.
    pose proof (splitlines_chars _ text Hstray) as Hs.
    pose proof (conj Hb Hs) as Hboth. apply Forall_and in Hboth.
    eapply Forall_impl; [exact Hboth|]. intros l [? ?]. simpl.
    by apply clean_line_fixed. }
  rewrite Forall_forall in Hcleaned.
  destruct (strip_join_shape cleaned) as (stripped & Hstrip & Hshape).
  assert (clean_chunk_text text = Py.join [LF] stripped) as Htext by done.
  rewrite Htext in Hlast |- *. unfold last_line in Hlast.
  assert (Py.splitlines (Py.join [LF] stripped) = stripped
          → Forall (λ l, clean_line l = l) stripped
          → clean_chunk_text (Py.join [LF] stripped) = Py.join [LF] stripped)
    as Hclose.
  { intros Hsplit Hfixed. unfold clean_chunk_text.
    rewrite Hsplit, map_fixed, <- Hstrip by done. apply strip_idemp. }
  destruct Hshape as [->|[(l & Hl & -> & Hne)|(first & mid & l & Hf & Hl & Hmid & -> & Hne)]].
  - done.
  - destruct (Hcleaned l Hl) as (Hb & _ & _ & _ & Hs).
    assert (break_free (Py.strip l)) as Hbs
      by (by apply break_free_lstrip, break_free_rstrip).
    assert (Py.splitlines (Py.join [LF] [Py.strip l]) = [Py.strip l]) as Hsplit.
    { apply splitlines_join; [by repeat constructor|]. by intros ? [= <-]. }
    apply Hclose; [done|]. repeat constructor.
    destruct Hs as [?|Hbare]; [done|].
    rewrite Hsplit in Hlast. by rewrite (Hlast _ eq_refl) in Hbare.
  - destruct (Hcleaned first Hf) as (Hbf & _ & Hff & _).
    destruct (Hcleaned l Hl) as (Hbl & _ & _ & Hr & _).
    set (lines := Py.lstrip first :: mid ++ [Py.rstrip l]) in *.
    assert (last lines = Some (Py.rstrip l)) as Hlastline.
    { unfold lines. by rewrite app_comm_cons, last_snoc. }
    assert (Py.splitlines (Py.join [LF] lines) = lines) as Hsplit.
    { apply splitlines_join.
      - unfold lines. constructor; [by apply break_free_lstrip|].
        apply Forall_app. split; [|by repeat constructor; apply break_free_rstrip].
        apply Forall_forall. intros z Hz. by apply (Hcleaned z), Hmid.
      - rewrite Hlastline. by intros ? [= <-]. }
    apply Hclose; [done|]. unfold lines. constructor; [done|].
    apply Forall_app. split.
    + apply Forall_forall. intros z Hz. by apply (Hcleaned z), Hmid.
    + repeat constructor. destruct Hr as [?|Hbare]; [done|].
      rewrite Hsplit, Hlastline in Hlast. by rewrite (Hlast _ eq_refl) in Hbare.
Qed.

End Idempotence.

(** ** Runs of the normalization *)
Section NormalizationRuns.

Import Normalized Inputs.

(** C7 as stated fails.  A control character between two spaces is removed
    after the spaces were collapsed, which leaves two spaces for the second
    pass; and a heading marker without a title at the end of the text is
    passed through as a heading, loses its trailing space to [strip], and
    is then normalized as ordinary text by the second pass. *)
Lemma normalization_not_idempotent :
  clean_chunk_text (clean_chunk_text control_between_spaces)
  ≠ clean_chunk_text control_between_spaces
  ∧ clean_chunk_text (clean_chunk_text empty_heading_last)
    ≠ clean_chunk_text empty_heading_last.
Proof. split; vm_compute; discriminate. Qed.

Lemma clean_chunk_text_idempotent_witness :
  clean_chunk_text (clean_chunk_text test_text) = clean_chunk_text test_text.
Proof.
  apply clean_chunk_text_idempotent.
  - repeat constructor.
  - intros l Hl. vm_compute in Hl. injection Hl as <-. reflexivity.
Defined.

End NormalizationRuns.

(** * Further properties *)

(** ** The strategies *)
Section StrategyShapes.
Context `{libs : Collaborators}.

Import ForwardScan.

Lemma strip_fixed s : Py.strip (Py.strip s) = Py.strip s.
Proof. apply strip_idemp. Qed.

Lemma length_omap_le {A B} (f : A → option B) (l : list A) :
  (length (omap f l) <= length l)%nat.
Proof.
  induction l as [|x l IH]; csimpl; [lia|]. destruct (f x); simpl; lia.
Qed.

(** X1.  Every chunk of [fixed_size_chunking] is the stripped form of a
    piece the splitter returned, is not empty, has no white space at
    either end and carries the empty heading; there are never more chunks
    than pieces. *)
Theorem fixed_size_chunks_are_trimmed markdown_content chunk_size chunk_overlap :
  (∀ c, c ∈ fixed_size_chunking markdown_content chunk_size chunk_overlap →
        text c ≠ []
        ∧ Py.strip (text c) = text c
        ∧ heading c = Some []
        ∧ ∃ t, t ∈ split_text chunk_size chunk_overlap markdown_content
               ∧ text c = Py.strip t)
  ∧ (length (fixed_size_chunking markdown_content chunk_size chunk_overlap)
     <= length (split_text chunk_size chunk_overlap markdown_content))%nat.
Proof.
  split; [|apply length_omap_le].
  intros c (t & Ht & Hc)%list_elem_of_omap.
  destruct (bool_decide_reflect (t = [])) as [|Hne]; [done|].
  destruct (bool_decide_reflect (Py.strip t = [])) as [|Hns]; [done|].
  simpl in Hc. injection Hc as <-. simpl.
  repeat split; [done|apply strip_idemp|by exists t].
Qed.

Lemma with_heading_line_prefix heading_line body :
  ∃ rest, with_heading_line heading_line body = heading_line ++ rest.
Proof. destruct heading_line; [by exists body|]. by eexists. Qed.

Lemma with_continuation_prefix heading_line body :
  ∃ rest, with_continuation heading_line body = heading_line ++ rest.
Proof. destruct heading_line; [by eexists|]. by eexists. Qed.

Lemma h1_sub_chunk_loop_prefix heading_line h cs co th n :
  ∀ i sub_chunks c,
    c ∈ h1_sub_chunk_loop heading_line h cs co th n i sub_chunks →
    ∃ rest, text c = heading_line ++ rest.
Proof.
  assert (∀ i s, ∃ rest,
            (if bool_decide (i = 0%nat) then with_heading_line heading_line s
             else with_continuation heading_line s) = heading_line ++ rest) as Hlabel.
  { intros i s. destruct (bool_decide (i = 0%nat));
      [apply with_heading_line_prefix|apply with_continuation_prefix]. }
  induction n as [|n IH]; intros i sub_chunks c; simpl.
  - by intros ?%elem_of_nil.
  - destruct (sub_chunks !! i) as [sub_chunk|]; [|by intros ?%elem_of_nil].
    destruct (if bool_decide (i < length sub_chunks - 1)%nat
              then sub_chunks !! S i else None) as [next|].
    + destruct (_ && _).
      * apply IH.
      * intros [->|Hin]%elem_of_cons; [apply Hlabel|by eapply IH].
    + intros [->|Hin]%elem_of_cons; [apply Hlabel|by eapply IH].
Qed.

(** X2.  Every chunk of a section that has a heading begins with the
    heading line of the section, in the fitting branch and in the overflow
    branch alike: ["# h"] or, for a section of the level-2 fallback,
    ["## h"] in [h1_heading_based_chunking], and ["## h"] in
    [h2_heading_based_chunking]. *)
Theorem chunks_begin_with_heading_line chunk_size chunk_overlap threshold doc h c :
  (get_truthy "H1" (metadata doc) = Some h →
   c ∈ h1_section chunk_size chunk_overlap threshold doc →
   ∃ rest, text c = u "# " ++ h ++ rest)
  ∧ (get_truthy "H1" (metadata doc) = None →
     get_truthy "H2" (metadata doc) = Some h →
     c ∈ h1_section chunk_size chunk_overlap threshold doc →
     ∃ rest, text c = u "## " ++ h ++ rest)
  ∧ ((get_truthy "H2" (metadata doc) = Some h
      ∨ (get_truthy "H2" (metadata doc) = None
         ∧ get_truthy "H1" (metadata doc) = Some h)) →
     c ∈ h2_section chunk_size chunk_overlap doc →
     ∃ rest, text c = u "## " ++ h ++ rest).
Proof.
  assert (∀ mark, c ∈ (let heading_line := mark ++ h in
            let full_content := with_heading_line heading_line (Py.strip (page_content doc)) in
            if (count_tokens full_content <=? chunk_size)%Z
            then [ {| text := full_content; heading := Some h |} ]
            else h1_sub_chunk_loop heading_line h chunk_size
                   (count_tokens (with_continuation heading_line []))
                   threshold
                   (length (split_text (chunk_size - count_tokens (with_continuation heading_line []))%Z
                              chunk_overlap (Py.strip (page_content doc))))
                   0
                   (split_text (chunk_size - count_tokens (with_continuation heading_line []))%Z
                      chunk_overlap (Py.strip (page_content doc)))) →
          ∃ rest, text c = mark ++ h ++ rest) as Hh1.
  { intros mark. simpl. destruct (_ <=? _)%Z.
    - intros ->%list_elem_of_singleton. simpl.
      destruct (with_heading_line_prefix (mark ++ h) (Py.strip (page_content doc)))
        as [rest ->]. exists rest. by rewrite <- app_assoc.
    - intros [rest ->]%h1_sub_chunk_loop_prefix. exists rest. by rewrite <- app_assoc. }
  split; [|split].
  - intros H1 Hc. apply (Hh1 (u "# ")). unfold h1_section in Hc. by rewrite H1 in Hc.
  - intros H1 H2 Hc. apply (Hh1 (u "## ")). unfold h1_section in Hc.
    by rewrite H1, H2 in Hc.
  - intros Hgov. unfold h2_section.
    assert (match get_truthy "H2" (metadata doc) with
            | Some h => Some h
            | None => get_truthy "H1" (metadata doc)
            end = Some h) as -> by (by destruct Hgov as [->|[-> ->]]).
    cbv beta iota zeta.
    assert (∀ rest, (u "## " ++ h) ++ rest = u "## " ++ h ++ rest) as Hassoc
      by (intros rest; by rewrite <- app_assoc).
    revert Hassoc. generalize (u "## " ++ h). intros hl Hassoc.
    destruct (_ <=? _)%Z.
    + intros ->%list_elem_of_singleton. cbn [text].
      destruct (with_heading_line_prefix hl (Py.strip (page_content doc)))
        as [rest ->]. exists rest. apply Hassoc.
    + intros (i & Hi)%list_elem_of_lookup_1. rewrite list_lookup_imap in Hi.
      destruct (_ !! i) as [p|]; [|done].
      injection Hi as <-. cbn [text].
      destruct (bool_decide (i = 0%nat)).
      * destruct (with_heading_line_prefix hl (Py.strip p)) as [rest ->].
        exists rest. apply Hassoc.
      * destruct (with_continuation_prefix hl (Py.strip p)) as [rest ->].
        exists rest. apply Hassoc.
Qed.

Lemma h1_sub_chunk_loop_S heading_line h cs co th n i sub_chunks :
  h1_sub_chunk_loop heading_line h cs co th (S n) i sub_chunks
  = match sub_chunks !! i with
    | None => []
    | Some sub_chunk =>
      let emitted :=
        {| text := if bool_decide (i = 0%nat)
                   then with_heading_line heading_line (Py.strip sub_chunk)
                   else with_continuation heading_line (Py.strip sub_chunk);
           heading := Some h |} in
      match (if bool_decide (i < length sub_chunks - 1)%nat
             then sub_chunks !! S i else None) with
      | Some next =>
        if ((count_tokens (Py.strip sub_chunk) + count_tokens next + co <=? cs)
            && (count_tokens next <? th))%Z
        then h1_sub_chunk_loop heading_line h cs co th n (S i)
               (<[S i := Py.strip sub_chunk ++ NLNL ++ Py.strip next]> sub_chunks)
        else emitted :: h1_sub_chunk_loop heading_line h cs co th n (S i) sub_chunks
      | None => emitted :: h1_sub_chunk_loop heading_line h cs co th n (S i) sub_chunks
      end
    end.
Proof. reflexivity. Qed.

Lemma h1_sub_chunk_loop_scan heading_line h cs co th rest :
  ∀ pre p,
    h1_sub_chunk_loop heading_line h cs co th (S (length rest)) (length pre)
      (pre ++ p :: rest)
    = h1_forward_scan heading_line h cs co th (length pre) p rest.
Proof.
  induction rest as [|next rest IH]; intros pre p; rewrite h1_sub_chunk_loop_S;
    rewrite (list_lookup_middle pre _ p (length pre) eq_refl);
    rewrite length_app; cbn [length h1_forward_scan]; cbv zeta.
  - by rewrite (bool_decide_false (length pre < _)%nat) by lia.
  - rewrite (bool_decide_true (length pre < _)%nat) by lia.
    assert ((pre ++ p :: next :: rest) !! S (length pre) = Some next) as ->.
    { rewrite (lookup_app_r pre) by lia.
      by replace (S (length pre) - length pre)%nat with 1%nat by lia. }
    assert (∀ x, <[S (length pre) := x]> (pre ++ p :: next :: rest)
                 = (pre ++ [p]) ++ x :: rest) as Hins.
    { intros x. rewrite insert_app_r_alt by lia.
      replace (S (length pre) - length pre)%nat with 1%nat by lia.
      by rewrite <- app_assoc. }
    assert (S (length pre) = length (pre ++ [p])) as Hlen.
    { rewrite length_app. simpl. lia. }
    destruct (_ && _).
    + rewrite Hins, Hlen. apply IH.
    + f_equal. rewrite Hlen.
      replace (pre ++ p :: next :: rest) with ((pre ++ [p]) ++ next :: rest)
        by (by rewrite <- app_assoc).
      apply IH.
Qed.

(** X3.  The loop of the overflow branch of [h1_heading_based_chunking],
    which updates [sub_chunks] in place while it enumerates it, computes
    what a forward scan computes that carries the sub-piece still to be
    emitted and never touches the list. *)
Theorem h1_merge_loop_is_forward_scan heading_line h chunk_size continuation_overhead
    threshold sub_chunks :
  h1_sub_chunk_loop heading_line h chunk_size continuation_overhead threshold
    (length sub_chunks) 0 sub_chunks
  = match sub_chunks with
    | [] => []
    | first :: rest =>
      h1_forward_scan heading_line h chunk_size continuation_overhead threshold
        0 first rest
    end.
Proof.
  destruct sub_chunks as [|first rest]; [done|].
  apply (h1_sub_chunk_loop_scan heading_line h _ _ _ rest [] first).
Qed.

End StrategyShapes.

(** ** The base64 payload and the two decodings *)
Section Payload.
Context `{libs : Collaborators}.

Local Arguments N.eqb : simpl never.
Local Arguments N.ltb : simpl never.
Local Arguments N.leb : simpl never.
Local Arguments N.div : simpl never.
Local Arguments N.modulo : simpl never.
Local Arguments N.mul : simpl never.
Local Arguments N.add : simpl never.

Lemma b64_value_char v : v < 64 → Codec.b64_value (Codec.b64_char v) = Some v.
Proof.
  intros Hv. unfold Codec.b64_char.
  repeat match goal with
         | |- context [N.ltb ?a ?b] => destruct (N.ltb_spec a b)
         | |- context [N.eqb ?a ?b] => destruct (N.eqb_spec a b)
         end; unfold Codec.b64_value;
    repeat match goal with
           | |- context [N.leb ?a ?b] => destruct (N.leb_spec a b); simpl
           | |- context [N.eqb ?a ?b] => destruct (N.eqb_spec a b); simpl
           end; try lia; f_equal; lia.
Qed.

Lemma b64_char_range v : v < 64 → Codec.b64_char v ≠ 61 ∧ Codec.b64_char v < 128.
Proof.
  intros Hv. unfold Codec.b64_char.
  repeat match goal with
         | |- context [N.ltb ?a ?b] => destruct (N.ltb_spec a b)
         | |- context [N.eqb ?a ?b] => destruct (N.eqb_spec a b)
         end; lia.
Qed.

Lemma byte_of_to_N b : Codec.byte_of (Byte.to_N b) = b.
Proof.
  unfold Codec.byte_of. pose proof (Byte.to_N_bounded b).
  rewrite N.mod_small by lia. by rewrite Byte.of_to_N.
Qed.

Lemma a2b_base64_char quad_pos pads leftchar v s :
  v < 64 →
  Codec.a2b_base64 quad_pos pads leftchar (Codec.b64_char v :: s)
  = match quad_pos with
    | 0%nat => Codec.a2b_base64 1 0 v s
    | 1%nat => Codec.rmap (cons (Codec.byte_of (leftchar * 4 + v / 16)))
                 (Codec.a2b_base64 2 0 (v mod 16) s)
    | 2%nat => Codec.rmap (cons (Codec.byte_of (leftchar * 16 + v / 4)))
                 (Codec.a2b_base64 3 0 (v mod 4) s)
    | _ => Codec.rmap (cons (Codec.byte_of (leftchar * 64 + v)))
             (Codec.a2b_base64 0 0 0 s)
    end.
Proof.
  intros Hv. cbn [Codec.a2b_base64].
  destruct (b64_char_range v Hv) as [Hpad _].
  destruct (N.eqb_spec (Codec.b64_char v) 61); [done|].
  by rewrite b64_value_char.
Qed.

Lemma triples_ind {A} (P : list A → Prop) :
  P [] → (∀ a, P [a]) → (∀ a b, P [a; b]) →
  (∀ a b c rest, P rest → P (a :: b :: c :: rest)) →
  ∀ l, P l.
Proof.
  intros H0 H1 H2 H3 l.
  assert (P l ∧ (∀ a, P (a :: l)) ∧ (∀ a b, P (a :: b :: l))) as [? _].
  { induction l as [|x l (IH0 & IH1 & IH2)]; [done|].
    split; [apply IH1|]. split; [intros a; apply IH2|].
    intros a b. by apply H3. }
  done.
Qed.

Lemma sextets a b c :
  a ≤ 255 → b ≤ 255 → c ≤ 255 →
  a / 4 < 64 ∧ (a mod 4) * 16 + b / 16 < 64 ∧ (b mod 16) * 4 + c / 64 < 64
  ∧ c mod 64 < 64
  ∧ (a / 4) * 4 + ((a mod 4) * 16 + b / 16) / 16 = a
  ∧ (((a mod 4) * 16 + b / 16) mod 16) * 16 + ((b mod 16) * 4 + c / 64) / 4 = b
  ∧ (((b mod 16) * 4 + c / 64) mod 4) * 64 + c mod 64 = c.
Proof.
  intros Ha Hb Hc.
  pose proof (N.Div0.div_mod a 4) as Ea. pose proof (N.mod_upper_bound a 4).
  pose proof (N.Div0.div_mod b 16) as Eb. pose proof (N.mod_upper_bound b 16).
  pose proof (N.Div0.div_mod c 64) as Ec. pose proof (N.mod_upper_bound c 64).
  set (a1 := a / 4) in *. set (a0 := a mod 4) in *.
  set (b1 := b / 16) in *. set (b0 := b mod 16) in *.
  set (c1 := c / 64) in *. set (c0 := c mod 64) in *.
  assert ((a0 * 16 + b1) / 16 = a0) as ->
    by (symmetry; apply (N.div_unique _ 16 a0 b1); lia).
  assert ((a0 * 16 + b1) mod 16 = b1) as ->
    by (symmetry; apply (N.mod_unique _ 16 a0 b1); lia).
  assert ((b0 * 4 + c1) / 4 = b0) as ->
    by (symmetry; apply (N.div_unique _ 4 b0 c1); lia).
  assert ((b0 * 4 + c1) mod 4 = c1) as ->
    by (symmetry; apply (N.mod_unique _ 4 b0 c1); lia).
  lia.
Qed.

Lemma a2b_base64_b64encode data :
  Codec.a2b_base64 0 0 0 (Codec.b64encode data) = Codec.Ok data.
Proof.
  induction data as [|a|a b|a b c rest IH] using triples_ind.
  - done.
  - pose proof (Byte.to_N_bounded a) as Ha.
    destruct (sextets (Byte.to_N a) 0 0) as (H1 & H2 & _ & _ & E1 & _); [lia..|].
    change (0 / 16) with 0 in *. rewrite N.add_0_r in *.
    cbn [Codec.b64encode]. cbv zeta.
    rewrite !a2b_base64_char by done. rewrite E1.
    by rewrite byte_of_to_N.
  - pose proof (Byte.to_N_bounded a) as Ha. pose proof (Byte.to_N_bounded b) as Hb.
    destruct (sextets (Byte.to_N a) (Byte.to_N b) 0)
      as (H1 & H2 & H3 & _ & E1 & E2 & _); [lia..|].
    change (0 / 64) with 0 in *. rewrite N.add_0_r in *.
    cbn [Codec.b64encode]. cbv zeta.
    rewrite !a2b_base64_char by done. rewrite E1, E2.
    by rewrite !byte_of_to_N.
  - pose proof (Byte.to_N_bounded a) as Ha. pose proof (Byte.to_N_bounded b) as Hb.
    pose proof (Byte.to_N_bounded c) as Hc.
    destruct (sextets (Byte.to_N a) (Byte.to_N b) (Byte.to_N c))
      as (H1 & H2 & H3 & H4 & E1 & E2 & E3); [lia..|].
    cbn [Codec.b64encode]. cbv zeta.
    rewrite !a2b_base64_char by done. rewrite E1, E2, E3, IH.
    by rewrite !byte_of_to_N.
Qed.

Lemma b64encode_ascii data : Forall (λ c, c < 128) (Codec.b64encode data).
Proof.
  induction data as [|a|a b|a b c rest IH] using triples_ind.
  - constructor.
  - pose proof (Byte.to_N_bounded a) as Ha.
    destruct (sextets (Byte.to_N a) 0 0) as (H1 & H2 & _); [lia..|].
    change (0 / 16) with 0 in *. rewrite N.add_0_r in *.
    cbn [Codec.b64encode]. cbv zeta.
    repeat constructor; try lia; by apply b64_char_range.
  - pose proof (Byte.to_N_bounded a) as Ha. pose proof (Byte.to_N_bounded b) as Hb.
    destruct (sextets (Byte.to_N a) (Byte.to_N b) 0) as (H1 & H2 & H3 & _); [lia..|].
    change (0 / 64) with 0 in *. rewrite N.add_0_r in *.
    cbn [Codec.b64encode]. cbv zeta.
    repeat constructor; try lia; by apply b64_char_range.
  - pose proof (Byte.to_N_bounded a) as Ha. pose proof (Byte.to_N_bounded b) as Hb.
    pose proof (Byte.to_N_bounded c) as Hc.
    destruct (sextets (Byte.to_N a) (Byte.to_N b) (Byte.to_N c))
      as (H1 & H2 & H3 & H4 & _); [lia..|].
    cbn [Codec.b64encode]. cbv zeta.
    repeat (constructor; [by apply b64_char_range|]). done.
Qed.

Lemma b64decode_b64encode data : Codec.b64decode (Codec.b64encode data) = Codec.Ok data.
Proof.
  unfold Codec.b64decode.
  assert (forallb (λ c, c <? 128) (Codec.b64encode data) = true) as ->.
  { apply forallb_forall. intros c Hc. apply N.ltb_lt.
    pose proof (b64encode_ascii data) as Hall. rewrite List.Forall_forall in Hall.
    by apply Hall. }
  apply a2b_base64_b64encode.
Qed.

(** X4.  The base64 wrapping of [process_single_file] is lossless: what
    [base64.b64encode] makes of the bytes of a file is ASCII text that
    [base64.b64decode], as [get_html_content] calls it, turns back into
    the same bytes, never raising. *)
Theorem base64_payload_round_trip data :
  Forall (λ c, c < 128) (Codec.b64encode data)
  ∧ Codec.b64decode (Codec.b64encode data) = Codec.Ok data.
Proof. split; [apply b64encode_ascii|apply b64decode_b64encode]. Qed.

(** The bytes windows-1252 leaves undefined. *)
Lemma cp1252_char_None b :
  Codec.cp1252_char b = None
  ↔ b ∈ [Byte.x81; Byte.x8d; Byte.x8f; Byte.x90; Byte.x9d].
Proof.
  rewrite !elem_of_cons, elem_of_nil.
  destruct b; vm_compute; split; intros H; try discriminate; try tauto;
    repeat (destruct H as [H|H]; try discriminate); done.
Qed.

Lemma cp1252_decode_None data :
  Codec.cp1252_decode data = None
  ↔ ∃ b, b ∈ data ∧ b ∈ [Byte.x81; Byte.x8d; Byte.x8f; Byte.x90; Byte.x9d].
Proof.
  unfold Codec.cp1252_decode. rewrite mapM_None, Exists_exists.
  by setoid_rewrite cp1252_char_None.
Qed.

Lemma cp1252_decode_replace_agrees data s :
  Codec.cp1252_decode data = Some s → Codec.cp1252_decode_replace data = s.
Proof.
  unfold Codec.cp1252_decode, Codec.cp1252_decode_replace.
  intros H%mapM_Some_1. induction H as [|b c data s Hb _ IH]; [done|].
  simpl. by rewrite Hb, IH.
Qed.

Lemma get_html_content_encoded file_path html_bytes :
  get_html_content {| file_data := Codec.b64encode html_bytes;
                      metadata_storage_path := file_path |}
  = match Codec.utf8_decode html_bytes with
    | Some html_content => Codec.Ok html_content
    | None =>
      match Codec.cp1252_decode html_bytes with
      | Some html_content => Codec.Ok html_content
      | None => Codec.Raise Codec.UnicodeDecodeError
      end
    end.
Proof. unfold get_html_content. simpl. by rewrite b64decode_b64encode. Qed.

Lemma get_html_content_cases file_path html_bytes :
  let doc := {| file_data := Codec.b64encode html_bytes;
                metadata_storage_path := file_path |} in
  (get_html_content doc = Codec.Ok (decode_html_bytes html_bytes)
   ∨ get_html_content doc = Codec.Raise Codec.UnicodeDecodeError)
  ∧ (get_html_content doc = Codec.Raise Codec.UnicodeDecodeError
     ↔ Codec.utf8_decode html_bytes = None
       ∧ ∃ b, b ∈ html_bytes
              ∧ b ∈ [Byte.x81; Byte.x8d; Byte.x8f; Byte.x90; Byte.x9d]).
Proof.
  cbv zeta. rewrite get_html_content_encoded, <- cp1252_decode_None.
  unfold decode_html_bytes.
  destruct (Codec.utf8_decode html_bytes) as [s|].
  - split; [by left|]. split; [done|]. by intros [? _].
  - destruct (Codec.cp1252_decode html_bytes) as [s|] eqn:Hs.
    + rewrite (cp1252_decode_replace_agrees _ _ Hs).
      split; [by left|]. split; [done|]. by intros [_ ?].
    + split; [by right|done].
Qed.

(** X5.  On the document [process_single_file] builds from the bytes of a
    file, [get_html_content] either returns the very text stage 2 of
    [process_single_file] decodes for the metadata, or raises
    [UnicodeDecodeError]; it raises exactly when the bytes are not UTF-8
    and one of them is 0x81, 0x8D, 0x8F, 0x90 or 0x9D. *)
Theorem html_content_of_encoded_bytes file_path html_bytes :
  let doc := {| file_data := Codec.b64encode html_bytes;
                metadata_storage_path := file_path |} in
  (get_html_content doc = Codec.Ok (decode_html_bytes html_bytes)
   ∨ get_html_content doc = Codec.Raise Codec.UnicodeDecodeError)
  ∧ (get_html_content doc = Codec.Raise Codec.UnicodeDecodeError
     ↔ Codec.utf8_decode html_bytes = None
       ∧ ∃ b, b ∈ html_bytes
              ∧ b ∈ [Byte.x81; Byte.x8d; Byte.x8f; Byte.x90; Byte.x9d]).
Proof. apply get_html_content_cases. Qed.

(** X6.  A file whose bytes are not UTF-8 and contain a byte
    windows-1252 leaves undefined is reported as failed by
    [process_single_file], with a [UnicodeDecodeError] of the chunking
    stage, whatever the options and the libraries: [get_html_content]
    raises before the tokenizer or a splitter is reached.  Stage 2 has by
    then decoded the same bytes with a replacement character for each
    undefined byte. *)
Theorem undecodable_file_fails_in_chunking opts file_path html_bytes :
  Codec.utf8_decode html_bytes = None →
  (∃ b, b ∈ html_bytes ∧ b ∈ [Byte.x81; Byte.x8d; Byte.x8f; Byte.x90; Byte.x9d]) →
  process_single_file opts file_path html_bytes
  = Failed Codec.UnicodeDecodeError "chunking"
  ∧ decode_html_bytes html_bytes = Codec.cp1252_decode_replace html_bytes
  ∧ 65533 ∈ decode_html_bytes html_bytes.
Proof.
  intros Hutf Hbyte.
  destruct (get_html_content_cases file_path html_bytes) as [_ Hiff].
  cbv zeta in Hiff. pose proof (proj2 Hiff (conj Hutf Hbyte)) as Hraise.
  split; [|split].
  - unfold process_single_file, get_html_chunks. cbv zeta. by rewrite Hraise.
  - unfold decode_html_bytes. by rewrite Hutf.
  - unfold decode_html_bytes. rewrite Hutf.
    destruct Hbyte as (b & Hb & Hundef). apply cp1252_char_None in Hundef.
    unfold Codec.cp1252_decode_replace. apply list_elem_of_fmap.
    exists b. by rewrite Hundef.
Qed.

End Payload.

(** ** What [clean_chunk_text] returns, for every text *)
Section CleanShape.

Import Normalized.

Local Arguments N.eqb : simpl never.
Local Arguments Py.join : simpl never.

Lemma drop_while_Forall_keep {A} (P : A → Prop) (p : A → bool) (l : list A) :
  Forall P l → Forall P (drop_while p l).
Proof.
  destruct (drop_while_suffix p l) as [k Hk]. rewrite Hk at 1.
  by intros [_ ?]%Forall_app.
Qed.

Lemma strip_Forall (P : N → Prop) s : Forall P s → Forall P (Py.strip s).
Proof.
  intros Hs. unfold Py.strip, Py.lstrip. apply drop_while_Forall_keep.
  destruct (rstrip_prefix s) as (k & Hk & _). rewrite Hk in Hs.
  by apply Forall_app in Hs as [? _].
Qed.

Lemma join_Forall (P : N → Prop) sep lines :
  Forall P sep → Forall (Forall P) lines → Forall P (Py.join sep lines).
Proof.
  intros Hsep. induction 1 as [|l ls Hl Hls IH]; [constructor|].
  destruct ls as [|l' ls]; [by rewrite join_singleton|].
  rewrite join_cons2. rewrite !Forall_app. done.
Qed.

Lemma normalize_line_Forall (P : N → Prop) line :
  P SPACE → Forall P line → Forall P (normalize_line line).
Proof.
  intros Hspace Hline. unfold normalize_line. cbv zeta.
  assert (∀ m k s, Forall P s → Forall P (Re.sub_from m (λ _, [SPACE]) k s)) as Hsp.
  { intros m k s. apply sub_from_Forall. intros _ _. by repeat constructor. }
  assert (∀ m k s, Forall P s → Forall P (Re.sub_from m (λ _, []) k s)) as Hdel.
  { intros m k s. apply sub_from_Forall. intros _ _. constructor. }
  assert (∀ m k s, Forall P s → Forall P (Re.sub_from m (take 1) k s)) as Hfirst.
  { intros m k s. apply sub_from_Forall. intros x Hx. by apply Forall_take. }
  set (line1 := Re.sub _ _ line).
  assert (Forall P line1) as H1 by (by apply Hsp).
  set (line2 := replicate _ _ ++ _).
  assert (Forall P line2) as H2.
  { apply Forall_app. split; [by apply Forall_replicate|].
    apply Hsp. by apply drop_while_Forall_keep. }
  set (line3 := Re.sub _ _ line2).
  assert (Forall P line3) as H3 by (by apply Hdel).
  destruct (negb _); [by apply Hfirst|done].
Qed.

Lemma clean_chunk_text_Forall (P : N → Prop) text :
  P SPACE → P LF →
  (∀ line, line ∈ Py.splitlines text → Forall P line) →
  Forall P (clean_chunk_text text).
Proof.
  intros Hspace Hlf Hlines. unfold clean_chunk_text.
  apply strip_Forall, join_Forall; [by repeat constructor|].
  apply Forall_fmap, Forall_forall. intros line Hline. simpl.
  unfold clean_line. destruct (is_exempt_line line); [by apply Hlines|].
  by apply normalize_line_Forall, Hlines.
Qed.

(** X7.  The text [clean_chunk_text] returns has no white space at either
    end; every character of it is a character of the input, a space or a
    line feed; and the line feed is the only line boundary left in it:
    carriage returns, form feeds, the separators U+001C to U+001E, U+0085,
    U+2028 and U+2029 never survive. *)
Theorem clean_chunk_text_shape text :
  Py.strip (clean_chunk_text text) = clean_chunk_text text
  ∧ (∀ c, c ∈ clean_chunk_text text → c ∈ text ∨ c = SPACE ∨ c = LF)
  ∧ (∀ c, c ∈ clean_chunk_text text → Py.is_linebreak c = true → c = LF).
Proof.
  split; [apply strip_idemp|]. split.
  - apply Forall_forall, clean_chunk_text_Forall; [by right; left|by right; right|].
    intros line Hline.
    assert (Forall (λ c, c ∈ text) text) as Hself by (by apply Forall_forall).
    pose proof (splitlines_chars _ text Hself) as Hall.
    rewrite Forall_forall in Hall. specialize (Hall line Hline).
    eapply Forall_impl; [exact Hall|]. intros c Hc. by left.
  - apply (proj1 (Forall_forall (λ c, Py.is_linebreak c = true → c = LF) _)).
    apply clean_chunk_text_Forall; [done|done|].
    intros line Hline.
    pose proof (splitlines_break_free text) as Hall.
    rewrite Forall_forall in Hall. specialize (Hall line Hline).
    eapply Forall_impl; [exact Hall|]. intros c Hc Hbreak. simpl in Hc. congruence.
Qed.

Lemma sub_from_length m repl k s :
  (∀ x, (length (repl x) <= 1)%nat) →
  (length (Re.sub_from m repl k s) <= length s)%nat.
Proof.
  intros Hrepl. revert k. induction s as [|c s IH]; intros k; simpl; [done|].
  destruct k as [|k]; [|specialize (IH k); lia].
  destruct (m (c :: s)) as [[|n]|].
  - specialize (IH 0%nat). simpl. lia.
  - rewrite length_app. specialize (IH n).
    specialize (Hrepl (c :: take n s)). lia.
  - specialize (IH 0%nat). simpl. lia.
Qed.

Lemma lstrip_after_spaces s :
  (length (Py.lstrip s) <= length (Py.lstrip_char SPACE s))%nat.
Proof.
  unfold Py.lstrip, Py.lstrip_char.
  induction s as [|c s IH]; simpl; [done|].
  destruct (N.eqb_spec SPACE c) as [Hc|Hc]; [by subst c|].
  destruct (Py.isspace c); simpl; [|done].
  pose proof (drop_while_length Py.isspace s). lia.
Qed.

Lemma normalize_line_length line : (length (normalize_line line) <= length line)%nat.
Proof.
  unfold normalize_line. cbv zeta.
  set (line1 := Re.sub _ _ line).
  assert (length line1 <= length line)%nat as H1
    by (apply sub_from_length; intros ?; simpl; lia).
  set (line2 := replicate _ _ ++ _).
  assert (length line2 <= length line1)%nat as H2.
  { unfold line2. rewrite length_app, length_replicate.
    pose proof (lstrip_after_spaces line1).
    pose proof (drop_while_length (N.eqb SPACE) line1) as Hd.
    fold (Py.lstrip_char SPACE line1) in Hd.
    pose proof (sub_from_length (Re.run (N.eqb SPACE) 2) (λ _, [SPACE]) 0
                  (Py.lstrip line1) ltac:(intros ?; simpl; lia)) as Hs.
    unfold Re.sub. lia. }
  set (line3 := Re.sub _ _ line2).
  assert (length line3 <= length line2)%nat as H3
    by (apply sub_from_length; intros ?; simpl; lia).
  destruct (negb _); [|lia].
  pose proof (sub_from_length (Re.repeated not_markup 5) (take 1) 0 line3) as Hr.
  unfold Re.sub. etrans; [apply Hr|lia].
  intros x. rewrite length_take. lia.
Qed.

Lemma clean_line_length line : (length (clean_line line) <= length line)%nat.
Proof.
  unfold clean_line. destruct (is_exempt_line line); [done|apply normalize_line_length].
Qed.

Lemma join_length lines : length (Py.join [LF] lines) = (lines_weight lines - 1)%nat.
Proof.
  induction lines as [|l ls IH]; [done|].
  destruct ls as [|l' ls]; [rewrite join_singleton; simpl; lia|].
  rewrite join_cons2, !length_app, IH. simpl. lia.
Qed.

Lemma splitlines_weight s : (lines_weight (Py.splitlines s) <= S (length s))%nat.
Proof.
  induction s as [s IH] using (induction_ltof1 _ (@length N)).
  unfold ltof in IH. destruct s as [|c s]; [simpl; lia|]. simpl.
  destruct (Py.is_linebreak c).
  - destruct s as [|d s]; [simpl; lia|].
    destruct (_ && _); simpl.
    + pose proof (IH s ltac:(simpl; lia)). lia.
    + pose proof (IH (d :: s) ltac:(simpl; lia)) as Hd. simpl in *. lia.
  - pose proof (IH s ltac:(simpl; lia)) as Hs.
    destruct (Py.splitlines s) as [|l ls]; simpl in *; lia.
Qed.

Lemma lines_weight_map (f : str → str) lines :
  (∀ l, (length (f l) <= length l)%nat) →
  (lines_weight (map f lines) <= lines_weight lines)%nat.
Proof.
  intros Hf. induction lines as [|l ls IH]; simpl; [done|].
  specialize (Hf l). lia.
Qed.

Lemma strip_length s : (length (Py.strip s) <= length s)%nat.
Proof.
  unfold Py.strip, Py.lstrip.
  pose proof (drop_while_length Py.isspace (Py.rstrip s)).
  destruct (rstrip_prefix s) as (k & Hk & _).
  rewrite Hk at 2. rewrite length_app. lia.
Qed.

(** X8.  [clean_chunk_text] never makes a text longer: every line boundary
    of the input costs at least the one line feed that replaces it, and no
    step of the loop body adds a character to a line. *)
Theorem clean_chunk_text_never_longer text :
  (length (clean_chunk_text text) <= length text)%nat.
Proof.
  unfold clean_chunk_text.
  pose proof (strip_length (Py.join [LF] (map clean_line (Py.splitlines text)))).
  pose proof (join_length (map clean_line (Py.splitlines text))).
  pose proof (lines_weight_map clean_line (Py.splitlines text) clean_line_length).
  pose proof (splitlines_weight text).
  lia.
Qed.

End CleanShape.

(** ** The quality filter, chunk by chunk *)
Section FilterShape.

Lemma apply_quality_filters_app xs ys :
  apply_quality_filters (xs ++ ys) = apply_quality_filters xs ++ apply_quality_filters ys.
Proof.
  induction xs as [|c xs IH]; [done|]. simpl.
  destruct (_ && _); simpl; by rewrite IH.
Qed.

Lemma apply_quality_filters_length chunks :
  (length (apply_quality_filters chunks) <= length chunks)%nat.
Proof.
  induction chunks as [|c chunks IH]; simpl; [done|].
  destruct (_ && _); simpl; lia.
Qed.

(** X9.  [apply_quality_filters] judges every chunk on its own: filtering
    a list in two parts and joining the results is filtering the whole
    list.  It never returns more chunks than it receives, and a chunk it
    returns has the URL and position of a chunk of the input, with a text
    that is not empty, is not longer than the original, has no white space
    at either end and no line boundary other than the line feed. *)
Theorem quality_filter_is_chunkwise xs ys :
  apply_quality_filters (xs ++ ys) = apply_quality_filters xs ++ apply_quality_filters ys
  ∧ (length (apply_quality_filters xs) <= length xs)%nat
  ∧ ∀ c', c' ∈ apply_quality_filters xs →
      ∃ c, c ∈ xs ∧ url c' = url c ∧ position c' = position c
           ∧ chunk c' ≠ []
           ∧ (length (chunk c') <= length (chunk c))%nat
           ∧ Py.strip (chunk c') = chunk c'
           ∧ ∀ x, x ∈ chunk c' → Py.is_linebreak x = true → x = LF.
Proof.
  split; [apply apply_quality_filters_app|].
  split; [apply apply_quality_filters_length|].
  intros c' (c & Hc & -> & Hne & _)%apply_quality_filters_elem.
  exists c. simpl. repeat split; try done.
  - unfold clean_chunk_text.
    pose proof (strip_length (Py.join [LF] (map clean_line (Py.splitlines (chunk c))))).
    pose proof (join_length (map clean_line (Py.splitlines (chunk c)))).
    pose proof (lines_weight_map clean_line (Py.splitlines (chunk c)) clean_line_length).
    pose proof (splitlines_weight (chunk c)).
    lia.
  - apply strip_idemp.
  - apply (proj1 (Forall_forall (λ x, Py.is_linebreak x = true → x = LF) _)).
    apply clean_chunk_text_Forall; [done|done|].
    intros line Hline.
    pose proof (splitlines_break_free (chunk c)) as Hall.
    rewrite Forall_forall in Hall. specialize (Hall line Hline).
    eapply Forall_impl; [exact Hall|]. intros x Hx Hbreak. simpl in Hx. congruence.
Qed.

End FilterShape.

(** ** What the merge loop of [h1_heading_based_chunking] emits *)
Section MergeLoop.
Context `{libs : Collaborators}.

Import ForwardScan.

Lemma h1_forward_scan_length heading_line h cs co th rest :
  ∀ i p,
    (1 <= length (h1_forward_scan heading_line h cs co th i p rest))%nat
    ∧ (length (h1_forward_scan heading_line h cs co th i p rest) <= S (length rest))%nat.
Proof.
  induction rest as [|next rest IH]; intros i p; cbn [h1_forward_scan]; cbv zeta.
  - simpl. lia.
  - destruct (_ && _).
    + specialize (IH (S i) (Py.strip p ++ NLNL ++ Py.strip next)). cbn [length]. lia.
    + specialize (IH (S i) next). cbn [length]. lia.
Qed.

(** X10.  The overflow branch of [h1_heading_based_chunking] emits at
    least one chunk when the splitter returned a sub-piece, and never more
    chunks than sub-pieces: a merge makes one chunk of two sub-pieces and
    nothing is emitted twice. *)
Theorem h1_overflow_chunk_count heading_line h chunk_size continuation_overhead
    threshold sub_chunks :
  let emitted :=
    h1_sub_chunk_loop heading_line h chunk_size continuation_overhead threshold
      (length sub_chunks) 0 sub_chunks in
  (length emitted <= length sub_chunks)%nat
  ∧ (emitted = [] ↔ sub_chunks = []).
Proof.
  cbv zeta. destruct sub_chunks as [|first rest]; [done|].
  rewrite (h1_sub_chunk_loop_scan heading_line h _ _ _ rest [] first).
  change (length (@nil str)) with 0%nat.
  destruct (h1_forward_scan_length heading_line h chunk_size continuation_overhead
              threshold rest 0%nat first) as [Hge Hle].
  split; [simpl in *; lia|]. split; [|done].
  intros Hnil. rewrite Hnil in Hge. simpl in Hge. lia.
Qed.

(** A text [x] occurs in a text [y]. *)
Lemma occurs_refl (x : str) : ∃ pre post, x = pre ++ x ++ post.
Proof. exists [], []. by rewrite app_nil_r. Qed.

Lemma trimmed_sides x :
  Py.strip x = x → Py.lstrip x = x ∧ Py.rstrip x = x.
Proof.
  intros Hx. split.
  - rewrite <- Hx at 1. unfold Py.strip. by rewrite lstrip_idemp.
  - rewrite <- Hx at 1. unfold Py.strip. by rewrite lstrip_rstrip, rstrip_idemp,
      <- lstrip_rstrip.
Qed.

Lemma strip_keeps_trimmed x a b :
  Py.strip x = x →
  ∃ pre post, Py.strip (a ++ x ++ b) = pre ++ x ++ post.
Proof.
  intros Hx. destruct x as [|c x].
  { exists (Py.strip (a ++ [] ++ b)), []. by rewrite !app_nil_r. }
  destruct (trimmed_sides _ Hx) as [Hl Hr].
  assert (∃ post, Py.rstrip ((c :: x) ++ b) = (c :: x) ++ post) as [post Hpost].
  { rewrite rstrip_app. destruct (Py.rstrip b) as [|r rs].
    - exists []. by rewrite Hr, app_nil_r.
    - by exists (r :: rs). }
  assert (Py.rstrip (a ++ (c :: x) ++ b) = a ++ (c :: x) ++ post) as Hrs.
  { rewrite rstrip_app, Hpost. done. }
  unfold Py.strip. rewrite Hrs. unfold Py.lstrip.
  rewrite drop_while_app. destruct (forallb Py.isspace a).
  - exists [], post. rewrite drop_while_app.
    destruct (forallb Py.isspace (c :: x)) eqn:Hall.
    + apply lstrip_nil_iff in Hall. congruence.
    + fold (Py.lstrip (c :: x)). by rewrite Hl.
  - by exists (drop_while Py.isspace a), post.
Qed.

Lemma occurs_strip x y :
  Py.strip x = x →
  (∃ pre post, y = pre ++ x ++ post) →
  ∃ pre post, Py.strip y = pre ++ x ++ post.
Proof. intros Hx (pre & post & ->). by apply strip_keeps_trimmed. Qed.

Lemma label_suffix i heading_line body :
  ∃ pre, (if bool_decide (i = 0%nat) then with_heading_line heading_line body
          else with_continuation heading_line body) = pre ++ body.
Proof.
  destruct (bool_decide (i = 0%nat)), heading_line as [|c hl]; simpl.
  - by exists [].
  - exists ((c :: hl) ++ NLNL). by rewrite <- app_assoc.
  - exists (CONTINUED ++ NLNL). by rewrite <- app_assoc.
  - exists ((c :: hl) ++ [32] ++ CONTINUED ++ NLNL). by rewrite <- !app_assoc.
Qed.

Lemma h1_forward_scan_keeps heading_line h cs co th x rest :
  Py.strip x = x →
  ∀ i p,
    (∃ r, r ∈ p :: rest ∧ ∃ pre post, Py.strip r = pre ++ x ++ post) →
    ∃ c, c ∈ h1_forward_scan heading_line h cs co th i p rest
         ∧ ∃ pre post, text c = pre ++ x ++ post.
Proof.
  intros Hx.
  assert (∀ i p, (∃ pre post, Py.strip p = pre ++ x ++ post) →
            ∃ pre post,
              (if bool_decide (i = 0%nat) then with_heading_line heading_line (Py.strip p)
               else with_continuation heading_line (Py.strip p)) = pre ++ x ++ post)
    as Hemit.
  { intros i p (pre & post & Hp). destruct (label_suffix i heading_line (Py.strip p))
      as [lab ->]. exists (lab ++ pre), post. by rewrite Hp, <- app_assoc. }
  induction rest as [|next rest IH]; intros i p (r & Hr & Hocc);
    cbn [h1_forward_scan]; cbv zeta.
  - apply list_elem_of_singleton in Hr as ->.
    eexists. split; [by left|]. simpl. by apply Hemit.
  - destruct (_ && _).
    + apply IH. apply elem_of_cons in Hr as [->|Hr].
      * exists (Py.strip p ++ NLNL ++ Py.strip next). split; [by left|].
        apply occurs_strip; [done|]. destruct Hocc as (pre & post & ->).
        exists pre, (post ++ NLNL ++ Py.strip next). by rewrite <- !app_assoc.
      * apply elem_of_cons in Hr as [->|Hr]; [|exists r; split; [by right|done]].
        exists (Py.strip p ++ NLNL ++ Py.strip next). split; [by left|].
        apply occurs_strip; [done|]. destruct Hocc as (pre & post & ->).
        exists (Py.strip p ++ NLNL ++ pre), post. by rewrite <- !app_assoc.
    + apply elem_of_cons in Hr as [->|Hr].
      * eexists. split; [by left|]. simpl. by apply Hemit.
      * destruct (IH (S i) next) as (c & Hc & Hc'); [by exists r|].
        exists c. split; [by right|done].
Qed.

(** X11.  The merge loop loses no text: the stripped form of every
    sub-piece the splitter returned occurs, whole, in the text of one of the
    chunks the overflow branch of [h1_heading_based_chunking] emits,
    whether the sub-piece was emitted on its own or merged forward into a
    later chunk. *)
Theorem h1_merge_loop_loses_no_text heading_line h chunk_size continuation_overhead
    threshold sub_chunks q :
  q ∈ sub_chunks →
  ∃ c, c ∈ h1_sub_chunk_loop heading_line h chunk_size continuation_overhead
             threshold (length sub_chunks) 0 sub_chunks
       ∧ ∃ pre post, text c = pre ++ Py.strip q ++ post.
Proof.
  intros Hq. destruct sub_chunks as [|first rest]; [by apply elem_of_nil in Hq|].
  rewrite (h1_sub_chunk_loop_scan heading_line h _ _ _ rest [] first).
  apply h1_forward_scan_keeps; [apply strip_idemp|].
  exists q. split; [done|apply occurs_refl].
Qed.

End MergeLoop.

(** ** Where the merge step departs from the specification

    Both theorems are for any tokenizer and any splitter; their
    hypotheses say what these returned.  The splitter measures the pieces
    with the length function it was built with and strips them, and the
    merge test counts them again, one by one, with [count_tokens]: two
    sub-pieces the splitter kept apart can pass the test. *)
Section MergeDefects.
Context `{libs : Collaborators}.

Import ForwardScan.

Lemma h1_forward_scan_continued heading_line h cs co th rest :
  ∀ i p c,
    i ≠ 0%nat →
    c ∈ h1_forward_scan heading_line h cs co th i p rest →
    ∃ body, text c = with_continuation heading_line body.
Proof.
  induction rest as [|next rest IH]; intros i p c Hi; cbn [h1_forward_scan]; cbv zeta.
  - intros ->%list_elem_of_singleton. cbn [text].
    rewrite bool_decide_false by done. by eexists.
  - destruct (_ && _).
    + by apply IH.
    + intros [->|Hin]%elem_of_cons; [|by apply (IH (S i) next c)].
      cbn [text]. rewrite bool_decide_false by done. by eexists.
Qed.

Lemma h1_section_overflow chunk_size chunk_overlap threshold doc h :
  get_truthy "H1" (metadata doc) = Some h →
  (chunk_size < count_tokens ((u "# " ++ h) ++ NLNL ++ Py.strip (page_content doc)))%Z →
  h1_section chunk_size chunk_overlap threshold doc
  = h1_sub_chunk_loop (u "# " ++ h) h chunk_size
      (count_tokens ((u "# " ++ h) ++ u " (continued)" ++ NLNL)) threshold
      (length (split_text
                 (chunk_size - count_tokens ((u "# " ++ h) ++ u " (continued)" ++ NLNL))%Z
                 chunk_overlap (Py.strip (page_content doc))))
      0
      (split_text
         (chunk_size - count_tokens ((u "# " ++ h) ++ u " (continued)" ++ NLNL))%Z
         chunk_overlap (Py.strip (page_content doc))).
Proof.
  intros H1 Hover. unfold h1_section. rewrite H1.
  change (with_heading_line (u "# " ++ h) (Py.strip (page_content doc)))
    with ((u "# " ++ h) ++ NLNL ++ Py.strip (page_content doc)).
  by rewrite (proj2 (Z.leb_gt _ _) Hover).
Qed.

(** C1.  The merge test of [h1_heading_based_chunking] leaves the blank
    line that joins the two sub-pieces out of its sum.  Let a level-1
    section overflow and be split into three sub-pieces, of which the
    first is not merged with the second, while the second and the third
    pass the merge test.  Then the section gives two chunks, the second
    and third sub-piece form the last one, and where the token count of
    that chunk is the sum of the counts of its parts, and the test passed
    with less to spare than the joiner costs, the chunk exceeds
    [chunk_size], although each of its two sub-pieces fits the budget. *)
Theorem merged_chunk_exceeds_chunk_size chunk_size chunk_overlap threshold doc h p0 p1 p2 :
  let heading_line := u "# " ++ h in
  let section_text := Py.strip (page_content doc) in
  let continued := heading_line ++ u " (continued)" ++ NLNL in
  let continuation_overhead := count_tokens continued in
  let merged := continued ++ Py.strip (Py.strip p1 ++ NLNL ++ Py.strip p2) in
  get_truthy "H1" (metadata doc) = Some h →
  (chunk_size < count_tokens (heading_line ++ NLNL ++ section_text))%Z →
  split_text (chunk_size - continuation_overhead)%Z chunk_overlap section_text
  = [p0; p1; p2] →
  (chunk_size < count_tokens (Py.strip p0) + count_tokens p1 + continuation_overhead
   ∨ threshold <= count_tokens p1)%Z →
  (count_tokens (Py.strip p1) + count_tokens p2 + continuation_overhead <= chunk_size)%Z →
  (count_tokens p2 < threshold)%Z →
  (count_tokens merged
   = continuation_overhead + count_tokens (Py.strip p1) + count_tokens NLNL
     + count_tokens p2)%Z →
  (chunk_size
   < count_tokens (Py.strip p1) + count_tokens p2 + continuation_overhead
     + count_tokens NLNL)%Z →
  h1_section chunk_size chunk_overlap threshold doc
  = [ {| text := heading_line ++ NLNL ++ Py.strip p0; heading := Some h |};
      {| text := merged; heading := Some h |} ]
  ∧ (chunk_size < count_tokens merged)%Z
  ∧ (count_tokens (Py.strip p1) <= chunk_size - continuation_overhead)%Z
  ∧ (count_tokens p2 <= chunk_size - continuation_overhead)%Z.
Proof.
  cbv zeta. intros H1 Hover Hsplit Hkeep Htest Hsmall Hsum Hslack.
  split; [|unfold count_tokens in *; lia].
  rewrite (h1_section_overflow _ _ _ _ h H1 Hover), Hsplit.
  change (length [p0; p1; p2]) with 3%nat.
  rewrite h1_sub_chunk_loop_S. cbn [lookup list_lookup length]. cbv zeta.
  rewrite bool_decide_true by (simpl; lia).
  apply Z.leb_le in Htest. apply Z.ltb_lt in Hsmall.
  assert (((count_tokens (Py.strip p0) + count_tokens p1
            + count_tokens ((u "# " ++ h) ++ u " (continued)" ++ NLNL)
            <=? chunk_size)
           && (count_tokens p1 <? threshold))%Z = false) as ->.
  { apply andb_false_iff. destruct Hkeep as [?|?]; [left|right].
    - by apply Z.leb_gt.
    - by apply Z.ltb_ge. }
  rewrite bool_decide_true by done.
  pose proof (h1_sub_chunk_loop_merge (u "# " ++ h) h chunk_size
                (count_tokens ((u "# " ++ h) ++ u " (continued)" ++ NLNL))
                threshold [p0] p1 p2) as Hmerge.
  change (length [p0]) with 1%nat in Hmerge.
  change ([p0] ++ [p1; p2]) with [p0; p1; p2] in Hmerge.
  rewrite Hmerge by (by rewrite Htest, Hsmall).
  f_equal. do 2 f_equal. simpl. by rewrite <- !app_assoc.
Qed.

(** C2.  The label of a chunk is chosen by the index at which the loop
    emits it, not by the sub-piece it begins with.  Let a level-1 section
    overflow and the first two of its sub-pieces pass the merge test.
    Then nothing is emitted at index 0: every chunk of the section,
    and there is one, begins with the heading line followed by
    [(continued)], none with the bare heading line and a blank line, and
    the text of sub-piece 0 lies in one of these chunks. *)
Theorem first_chunk_labelled_continued chunk_size chunk_overlap threshold doc h p0 p1 rest :
  let heading_line := u "# " ++ h in
  let section_text := Py.strip (page_content doc) in
  let continued := heading_line ++ u " (continued)" ++ NLNL in
  let continuation_overhead := count_tokens continued in
  let emitted := h1_section chunk_size chunk_overlap threshold doc in
  get_truthy "H1" (metadata doc) = Some h →
  (chunk_size < count_tokens (heading_line ++ NLNL ++ section_text))%Z →
  split_text (chunk_size - continuation_overhead)%Z chunk_overlap section_text
  = p0 :: p1 :: rest →
  (count_tokens (Py.strip p0) + count_tokens p1 + continuation_overhead <= chunk_size)%Z →
  (count_tokens p1 < threshold)%Z →
  emitted ≠ []
  ∧ (∀ c, c ∈ emitted →
       (∃ body, text c = continued ++ body)
       ∧ ∀ body, text c ≠ heading_line ++ NLNL ++ body)
  ∧ ∃ c pre post, c ∈ emitted ∧ text c = pre ++ Py.strip p0 ++ post.
Proof.
  cbv zeta. intros H1 Hover Hsplit Htest Hsmall.
  set (heading_line := u "# " ++ h) in *.
  set (continued := heading_line ++ u " (continued)" ++ NLNL) in *.
  assert (h1_section chunk_size chunk_overlap threshold doc
          = h1_forward_scan heading_line h chunk_size (count_tokens continued) threshold
              1 (Py.strip p0 ++ NLNL ++ Py.strip p1) rest) as Hscan.
  { rewrite (h1_section_overflow _ _ _ _ h H1 Hover).
    fold heading_line. fold continued. rewrite Hsplit.
    rewrite (h1_sub_chunk_loop_scan _ h _ _ _ (p1 :: rest) [] p0).
    cbn [h1_forward_scan length]. cbv zeta.
    apply Z.leb_le in Htest. apply Z.ltb_lt in Hsmall.
    by rewrite Htest, Hsmall. }
  rewrite Hscan. split; [|split].
  - intros Hnil.
    destruct (h1_forward_scan_length heading_line h chunk_size (count_tokens continued)
                threshold rest 1 (Py.strip p0 ++ NLNL ++ Py.strip p1)) as [Hge _].
    rewrite Hnil in Hge. simpl in Hge. lia.
  - intros c Hc.
    destruct (h1_forward_scan_continued _ _ _ _ _ _ _ _ _ ltac:(done) Hc) as [body Hbody].
    assert (text c = continued ++ body) as Htext.
    { rewrite Hbody. unfold continued, heading_line. simpl. by rewrite <- !app_assoc. }
    split; [by exists body|].
    intros body' Heq. rewrite Htext in Heq. unfold continued, heading_line in Heq.
    rewrite <- !app_assoc in Heq. do 2 apply app_inv_head in Heq. done.
  - destruct (h1_forward_scan_keeps heading_line h chunk_size (count_tokens continued)
                threshold (Py.strip p0) rest (strip_idemp p0) 1
                (Py.strip p0 ++ NLNL ++ Py.strip p1)) as (c & Hc & pre & post & Htext).
    { exists (Py.strip p0 ++ NLNL ++ Py.strip p1). split; [by left|].
      apply occurs_strip; [apply strip_idemp|].
      exists [], (NLNL ++ Py.strip p1). done. }
    by exists c, pre, post.
Qed.

End MergeDefects.

(** ** [s.split(sep)[-1]], as the URL rule and [generate_artifact] use it *)
Section LastPiece.

Local Arguments N.eqb : simpl never.

Lemma contains_app_false (sep acc : str) :
  sep ≠ [] →
  (∀ a1 a2, acc = a1 ++ a2 → a2 ≠ [] → Py.startswith sep a2 = false) →
  Py.contains sep acc = false.
Proof.
  intros Hsep. induction acc as [|c acc IH]; intros Hinv.
  - destruct sep; [done|]. reflexivity.
  - simpl. rewrite (Hinv [] (c :: acc) eq_refl) by done. simpl.
    apply IH. intros a1 a2 -> Hne. by apply (Hinv (c :: a1) a2).
Qed.

Lemma split_last_from_spec (sep : str) :
  ∀ s skip acc,
    (skip ≠ 0%nat → acc = []) →
    (∀ a1 a2, acc = a1 ++ a2 → a2 ≠ [] → Py.startswith sep (a2 ++ s) = false) →
    let r := Py.split_last_from sep skip acc s in
    (∃ pre, acc ++ s = pre ++ r)
    ∧ (∀ a1 a2, r = a1 ++ a2 → a2 ≠ [] → Py.startswith sep a2 = false).
Proof.
  induction s as [|c s IH]; intros skip acc Hskip Hinv; simpl.
  - split; [exists []; by rewrite app_nil_r|]. intros a1 a2 -> Hne.
    specialize (Hinv a1 a2 eq_refl Hne). by rewrite app_nil_r in Hinv.
  - destruct skip as [|k].
    + destruct (Py.startswith sep (c :: s)) eqn:Hstart.
      * destruct (IH (length sep - 1)%nat []) as [[pre Hpre] Hr]; [done|..].
        { intros a1 a2 Hnil Hne. by destruct a1, a2. }
        split; [|done]. exists (acc ++ c :: pre). simpl in Hpre.
        rewrite <- app_assoc. simpl. by rewrite <- Hpre.
      * destruct (IH 0%nat (acc ++ [c])) as [[pre Hpre] Hr]; [done|..].
        { intros a1 a2 Happ Hne.
          destruct (decide (a2 = [c])) as [->|Hc]; [done|].
          assert (∃ a2', a2 = a2' ++ [c] ∧ a2' ≠ []) as (a2' & -> & Hne').
          { destruct a2 as [|x a2 _] using rev_ind; [done|].
            rewrite app_assoc in Happ. apply app_inj_tail in Happ as [_ ->].
            exists a2. split; [done|]. intros ->. done. }
          rewrite app_assoc in Happ. apply app_inj_tail in Happ as [-> _].
          rewrite <- app_assoc. by apply (Hinv a1 a2'). }
        split; [|done]. exists pre. rewrite <- Hpre, <- app_assoc. done.
    + rewrite (Hskip ltac:(done)). 
      destruct (IH k []) as [[pre Hpre] Hr].
      * done.
      * intros a1 a2 Hnil Hne. by destruct a1, a2.
      * split; [|done]. exists (c :: pre). simpl in *. by rewrite <- Hpre.
Qed.

Lemma split_last_spec sep s :
  sep ≠ [] →
  (∃ pre, s = pre ++ Py.split_last sep s)
  ∧ Py.contains sep (Py.split_last sep s) = false.
Proof.
  intros Hsep. unfold Py.split_last.
  destruct (split_last_from_spec sep s 0 []) as [Hpre Hr]; [done|..].
  { intros a1 a2 Hnil Hne. by destruct a1, a2. }
  split; [done|]. by apply contains_app_false.
Qed.

Lemma lstrip_char_suffix c s : ∃ pre, s = pre ++ Py.lstrip_char c s.
Proof. apply drop_while_suffix. Qed.

(** X12.  The URL [get_html_chunks] gives the chunks of a document is the
    storage path itself or one of the three site prefixes followed by a
    tail of the storage path; and a tail taken after a marker, by
    [split(marker)[-1]], no longer contains the marker. *)
Theorem chunk_url_is_prefix_and_tail metadata_storage_path :
  (chunk_url metadata_storage_path = metadata_storage_path
   ∨ ∃ site tail pre,
       site ∈ [u "https://docs.ifs.com/techdocs/25r1";
               u "https://docs.ifs.com/ifsclouddocs/25r1/";
               u "https://docs.ifs.com/techdocs/ale/"]
       ∧ chunk_url metadata_storage_path = site ++ tail
       ∧ metadata_storage_path = pre ++ tail)
  ∧ (∀ marker, marker ≠ [] →
       Py.contains marker (Py.split_last marker metadata_storage_path) = false).
Proof.
  split; [|intros marker Hm; by apply split_last_spec].
  unfold chunk_url. cbv zeta.
  assert (∀ marker : str, marker ≠ [] →
            ∃ pre, metadata_storage_path = pre ++ Py.split_last marker metadata_storage_path)
    as Htail by (intros marker Hm; by apply split_last_spec).
  destruct (_ || _).
  - right.
    destruct (Py.contains (u "/techdocs25r1") _).
    + destruct (Htail (u "/techdocs25r1")) as [pre Hpre]; [done|].
      eexists _, _, pre. split; [by left|]. split; [done|exact Hpre].
    + destruct (lstrip_char_suffix 47 metadata_storage_path) as [pre Hpre].
      eexists _, _, pre. split; [by left|]. split; [done|exact Hpre].
  - destruct (_ || _).
    + right.
      destruct (Py.contains (u "/en/") _).
      * destruct (Htail (u "/en/")) as [pre Hpre]; [done|].
        eexists _, _, pre. split; [by right; left|]. split; [done|exact Hpre].
      * destruct (lstrip_char_suffix 47 metadata_storage_path) as [pre Hpre].
        eexists _, _, pre. split; [by right; left|]. split; [done|exact Hpre].
    + destruct (_ || _); [|by left].
      right.
      destruct (Htail (u "/aledoc25r1")) as [pre Hpre]; [done|].
      eexists _, _, pre. split; [by right; right; left|]. split; [done|exact Hpre].
Qed.

End LastPiece.

(** ** The artifacts of [generate_artifact] *)
Section Artifacts.

Import Utils.

Variable sha256_hexdigest : list Byte.byte → str.

Local Arguments N.eqb : simpl never.
Local Arguments N.ltb : simpl never.
Local Arguments N.leb : simpl never.

Lemma pretty_N_char_digit x : is_digit (Ascii.N_of_ascii (pretty_N_char x)).
Proof.
  unfold pretty_N_char, is_digit. repeat case_match; vm_compute; split; discriminate.
Qed.

Lemma pretty_N_go_digits x :
  ∀ s, Forall is_digit (u s) → Forall is_digit (u (pretty_N_go x s)).
Proof.
  induction (N.lt_wf_0 x) as [x _ IH]; intros s Hs.
  destruct (decide (x = 0)) as [->|Hx]; [by rewrite pretty_N_go_0|].
  rewrite pretty_N_go_step by lia. apply IH; [apply N.div_lt; lia|].
  constructor; [apply pretty_N_char_digit|done].
Qed.

Lemma str_of_nat_digits n : Forall is_digit (str_of_nat n).
Proof.
  unfold str_of_nat, pretty, pretty_nat, pretty, pretty_N.
  destruct (decide (N.of_nat n = 0)).
  - repeat constructor; vm_compute; discriminate.
  - apply pretty_N_go_digits. constructor.
Qed.

Lemma u_inj s1 s2 : u s1 = u s2 → s1 = s2.
Proof.
  unfold u. intros H.
  assert (String.list_ascii_of_string s1 = String.list_ascii_of_string s2) as Hl.
  { revert H. generalize (String.list_ascii_of_string s1) (String.list_ascii_of_string s2).
    induction l as [|a l IH]; intros [|b l']; simpl; try done.
    intros [= Hab Hl]. f_equal; [|by apply IH].
    by rewrite <- (Ascii.ascii_N_embedding a), <- (Ascii.ascii_N_embedding b), Hab. }
  by rewrite <- (String.string_of_list_ascii_of_string s1),
             <- (String.string_of_list_ascii_of_string s2), Hl.
Qed.

Lemma str_of_nat_inj m n : str_of_nat m = str_of_nat n → m = n.
Proof. intros H%u_inj. by apply (inj pretty) in H. Qed.

Lemma to_N_byte_of c : c < 256 → Byte.to_N (Codec.byte_of c) = c.
Proof.
  intros Hc. unfold Codec.byte_of. rewrite N.mod_small by done.
  destruct (Byte.of_N c) as [b|] eqn:Hb; [by apply Byte.to_of_N|].
  apply Byte.of_N_None_iff in Hb. lia.
Qed.

Lemma utf8_encode_ascii s :
  Forall (λ c, c < 128) s → utf8_encode s = Some (Codec.byte_of <$> s).
Proof.
  intros Hs. unfold utf8_encode.
  assert (mapM utf8_encode_char s = Some ((λ c, [Codec.byte_of c]) <$> s)) as ->.
  { apply mapM_Some_2. induction Hs as [|c s Hc _ IH]; constructor; [|done].
    unfold utf8_encode_char. by destruct (N.ltb_spec c 128); [|lia]. }
  simpl. f_equal. clear Hs. induction s as [|c s IH]; [done|].
  csimpl. by rewrite IH.
Qed.

Lemma ascii_bytes_inj s1 s2 :
  Forall (λ c, c < 128) s1 → Forall (λ c, c < 128) s2 →
  Codec.byte_of <$> s1 = Codec.byte_of <$> s2 → s1 = s2.
Proof.
  intros H1. revert s2. induction H1 as [|c s1 Hc _ IH]; intros s2 H2 Heq.
  - by destruct s2.
  - destruct H2 as [|d s2 Hd H2]; [done|]. csimpl in Heq.
    injection Heq as Hcd Hrest. f_equal; [|by apply IH].
    by rewrite <- (to_N_byte_of c), <- (to_N_byte_of d), Hcd by lia.
Qed.

Lemma digits_ascii s : Forall is_digit s → Forall (λ c, c < 128) s.
Proof. intros Hs. eapply Forall_impl; [exact Hs|]. intros c [_ ?]. simpl. lia. Qed.

Lemma hash_input_encodes path_bytes pos :
  utf8_encode (Codec.b64encode path_bytes ++ str_of_nat pos)
  = Some (Codec.byte_of <$> (Codec.b64encode path_bytes ++ str_of_nat pos)).
Proof.
  apply utf8_encode_ascii, Forall_app. split; [apply b64encode_ascii|].
  apply digits_ascii, str_of_nat_digits.
Qed.

(** The artifact made of one chunk when the storage path can be encoded. *)
Lemma artifact_of_Some metadata_paths html_title metadata_storage_path c path_bytes :
  utf8_encode metadata_storage_path = Some path_bytes →
  artifact_of sha256_hexdigest metadata_paths html_title metadata_storage_path c
  = Some {| title := html_title;
            parent_id := Codec.b64encode path_bytes;
            location := url c;
            chunk := Chunking.chunk c;
            category := metadata_paths;
            name := if bool_decide (url c = []) then u "unknown"
                    else Py.split_last [47] (url c);
            chunk_id := sha256_hexdigest
                          (Codec.byte_of <$> (Codec.b64encode path_bytes
                                               ++ str_of_nat (position c))) |}.
Proof.
  intros Hpath. unfold artifact_of. cbv zeta. rewrite Hpath. csimpl.
  by rewrite hash_input_encodes.
Qed.

Lemma artifact_of_None metadata_paths html_title metadata_storage_path c :
  utf8_encode metadata_storage_path = None →
  artifact_of sha256_hexdigest metadata_paths html_title metadata_storage_path c = None.
Proof. intros Hpath. unfold artifact_of. cbv zeta. by rewrite Hpath. Qed.

Lemma generate_artifact_Some chunks metadata_paths html_title metadata_storage_path
    path_bytes :
  utf8_encode metadata_storage_path = Some path_bytes →
  generate_artifact sha256_hexdigest chunks metadata_paths html_title metadata_storage_path
  = mapM (artifact_of sha256_hexdigest metadata_paths html_title metadata_storage_path)
         chunks
  ∧ ∃ arts,
      generate_artifact sha256_hexdigest chunks metadata_paths html_title
        metadata_storage_path = Some arts
      ∧ Forall2 (λ c a, artifact_of sha256_hexdigest metadata_paths html_title
                          metadata_storage_path c = Some a) chunks arts.
Proof.
  intros Hpath. split; [done|]. unfold generate_artifact.
  assert (∃ arts, Forall2 (λ c a, artifact_of sha256_hexdigest metadata_paths html_title
                                    metadata_storage_path c = Some a) chunks arts)
    as [arts Hall].
  { induction chunks as [|c chunks [arts Hall]]; [exists []; constructor|].
    eexists (_ :: arts). constructor; [by apply artifact_of_Some|done]. }
  exists arts. split; [by apply mapM_Some_2|done].
Qed.

Lemma contains_char_false c s : Py.contains [c] s = false → c ∉ s.
Proof.
  induction s as [|d s IH]; simpl; [intros _ ?%elem_of_nil; done|].
  destruct (N.eqb_spec c d) as [->|Hcd]; simpl; [done|].
  intros Hs [->|Hin]%elem_of_cons; [done|]. by apply IH.
Qed.

(** X13.  [generate_artifact] fails only on a storage path that cannot be
    encoded as UTF-8, and then only when there is a chunk to process: the
    text it hashes for the chunk id is ASCII and always encodes.  When it
    returns, it returns one artifact per chunk, in the order of the
    chunks; the artifact carries the URL and text of its chunk, the title
    and the categories; its name contains no slash and is the end of the
    URL, or [unknown] for an empty URL; and its parent id decodes, as
    base64, to the bytes of the storage path. *)
Theorem generate_artifact_fields chunks metadata_paths html_title metadata_storage_path :
  (generate_artifact sha256_hexdigest chunks metadata_paths html_title
     metadata_storage_path = None
   ↔ chunks ≠ [] ∧ utf8_encode metadata_storage_path = None)
  ∧ ∀ arts,
      generate_artifact sha256_hexdigest chunks metadata_paths html_title
        metadata_storage_path = Some arts →
      length arts = length chunks
      ∧ ∀ i a, arts !! i = Some a →
          ∃ c, chunks !! i = Some c
               ∧ title a = html_title
               ∧ location a = url c
               ∧ Utils.chunk a = Chunking.chunk c
               ∧ category a = metadata_paths
               ∧ (47 ∉ name a)
               ∧ ((url c = [] ∧ name a = u "unknown")
                  ∨ (url c ≠ [] ∧ ∃ pre, url c = pre ++ name a))
               ∧ ∃ path_bytes,
                   utf8_encode metadata_storage_path = Some path_bytes
                   ∧ Codec.b64decode (parent_id a) = Codec.Ok path_bytes.
Proof.
  destruct (utf8_encode metadata_storage_path) as [path_bytes|] eqn:Hpath.
  - destruct (generate_artifact_Some chunks metadata_paths html_title _ _ Hpath)
      as (_ & arts & Harts & Hall).
    rewrite Harts. split; [split; [done|by intros [_ ?]]|].
    intros ? [= <-]. split; [symmetry; by eapply Forall2_length|].
    intros i a Hi.
    destruct (Forall2_lookup_r _ _ _ _ _ Hall Hi) as (c & Hc & Hca).
    rewrite (artifact_of_Some _ _ _ _ _ Hpath) in Hca. injection Hca as <-.
    exists c. simpl. repeat split; try done.
    + destruct (bool_decide (url c = [])); [by apply contains_char_false|].
      apply contains_char_false. by apply split_last_spec.
    + destruct (bool_decide_reflect (url c = [])) as [He|Hne]; [by left|].
      right. split; [done|]. by apply split_last_spec.
    + exists path_bytes. split; [done|apply b64decode_b64encode].
  - split.
    + destruct chunks as [|c chunks]; [by split; [|intros [? _]]|].
      split; [done|]. intros _. unfold generate_artifact. csimpl.
      by rewrite artifact_of_None.
    + intros arts. destruct chunks as [|c chunks].
      * intros [= <-]. split; [done|]. by intros i a ?.
      * unfold generate_artifact. csimpl. by rewrite artifact_of_None.
Qed.

(** X14.  Within one document no two chunk ids are the digest of the
    same bytes: where positions increase strictly along the chunks, as
    they do along the list the quality filter returns, the byte strings
    [generate_artifact] hands to SHA-256 are pairwise distinct. *)
Theorem chunk_ids_hash_distinct_inputs chunks metadata_paths html_title
    metadata_storage_path arts :
  (∀ i j c d, (i < j)%nat → chunks !! i = Some c → chunks !! j = Some d →
              (position c < position d)%nat) →
  generate_artifact sha256_hexdigest chunks metadata_paths html_title
    metadata_storage_path = Some arts →
  ∃ inputs, NoDup inputs ∧ chunk_id <$> arts = sha256_hexdigest <$> inputs.
Proof.
  intros Hinc Harts.
  destruct (utf8_encode metadata_storage_path) as [path_bytes|] eqn:Hpath.
  - destruct (generate_artifact_Some chunks metadata_paths html_title _ _ Hpath)
      as (_ & arts' & Harts' & Hall).
    rewrite Harts in Harts'. injection Harts' as <-.
    set (input := λ c : positioned_chunk,
           Codec.byte_of <$> (Codec.b64encode path_bytes ++ str_of_nat (position c))).
    exists (input <$> chunks). split.
    + apply NoDup_alt. intros i j x Hi Hj.
      rewrite list_lookup_fmap in Hi, Hj.
      destruct (chunks !! i) as [c|] eqn:Hc; [|done].
      destruct (chunks !! j) as [d|] eqn:Hd; [|done].
      simpl in Hi, Hj. injection Hi as <-. injection Hj as Heq.
      apply ascii_bytes_inj in Heq.
      * apply app_inv_head, str_of_nat_inj in Heq.
        destruct (Nat.lt_trichotomy i j) as [Hlt|[?|Hlt]]; [|done|].
        -- specialize (Hinc i j c d Hlt Hc Hd). lia.
        -- specialize (Hinc j i d c Hlt Hd Hc). lia.
      * apply Forall_app. split; [apply b64encode_ascii|].
        apply digits_ascii, str_of_nat_digits.
      * apply Forall_app. split; [apply b64encode_ascii|].
        apply digits_ascii, str_of_nat_digits.
    + clear Hinc Harts. induction Hall as [|c a chunks arts Hca _ IH]; [done|].
      csimpl. rewrite IH. f_equal.
      rewrite (artifact_of_Some _ _ _ _ _ Hpath) in Hca. by injection Hca as <-.
  - destruct chunks as [|c chunks].
    + injection Harts as <-. exists []. split; [constructor|done].
    + unfold generate_artifact in Harts. csimpl in Harts.
      by rewrite artifact_of_None in Harts.
Qed.

End Artifacts.

(** ** UTF-8: what [str.encode] writes, [bytes.decode] reads back *)
Section Utf8.
Context `{libs : Collaborators}.

Import Utils.

Local Arguments N.eqb : simpl never.
Local Arguments N.ltb : simpl never.
Local Arguments N.leb : simpl never.
Local Arguments N.div : simpl never.
Local Arguments N.modulo : simpl never.
Local Arguments N.mul : simpl never.
Local Arguments N.add : simpl never.
Local Arguments N.sub : simpl never.

Local Ltac euclid := zify; Z.to_euclidean_division_equations; lia.

Local Ltac compare :=
  repeat match goal with
         | |- context [N.eqb ?a ?b] =>
           destruct (N.eqb_spec a b); [try (exfalso; euclid)|try (exfalso; euclid)]
         | |- context [N.ltb ?a ?b] =>
           destruct (N.ltb_spec a b); [try (exfalso; euclid)|try (exfalso; euclid)]
         | |- context [N.leb ?a ?b] =>
           destruct (N.leb_spec a b); [try (exfalso; euclid)|try (exfalso; euclid)]
         end; cbn [andb orb negb].

Local Ltac settle :=
  repeat match goal with
         | |- (if ?cond then _ else _) = _ =>
           first [ assert (cond = true) as -> by (compare; reflexivity)
                 | assert (cond = false) as -> by (compare; reflexivity) ]
         end;
  match goal with
  | |- cons ?x <$> _ = cons ?c <$> _ => replace x with c by euclid
  end; reflexivity.

Lemma utf8_decode_char c bs rest :
  utf8_encode_char c = Some bs →
  Codec.utf8_decode (bs ++ rest) = cons c <$> Codec.utf8_decode rest.
Proof.
  unfold utf8_encode_char.
  destruct (N.ltb_spec c 128) as [H1|H1].
  { intros [= <-]. cbn [app Codec.utf8_decode]. cbv zeta.
    rewrite to_N_byte_of by lia. settle. }
  destruct (N.ltb_spec c 2048) as [H2|H2].
  { intros [= <-]. cbn [app Codec.utf8_decode]. cbv zeta.
    rewrite !to_N_byte_of by euclid. unfold Codec.is_continuation. settle. }
  destruct (N.ltb_spec c 65536) as [H3|H3].
  { destruct (_ && _) eqn:Hsur; [done|].
    assert (c < 55296 ∨ 57343 < c) as Hc.
    { apply andb_false_iff in Hsur as [H%N.leb_gt|H%N.leb_gt]; lia. }
    intros [= <-]. cbn [app Codec.utf8_decode]. cbv zeta.
    rewrite !to_N_byte_of by euclid. unfold Codec.is_continuation. settle. }
  destruct (N.ltb_spec c 1114112) as [H4|H4]; [|done].
  intros [= <-]. cbn [app Codec.utf8_decode]. cbv zeta.
  rewrite !to_N_byte_of by euclid. unfold Codec.is_continuation. settle.
Qed.

Lemma utf8_decode_encode s data :
  utf8_encode s = Some data → Codec.utf8_decode data = Some s.
Proof.
  unfold utf8_encode. destruct (mapM utf8_encode_char s) as [parts|] eqn:Hparts; [|done].
  intros [= <-]. apply mapM_Some_1 in Hparts.
  induction Hparts as [|c bs s parts Hc _ IH]; [done|].
  simpl. by rewrite (utf8_decode_char _ _ _ Hc), IH.
Qed.

(** X15.  Text stored as UTF-8 comes through unchanged.  If the bytes of
    a file are the UTF-8 form of a text, [get_html_content] returns that
    text from the document [process_single_file] builds, without falling
    back to windows-1252, and stage 2 of [process_single_file] decodes the
    same text.  Likewise the parent id [generate_artifact] makes of a
    storage path decodes, as base64 and then UTF-8, to the storage
    path. *)
Theorem utf8_text_survives_the_payload s data file_path :
  utf8_encode s = Some data →
  Codec.utf8_decode data = Some s
  ∧ get_html_content {| file_data := Codec.b64encode data;
                        metadata_storage_path := file_path |} = Codec.Ok s
  ∧ decode_html_bytes data = s
  ∧ Codec.bind (Codec.b64decode (Codec.b64encode data))
      (λ decoded, match Codec.utf8_decode decoded with
                  | Some t => Codec.Ok t
                  | None => Codec.Raise Codec.UnicodeDecodeError
                  end) = Codec.Ok s.
Proof.
  intros Hs%utf8_decode_encode. split; [done|].
  rewrite get_html_content_encoded. unfold decode_html_bytes.
  rewrite b64decode_b64encode. simpl. by rewrite Hs.
Qed.

End Utf8.

(** ** The destination folder of a batch *)
Section DestinationFolder.

Import Destination.

Variable folder_exists : str → bool.

Lemma generate_new_folder_name_from_spec base_path :
  ∀ fuel counter,
    match generate_new_folder_name_from folder_exists fuel counter base_path with
    | Some new_path =>
      ∃ k, (counter <= k < counter + fuel)%nat
           ∧ new_path = numbered base_path k
           ∧ folder_exists new_path = false
           ∧ ∀ j, (counter <= j < k)%nat → folder_exists (numbered base_path j) = true
    | None =>
      ∀ j, (counter <= j < counter + fuel)%nat →
           folder_exists (numbered base_path j) = true
    end.
Proof.
  induction fuel as [|fuel IH]; intros counter; simpl; [intros j ?; lia|].
  destruct (folder_exists (numbered base_path counter)) eqn:Hc.
  - specialize (IH (S counter)).
    destruct (generate_new_folder_name_from _ fuel (S counter) base_path) as [r|].
    + destruct IH as (k & Hk & -> & Hfree & Hbelow). exists k.
      split; [lia|]. split; [done|]. split; [done|].
      intros j Hj. destruct (decide (j = counter)) as [->|]; [done|].
      apply Hbelow. lia.
    + intros j Hj. destruct (decide (j = counter)) as [->|]; [done|].
      apply IH. lia.
  - exists counter. split; [lia|]. split; [done|]. split; [done|].
    intros j ?. lia.
Qed.

(** X16.  [generate_new_folder_name] returns the first free name: if
    [base_path_k] does not exist and every [base_path_j] with a smaller
    counter does, the loop stops after [k] tests with [base_path_k]. *)
Theorem generate_new_folder_name_first_free fuel base_path k :
  (1 <= k <= fuel)%nat →
  folder_exists (numbered base_path k) = false →
  (∀ j, (1 <= j < k)%nat → folder_exists (numbered base_path j) = true) →
  generate_new_folder_name folder_exists fuel base_path = Some (numbered base_path k).
Proof.
  intros Hk Hfree Hbelow. unfold generate_new_folder_name.
  pose proof (generate_new_folder_name_from_spec base_path fuel 1) as Hspec.
  destruct (generate_new_folder_name_from _ fuel 1 base_path) as [r|].
  - destruct Hspec as (k' & Hk' & -> & Hfree' & Hbelow').
    destruct (Nat.lt_trichotomy k k') as [Hlt|[->|Hlt]]; [|done|].
    + rewrite Hbelow' in Hfree by lia. done.
    + rewrite Hbelow in Hfree' by lia. done.
  - rewrite Hspec in Hfree by lia. done.
Qed.

(** X17.  The folder [process_batch] writes to never exists beforehand:
    it is the configured path when that is free, and otherwise a numbered
    path that is free while all numbered paths before it are taken.  The
    search for a name fails to end only while every numbered path tried
    exists. *)
Theorem destination_path_is_free fuel path :
  match destination_path folder_exists fuel path with
  | Some destination =>
    folder_exists destination = false
    ∧ (folder_exists path = false → destination = path)
    ∧ (folder_exists path = true →
       ∃ k, (1 <= k <= fuel)%nat
            ∧ destination = numbered path k
            ∧ ∀ j, (1 <= j < k)%nat → folder_exists (numbered path j) = true)
  | None =>
    folder_exists path = true
    ∧ ∀ j, (1 <= j <= fuel)%nat → folder_exists (numbered path j) = true
  end.
Proof.
  unfold destination_path, generate_new_folder_name.
  destruct (folder_exists path) eqn:Hpath; [|done].
  pose proof (generate_new_folder_name_from_spec path fuel 1) as Hspec.
  destruct (generate_new_folder_name_from _ fuel 1 path) as [r|].
  - destruct Hspec as (k & Hk & -> & Hfree & Hbelow).
    split; [done|]. split; [done|]. intros _. exists k. split; [lia|done].
  - split; [done|]. intros j Hj. apply Hspec. lia.
Qed.

End DestinationFolder.

(** ** The summary of a batch *)
Section BatchSummary.

Import App.

Lemma count_errors_lookup failures :
  ∀ (error_counts : gmap string nat) (t : string),
    count_errors failures error_counts !! t
    = match length (List.filter (λ r, bool_decide (error_type_of r = t)) failures) with
      | O => error_counts !! t
      | S n => Some (default 0 (error_counts !! t) + S n)%nat
      end.
Proof.
  induction failures as [|failure failures IH]; intros error_counts t; [done|].
  cbn [count_errors List.filter]. cbv zeta. rewrite IH.
  destruct (bool_decide_reflect (error_type_of failure = t)) as [->|Hne].
  - rewrite lookup_insert_eq. cbn [length default].
    destruct (length _); unfold id; f_equal; lia.
  - by rewrite lookup_insert_ne.
Qed.

Lemma filter_success_failure results :
  (length (List.filter is_success results) + length (List.filter is_failure results)
   = length results)%nat.
Proof.
  induction results as [|r results IH]; [done|].
  destruct r; simpl; lia.
Qed.

Lemma filter_filter_failure (p : file_result → bool) results :
  List.filter p (List.filter is_failure results)
  = List.filter (λ r, is_failure r && p r) results.
Proof.
  induction results as [|r results IH]; [done|]. simpl.
  destruct (is_failure r); simpl; [|done]. destruct (p r); by rewrite IH.
Qed.

(** X18.  The summary [process_batch] of [src/app.py] returns accounts for
    every result once, as processed or as failed.  The status is
    [completed] exactly when nothing failed, [failed] exactly when
    something failed and nothing succeeded, and [partial_success] exactly
    when there is at least one of each.  The error counts are present
    exactly when something failed, and then an error type has an entry
    exactly when a failed file reported it, with the number of those
    files; a failure without an error type counts under [unknown]. *)
Theorem summary_accounts_for_every_result results :
  let s := summarize results in
  (files_processed s + files_failed s = length results)%nat
  ∧ (status s = "completed"%string ↔ files_failed s = 0%nat)
  ∧ (status s = "failed"%string ↔ files_failed s ≠ 0%nat ∧ files_processed s = 0%nat)
  ∧ (status s = "partial_success"%string
     ↔ files_failed s ≠ 0%nat ∧ files_processed s ≠ 0%nat)
  ∧ (common_errors s = None ↔ files_failed s = 0%nat)
  ∧ ∀ error_counts t,
      common_errors s = Some error_counts →
      error_counts !! t
      = match length (List.filter
                        (λ r, is_failure r && bool_decide (error_type_of r = t))
                        results) with
        | O => None
        | S n => Some (S n)
        end.
Proof.
  cbv zeta. unfold summarize. cbv zeta. cbn [files_processed files_failed status common_errors].
  split; [apply filter_success_failure|].
  assert (∀ t, count_errors (List.filter is_failure results) ∅ !! t
               = match length (List.filter
                                 (λ r, is_failure r && bool_decide (error_type_of r = t))
                                 results) with
                 | O => None
                 | S n => Some (S n)
                 end) as Hcounts.
  { intros t. rewrite count_errors_lookup, filter_filter_failure, lookup_empty.
    by destruct (length _). }
  destruct (List.filter is_failure results) as [|f fs] eqn:Hf;
    destruct (List.filter is_success results) as [|x xs] eqn:Hx; cbn [length];
    (repeat split; try done; try lia; try (intros []; done); try (by intros [? ?])).
  all: intros error_counts t Heq;
    assert (error_counts = count_errors (f :: fs) ∅) as -> by congruence;
    apply Hcounts.
Qed.

End BatchSummary.

(** ** The categories [get_metadata_paths] reads *)
Section MetadataPaths.

Import Metadata.

Local Arguments N.eqb : simpl never.

Lemma findall_quoted_from_items s :
  ∀ skip item,
    item ∈ findall_quoted_from skip s → Forall (λ c, is_quote c = false) item.
Proof.
  induction s as [|c s IH]; intros skip item; simpl; [by intros ?%elem_of_nil|].
  destruct skip as [|k]; [|apply IH].
  destruct (is_quote c); [|apply IH].
  destruct (drop _ s) as [|d r]; [apply IH|].
  intros [->|Hin]%elem_of_cons; [|by eapply IH].
  eapply Forall_impl; [apply take_while_Forall|].
  intros x Hx. simpl in Hx. by apply negb_true_iff.
Qed.

Lemma findall_quoted_from_skip pre s :
  findall_quoted_from (length pre) (pre ++ s) = findall_quoted_from 0 s.
Proof. induction pre as [|c pre IH]; [done|]. simpl. exact IH. Qed.

Lemma findall_quoted_lead lead s :
  Forall (λ c, is_quote c = false) lead →
  findall_quoted_from 0 (lead ++ s) = findall_quoted_from 0 s.
Proof. induction 1 as [|c lead Hc _ IH]; [done|]. simpl. by rewrite Hc. Qed.

Lemma findall_quoted_item q1 q2 item s :
  is_quote q1 = true → is_quote q2 = true →
  Forall (λ c, is_quote c = false) item →
  findall_quoted_from 0 ([q1] ++ item ++ [q2] ++ s) = item :: findall_quoted_from 0 s.
Proof.
  intros Hq1 Hq2 Hitem. cbn [app findall_quoted_from quoted]. rewrite Hq1. cbv zeta.
  assert (take_while (λ d, negb (is_quote d)) (item ++ q2 :: s) = item) as ->.
  { rewrite take_while_app.
    - simpl. rewrite Hq2. simpl. by rewrite app_nil_r.
    - eapply Forall_impl; [exact Hitem|]. intros x Hx. simpl. by rewrite Hx. }
  rewrite drop_app_length. f_equal.
  change (item ++ q2 :: s) with (item ++ [q2] ++ s). rewrite app_assoc.
  replace (S (length item)) with (length (item ++ [q2]))
    by (rewrite length_app; simpl; lia).
  apply findall_quoted_from_skip.
Qed.

(** X19.  [get_metadata_paths] returns the quoted items of the [content]
    attribute: no item it returns contains a quote character, and a list
    written as quoted items, each opened and closed by a quote character
    of either kind and followed by text without quote characters, is read
    back item by item, whatever text without quote characters comes
    first.  Without the element, or with an element that has no
    [content], there are no categories. *)
Theorem metadata_paths_are_the_quoted_items lead (items : list written_item) :
  Forall (λ c, is_quote c = false) lead →
  Forall (λ it, is_quote (opening it) = true
                ∧ Forall (λ c, is_quote c = false) (item_text it)
                ∧ is_quote (closing it) = true
                ∧ Forall (λ c, is_quote c = false) (trailer it)) items →
  get_metadata_paths (Some (Some (lead ++ flat_map write_item items)))
  = item_text <$> items
  ∧ (∀ content item,
       item ∈ get_metadata_paths (Some content) → Forall (λ c, is_quote c = false) item)
  ∧ get_metadata_paths None = []
  ∧ get_metadata_paths (Some None) = [].
Proof.
  intros Hlead Hitems. split; [|split; [|done]].
  - unfold get_metadata_paths. simpl default. rewrite findall_quoted_lead by done.
    induction Hitems as [|[q1 item q2 tr] items (Hq1 & Hi & Hq2 & Ht) _ IH]; [done|].
    simpl in Hq1, Hi, Hq2, Ht.
    change (findall_quoted_from 0
              (([q1] ++ item ++ [q2] ++ tr) ++ flat_map write_item items)
            = item :: (item_text <$> items)).
    rewrite <- !app_assoc.
    rewrite findall_quoted_item by done.
    rewrite findall_quoted_lead by done. by rewrite IH.
  - intros content item. apply findall_quoted_from_items.
Qed.

End MetadataPaths.

(** ** The strategy name and the folder test *)
Section NamesAndFolders.
Context `{libs : Collaborators}.

Import Destination.

(** X20.  A strategy name that is neither [h1_heading_based] nor
    [h2_heading_based] selects fixed-size chunking: [get_html_chunks]
    treats it as [fixed_size], and [process_single_file] gives for it the
    result it gives when the option is absent. *)
Theorem unknown_strategy_is_fixed_size doc chunk_size chunk_overlap name
    extract_main_content cs co e file_path html_bytes :
  name ≠ CHUNKING_STRATEGY_H1_BASED →
  name ≠ CHUNKING_STRATEGY_H2_BASED →
  get_html_chunks doc chunk_size chunk_overlap name extract_main_content
  = get_html_chunks doc chunk_size chunk_overlap CHUNKING_STRATEGY_FIXED
      extract_main_content
  ∧ process_single_file
      {| opt_chunk_size := cs; opt_chunk_overlap := co;
         opt_chunking_strategy := Some name; opt_extract_main_content := e |}
      file_path html_bytes
    = process_single_file
        {| opt_chunk_size := cs; opt_chunk_overlap := co;
           opt_chunking_strategy := None; opt_extract_main_content := e |}
        file_path html_bytes.
Proof.
  intros H1 H2.
  assert (∀ d a b x,
            get_html_chunks d a b name x
            = get_html_chunks d a b CHUNKING_STRATEGY_FIXED x) as Hfixed.
  { intros d a b x. unfold get_html_chunks.
    by rewrite !(bool_decide_false (name = _)) by done. }
  split; [apply Hfixed|].
  unfold process_single_file. cbv zeta.
  cbn [opt_chunking_strategy opt_chunk_size opt_chunk_overlap opt_extract_main_content
       default]. unfold id.
  set (valid := [CHUNKING_STRATEGY_FIXED; CHUNKING_STRATEGY_H1_BASED;
                 CHUNKING_STRATEGY_H2_BASED]).
  destruct (bool_decide (name ∈ valid)), (bool_decide (CHUNKING_STRATEGY_FIXED ∈ valid));
    by rewrite ?Hfixed.
Qed.

Lemma startswith_app p q : Py.startswith p (p ++ q) = true.
Proof. induction p as [|c p IH]; [done|]. simpl. by rewrite N.eqb_refl, IH. Qed.

Lemma startswith_prefix p q s :
  Py.startswith (p ++ q) s = true → Py.startswith p s = true.
Proof.
  revert s. induction p as [|c p IH]; intros s; [done|].
  destruct s as [|d s]; simpl; [done|].
  intros [-> ?]%andb_true_iff. simpl. by apply IH.
Qed.

Lemma folder_exists_true blobs fails folder_path :
  StorageClient.folder_exists blobs fails folder_path = true
  ↔ fails folder_path = false
    ∧ ∃ b, b ∈ blobs ∧ Py.startswith folder_path b = true.
Proof.
  unfold StorageClient.folder_exists, StorageClient.list_blobs.
  destruct (fails folder_path); [by split; [|intros [? _]]|].
  destruct (List.filter _ blobs) as [|b0 l] eqn:Hfilter.
  - split; [done|]. intros [_ (b & Hb & Hstart)].
    assert (In b (List.filter (Py.startswith folder_path) blobs)) as Hin.
    { apply filter_In. split; [by apply list_elem_of_In|done]. }
    rewrite Hfilter in Hin. done.
  - split; [|done]. intros _. split; [done|].
    assert (In b0 (List.filter (Py.startswith folder_path) blobs)) as Hin
      by (rewrite Hfilter; by left).
    apply filter_In in Hin as [Hin Hstart]. exists b0.
    split; [by apply list_elem_of_In|done].
Qed.

(** X21.  [folder_exists] is a test on name prefixes, not on folders.
    Where the listing does not raise, a path counts as an existing folder
    as soon as the name of some blob begins with it, and whatever begins
    an existing path exists: when any blob name begins with the
    configured destination, be it a file or a folder beside it such as
    [out_10/] for [out_1], [process_batch] does not write to the
    configured destination.  Where the listing raises, the path counts as
    free, and [process_batch] writes to the configured destination
    although blobs are there. *)
Theorem folder_exists_is_a_prefix_test blobs fails path rest fuel :
  path ++ rest ∈ blobs →
  (fails path = false →
   StorageClient.folder_exists blobs fails path = true
   ∧ destination_path (StorageClient.folder_exists blobs fails) fuel path ≠ Some path)
  ∧ (fails path = true →
     StorageClient.folder_exists blobs fails path = false
     ∧ destination_path (StorageClient.folder_exists blobs fails) fuel path = Some path)
  ∧ (∀ p q, StorageClient.folder_exists blobs fails (p ++ q) = true →
            fails p = false →
            StorageClient.folder_exists blobs fails p = true).
Proof.
  intros Hin. split; [|split].
  - intros Hok.
    assert (StorageClient.folder_exists blobs fails path = true) as Hpath.
    { apply folder_exists_true. split; [done|]. exists (path ++ rest).
      split; [done|apply startswith_app]. }
    split; [done|].
    unfold destination_path. rewrite Hpath. unfold generate_new_folder_name.
    pose proof (generate_new_folder_name_from_spec
                  (StorageClient.folder_exists blobs fails) path fuel 1) as Hspec.
    destruct (generate_new_folder_name_from _ fuel 1 path) as [r|]; [|done].
    destruct Hspec as (k & _ & -> & _). intros [= Heq].
    apply (f_equal length) in Heq. unfold numbered in Heq.
    rewrite !length_app in Heq. simpl in Heq. lia.
  - intros Hfail.
    assert (StorageClient.folder_exists blobs fails path = false) as Hpath.
    { unfold StorageClient.folder_exists, StorageClient.list_blobs. by rewrite Hfail. }
    split; [done|]. unfold destination_path. by rewrite Hpath.
  - intros p q (_ & b & Hb & Hstart)%folder_exists_true Hok.
    apply folder_exists_true. split; [done|]. exists b.
    split; [done|by eapply startswith_prefix].
Qed.

End NamesAndFolders.

(** ** A batch, from the files to the summary *)
Section WholeBatch.

Import App Batch.

Variable process_single_file : str → file_result.

Lemma filter_map_none {A} (p : A → bool) (l : list A) :
  List.filter p l = [] ↔ ∀ x, x ∈ l → p x = false.
Proof.
  induction l as [|x l IH]; simpl.
  - split; [by intros _ ? ?%elem_of_nil|done].
  - destruct (p x) eqn:Hx.
    + split; [done|]. intros H. specialize (H x ltac:(by left)). congruence.
    + rewrite IH. split.
      * intros H y [->|?]%elem_of_cons; [done|by apply H].
      * intros H y Hy. apply H. by right.
Qed.

(** X22.  From the paths to the summary, whatever happens to the single
    files.  An empty source is reported as a failed batch with one failed
    file, counted under [unknown], although no file was processed.
    Otherwise the summary accounts for every path processed, all of them
    or the first five in preview mode; the batch is [completed] exactly
    when every one of these files succeeded, and [failed] exactly when
    every one of them failed. *)
Theorem batch_summary_of_files preview_mode file_paths :
  let s := summarize (process_batch process_single_file preview_mode file_paths) in
  let processed := if preview_mode then take 5 file_paths else file_paths in
  (file_paths = [] →
   status s = "failed"%string ∧ files_processed s = 0%nat ∧ files_failed s = 1%nat
   ∧ common_errors s = Some {[ "unknown"%string := 1%nat ]})
  ∧ (file_paths ≠ [] →
     (files_processed s + files_failed s = length processed)%nat
     ∧ (preview_mode = true → length processed <= 5)%nat
     ∧ (status s = "completed"%string
        ↔ ∀ f, f ∈ processed → is_success (process_single_file f) = true)
     ∧ (status s = "failed"%string
        ↔ ∀ f, f ∈ processed → is_failure (process_single_file f) = true)).
Proof.
  cbv zeta. split; [by intros ->|].
  intros Hne. destruct file_paths as [|f0 file_paths]; [done|].
  unfold process_batch. cbv zeta.
  set (processed := if preview_mode then take 5 (f0 :: file_paths) else f0 :: file_paths).
  set (results := map _ processed).
  assert (processed ≠ []) as Hprocessed by (unfold processed; by destruct preview_mode).
  assert (∀ r, is_failure r = negb (is_success r)) as Hneg by (by intros []).
  split; [|split; [|split]].
  - unfold summarize. cbv zeta. cbn [files_processed files_failed].
    rewrite filter_success_failure. unfold results. by rewrite length_map.
  - intros ->. unfold processed. rewrite length_take. lia.
  - assert (status (summarize results) = "completed"%string
            ↔ List.filter is_failure results = []) as ->.
    { unfold summarize. cbv zeta. cbn [status].
      destruct (List.filter is_failure results), (List.filter is_success results); done. }
    rewrite filter_map_none. unfold results. split.
    + intros Hall f Hf.
      specialize (Hall (process_single_file f)). rewrite Hneg in Hall.
      apply negb_false_iff, Hall, list_elem_of_fmap. by exists f.
    + intros Hall r (f & -> & Hf)%list_elem_of_fmap.
      rewrite Hneg. by rewrite (Hall f Hf).
  - assert (status (summarize results) = "failed"%string
            ↔ List.filter is_success results = []) as ->.
    { unfold summarize. cbv zeta. cbn [status].
      pose proof (filter_success_failure results) as Hlen.
      assert (length results ≠ 0%nat) as Hres.
      { unfold results. rewrite length_map. by destruct processed. }
      destruct (List.filter is_failure results), (List.filter is_success results);
        simpl in *; try done; lia. }
    rewrite filter_map_none. unfold results. split.
    + intros Hall f Hf.
      specialize (Hall (process_single_file f)). rewrite Hneg.
      apply negb_true_iff, Hall, list_elem_of_fmap. by exists f.
    + intros Hall r (f & -> & Hf)%list_elem_of_fmap.
      specialize (Hall f Hf). rewrite Hneg in Hall. by apply negb_true_iff.
Qed.

End WholeBatch.

(** ** Runs of the further properties *)
Section FurtherRuns.

Import FurtherInputs Utils Destination.

Lemma merged_chunk_exceeds_chunk_size_witness :
  h1_section (libs := Sample.collaborators) 40 0 50 section_of_three
  = [ {| text := (u "# " ++ u "T") ++ NLNL ++ Py.strip twenty_a;
         heading := Some (u "T") |};
      {| text := ((u "# " ++ u "T") ++ u " (continued)" ++ NLNL)
                 ++ Py.strip (Py.strip eighteen_b ++ NLNL ++ Py.strip (u "cccc"));
         heading := Some (u "T") |} ]
  ∧ (40 < count_tokens (libs := Sample.collaborators)
             (((u "# " ++ u "T") ++ u " (continued)" ++ NLNL)
              ++ Py.strip (Py.strip eighteen_b ++ NLNL ++ Py.strip (u "cccc"))))%Z
  ∧ (count_tokens (libs := Sample.collaborators) (Py.strip eighteen_b)
     <= 40 - count_tokens (libs := Sample.collaborators)
               ((u "# " ++ u "T") ++ u " (continued)" ++ NLNL))%Z
  ∧ (count_tokens (libs := Sample.collaborators) (u "cccc")
     <= 40 - count_tokens (libs := Sample.collaborators)
               ((u "# " ++ u "T") ++ u " (continued)" ++ NLNL))%Z.
Proof.
  apply (merged_chunk_exceeds_chunk_size (libs := Sample.collaborators)
           40 0 50 section_of_three (u "T")
           twenty_a eighteen_b (u "cccc")).
  - vm_compute. reflexivity.
  - vm_compute. reflexivity.
  - vm_compute. reflexivity.
  - left. vm_compute. reflexivity.
  - by vm_compute.
  - vm_compute. reflexivity.
  - vm_compute. reflexivity.
  - vm_compute. reflexivity.
Defined.

Lemma first_chunk_labelled_continued_witness :
  h1_section (libs := Sample.collaborators) 40 0 50 section_of_two ≠ []
  ∧ (∀ c, c ∈ h1_section (libs := Sample.collaborators) 40 0 50 section_of_two →
       (∃ body, text c = ((u "# " ++ u "T") ++ u " (continued)" ++ NLNL) ++ body)
       ∧ ∀ body, text c ≠ (u "# " ++ u "T") ++ NLNL ++ body)
  ∧ ∃ c pre post,
      c ∈ h1_section (libs := Sample.collaborators) 40 0 50 section_of_two
      ∧ text c = pre ++ Py.strip (u "aaaaaaaaaa") ++ post.
Proof.
  apply (first_chunk_labelled_continued (libs := Sample.collaborators)
           40 0 50 section_of_two (u "T") (u "aaaaaaaaaa") (u "bbbbb") []).
  - vm_compute. reflexivity.
  - vm_compute. reflexivity.
  - vm_compute. reflexivity.
  - by vm_compute.
  - vm_compute. reflexivity.
Defined.

Lemma h1_merge_loop_loses_no_text_witness :
  ∃ c, c ∈ h1_sub_chunk_loop (libs := Sample.collaborators) (u "# T") (u "T") 40 18 50
             (length padded_pieces) 0 padded_pieces
       ∧ ∃ pre post, text c = pre ++ Py.strip (u " bb") ++ post.
Proof.
  apply (h1_merge_loop_loses_no_text (libs := Sample.collaborators)
           (u "# T") (u "T") 40 18 50 padded_pieces (u " bb")).
  right. left.
Defined.

Lemma chunk_ids_hash_distinct_inputs_witness :
  ∃ inputs,
    NoDup inputs
    ∧ chunk_id <$> default [] (generate_artifact show_bytes two_kept_chunks []
                                 (u "Title") (u "docs/a.html"))
      = show_bytes <$> inputs.
Proof.
  apply (chunk_ids_hash_distinct_inputs show_bytes two_kept_chunks []
           (u "Title") (u "docs/a.html")).
  - intros [|[|i]] [|[|j]] c d Hij Hi Hj; simpl in Hi, Hj; try lia; try discriminate.
    injection Hi as <-. injection Hj as <-. simpl. lia.
  - vm_compute. reflexivity.
Defined.

Lemma utf8_text_survives_the_payload_witness :
  Codec.utf8_decode (default [] (utf8_encode accented)) = Some accented
  ∧ get_html_content {| file_data := Codec.b64encode (default [] (utf8_encode accented));
                        metadata_storage_path := u "docs/a.html" |}
    = Codec.Ok accented
  ∧ decode_html_bytes (default [] (utf8_encode accented)) = accented
  ∧ Codec.bind (Codec.b64decode (Codec.b64encode (default [] (utf8_encode accented))))
      (λ decoded, match Codec.utf8_decode decoded with
                  | Some t => Codec.Ok t
                  | None => Codec.Raise Codec.UnicodeDecodeError
                  end) = Codec.Ok accented.
Proof.
  apply (utf8_text_survives_the_payload accented (default [] (utf8_encode accented))
           (u "docs/a.html")).
  vm_compute. reflexivity.
Defined.

Lemma undecodable_file_fails_in_chunking_witness :
  process_single_file (libs := Sample.collaborators) Inputs.no_options (u "docs/a.html")
    [Byte.x68; Byte.x8d]
  = Failed Codec.UnicodeDecodeError "chunking"
  ∧ decode_html_bytes [Byte.x68; Byte.x8d]
    = Codec.cp1252_decode_replace [Byte.x68; Byte.x8d]
  ∧ 65533 ∈ decode_html_bytes [Byte.x68; Byte.x8d].
Proof.
  apply (undecodable_file_fails_in_chunking (libs := Sample.collaborators)).
  - vm_compute. reflexivity.
  - exists Byte.x8d. split; [by right; left|by right; left].
Defined.

Lemma generate_new_folder_name_first_free_witness :
  generate_new_folder_name (StorageClient.folder_exists taken_blobs (λ _, false)) 5 (u "out")
  = Some (numbered (u "out") 3).
Proof.
  apply generate_new_folder_name_first_free.
  - lia.
  - vm_compute. reflexivity.
  - intros j Hj. assert (j = 1 ∨ j = 2)%nat as [-> | ->] by lia; vm_compute; reflexivity.
Defined.

Lemma metadata_paths_are_the_quoted_items_witness :
  Metadata.get_metadata_paths
    (Some (Some (u "[" ++ [34] ++ u "cat1" ++ [34] ++ u ", "
                 ++ [34] ++ u "User/Guide" ++ [34] ++ u ", "
                 ++ [39] ++ u "cat3" ++ [39] ++ u "]")))
  = [u "cat1"; u "User/Guide"; u "cat3"].
Proof.
  refine (proj1 (metadata_paths_are_the_quoted_items (u "[") category_items _ _)).
  - repeat constructor.
  - repeat constructor.
Defined.

Lemma unknown_strategy_is_fixed_size_witness :
  get_html_chunks (libs := Sample.collaborators)
    {| file_data := Codec.b64encode []; metadata_storage_path := u "docs/a.html" |}
    750 100 "Fixed_Size" false
  = get_html_chunks (libs := Sample.collaborators)
      {| file_data := Codec.b64encode []; metadata_storage_path := u "docs/a.html" |}
      750 100 CHUNKING_STRATEGY_FIXED false
  ∧ process_single_file (libs := Sample.collaborators)
      {| opt_chunk_size := Some 750%Z; opt_chunk_overlap := Some 100%Z;
         opt_chunking_strategy := Some "Fixed_Size"%string;
         opt_extract_main_content := None |}
      (u "docs/a.html") []
    = process_single_file (libs := Sample.collaborators)
        {| opt_chunk_size := Some 750%Z; opt_chunk_overlap := Some 100%Z;
           opt_chunking_strategy := None; opt_extract_main_content := None |}
        (u "docs/a.html") [].
Proof.
  apply (unknown_strategy_is_fixed_size (libs := Sample.collaborators));
    intros H; discriminate H.
Defined.

Lemma folder_exists_is_a_prefix_test_witness :
  (StorageClient.folder_exists sibling_blobs (λ _, false) (u "out_1") = true
   ∧ destination_path (StorageClient.folder_exists sibling_blobs (λ _, false)) 5 (u "out_1")
     ≠ Some (u "out_1"))
  ∧ (StorageClient.folder_exists sibling_blobs (λ _, true) (u "out_1") = false
     ∧ destination_path (StorageClient.folder_exists sibling_blobs (λ _, true)) 5 (u "out_1")
       = Some (u "out_1")).
Proof.
  split.
  - apply (proj1 (folder_exists_is_a_prefix_test sibling_blobs (λ _, false)
                    (u "out_1") (u "0/a.json") 5 ltac:(vm_compute; left))).
    reflexivity.
  - apply (proj1 (proj2 (folder_exists_is_a_prefix_test sibling_blobs (λ _, true)
                           (u "out_1") (u "0/a.json") 5 ltac:(vm_compute; left)))).
    reflexivity.
Defined.

End FurtherRuns.
